(** * JobApplicationPipeline: a shallow embedding of the pipeline glue

    The first part holds the definitions, module by module:
    - [Text], [Re], [Paths] : what Python provides: strings, the regular
                  expressions of the scripts, [pathlib] and [os.path];
    - [Py]      : exceptions, and statements that change a state and may
                  raise;
    - [Score]   : [score_jobs.py], scoring a job text against [MY_SKILLS];
    - [Store]   : the SQLite [jobs] / [applications] tables, the two
                  [CREATE TABLE] statements, [upsert], [ensure_score_column];
    - [Fetch]   : [fetch_jobs.py], the normalizers and the fetchers;
    - [Convert] : [convert_and_export.py], [wrap_line] and
                  [ensure_pdf_from_md], with the lookups of [writer.py]
                  and [cli.py] that can abort a command;
    - [Apply]   : [apply_assist.py], the upload and form-filling cascades;
    - [Nav]     : [apply_assist.py], the urls tried for the application form;
    - [Html]    : [strip_html], the same in [score_jobs.py] and [writer.py];
    - [ScoreJobs], [Writer] : [safe_get], [job_text_from_payload] and
                  [score_all], and [extract_description] of [writer.py];
    - [Exporter] : [update_db] of [convert_and_export.py];
    - [Pages]   : the pages that [md_to_pdf_simple] draws;
    - [Board]   : [to_iso_utc], and the whole of [fetch_and_store] with
                  what it keeps of the database.
    The second part holds the theorems, in the same order.

    Floats are IEEE binary64 (Rocq's primitive floats), strings are
    sequences of code points below 256, and everything that lives outside
    the repository (the HTTP client, the browser, the fuzzy matcher, the
    file system, the PDF renderers) is a parameter of what uses it. *)

From Stdlib Require Import PrimFloat FloatOps FloatAxioms SpecFloat Uint63 ZArith Ascii String List Lia.
From stdpp Require Import gmap strings list fin_maps.

#[local] Set Warnings "-inexact-float,-register-all".
#[local] Open Scope string_scope.

(* ===================================================================== *)
(** ** Python strings *)
(* ===================================================================== *)

Module Text.

(** [str.lower] on one code point: only A-Z and the upper-case Latin-1
    letters have a lower-case form below 256. *)
Definition lower_ascii (c : ascii) : ascii :=
  let n := nat_of_ascii c in
  if ((65 <=? n) && (n <=? 90))%nat then ascii_of_nat (n + 32)
  else if ((192 <=? n) && (n <=? 222) && negb (n =? 215))%nat then ascii_of_nat (n + 32)
  else c.

Fixpoint lower (s : string) : string :=
  match s with
  | EmptyString => EmptyString
  | String c rest => String (lower_ascii c) (lower rest)
  end.

(** [needle in hay] *)
Fixpoint contains (needle hay : string) : bool :=
  String.prefix needle hay
  || match hay with
     | EmptyString => false
     | String _ rest => contains needle rest
     end.

(** [re.search] of a literal with [re.I]. *)
Definition icontains (needle hay : string) : bool :=
  contains (lower needle) (lower hay).

(** Truthiness of a [str]. *)
Definition nonempty (s : string) : bool :=
  match s with EmptyString => false | _ => true end.

(** Truthiness of an [Optional[str]]. *)
Definition truthy (o : option string) : bool :=
  match o with Some s => nonempty s | None => false end.

(** [Py_UNICODE_ISSPACE] below 256, as used by [str.lstrip()]. *)
Definition is_space (c : ascii) : bool :=
  let n := nat_of_ascii c in
  (((9 <=? n) && (n <=? 13)) || ((28 <=? n) && (n <=? 32))
   || (n =? 133) || (n =? 160))%nat.

(** [s[:n]] and [s[n:]] for [0 <= n]. *)
Fixpoint take (n : nat) (s : string) : string :=
  match n, s with
  | S n', String c rest => String c (take n' rest)
  | _, _ => EmptyString
  end.

Fixpoint drop (n : nat) (s : string) : string :=
  match n, s with
  | S n', String _ rest => drop n' rest
  | _, _ => s
  end.

(** [s.lstrip()] *)
Fixpoint lstrip (s : string) : string :=
  match s with
  | EmptyString => EmptyString
  | String c rest => if is_space c then lstrip rest else s
  end.

(** [s.rfind(c, 0, stop)] for [0 <= stop]: the highest index below [stop]
    that holds [c]; [None] stands for [-1]. *)
Fixpoint rfind_before (c : ascii) (stop : nat) (s : string) : option nat :=
  match stop, s with
  | S stop', String x rest =>
      match rfind_before c stop' rest with
      | Some i => Some (S i)
      | None => if Ascii.eqb x c then Some 0 else None
      end
  | _, _ => None
  end.

(** [s.split(sep)] for a one-character separator. *)
Fixpoint split_on (sep : ascii) (s : string) : list string :=
  match s with
  | EmptyString => [EmptyString]
  | String c rest =>
      let parts := split_on sep rest in
      if Ascii.eqb c sep then EmptyString :: parts
      else match parts with
           | first :: others => String c first :: others
           | [] => [String c EmptyString]
           end
  end.

(** [s.replace(old, new)] for one-character strings. *)
Fixpoint replace_char (old new : ascii) (s : string) : string :=
  match s with
  | EmptyString => EmptyString
  | String c rest =>
      String (if Ascii.eqb c old then new else c) (replace_char old new rest)
  end.

(** [c in s] for one character. *)
Fixpoint has_char (c : ascii) (s : string) : bool :=
  match s with
  | EmptyString => false
  | String x rest => Ascii.eqb x c || has_char c rest
  end.

(** [", ".join(...)] and friends. *)
Fixpoint join (sep : string) (parts : list string) : string :=
  match parts with
  | [] => EmptyString
  | [p] => p
  | p :: rest => p ++ sep ++ join sep rest
  end.

End Text.

(* ===================================================================== *)
(** ** Paths, as [pathlib] and [os.path] read them on POSIX *)
(* ===================================================================== *)

Module Paths.
Import Text.

(** The components of a path: [pathlib] drops empty components and [.]. *)
Definition parts (p : string) : list string :=
  filter (fun c => c <> "" /\ c <> ".") (split_on "/" p).

Definition anchored (p : string) : bool := String.prefix "/" p.

(** [str(Path(p))] *)
Definition render (anchor : bool) (ps : list string) : string :=
  match anchor, ps with
  | false, [] => "."
  | false, _ => join "/" ps
  | true, _ => "/" ++ join "/" ps
  end.

(** [Path(p).name]: the last component. *)
Definition name (p : string) : string := List.last (parts p) "".

(** The suffix of a file name: from its last dot, unless that dot is the
    first or the last character. *)
Definition suffix_of_name (n : string) : string :=
  match rfind_before "." (String.length n) n with
  | Some i =>
      if ((0 <? i) && (i <? String.length n - 1))%nat then drop i n else ""
  | None => ""
  end.

(** [Path(p).suffix] *)
Definition suffix (p : string) : string := suffix_of_name (name p).

(** [Path(p).with_suffix(ext)], as a string; [None] stands for the
    [ValueError] of a path with an empty name. *)
Definition with_suffix (p ext : string) : option string :=
  match List.rev (parts p) with
  | [] => None
  | n :: before =>
      let stem := take (String.length n - String.length (suffix_of_name n)) n in
      Some (render (anchored p) (List.rev before ++ [stem ++ ext]))
  end.

(** [os.path.normpath] on components, the stack top first: [..] removes
    the component before it, and stays at the root. *)
Definition norm_step (stack : list string) (c : string) : list string :=
  if String.eqb c ".." then List.tl stack else c :: stack.

(** [os.path.abspath(p)] in the working directory [cwd] (absolute and
    normalized, given by its components). *)
Definition abspath (cwd : list string) (p : string) : string :=
  render true
    (List.rev (fold_left norm_step (parts p)
                         (if anchored p then [] else List.rev cwd))).

(** A component as [parts] yields them. *)
Definition component (c : string) : Prop :=
  has_char "/" c = false /\ c <> "" /\ c <> ".".

End Paths.

(* ===================================================================== *)
(** ** The regular expressions the scripts use *)
(* ===================================================================== *)

Module Re.
Import Text.

(** The patterns of the repository are alternatives of sequences of
    literal characters, [\s*] and [.*]. *)
Inductive atom :=
| Chr (c : ascii)
| Spaces
| Any.

Fixpoint parse_seq (pat : string) : list atom :=
  match pat with
  | EmptyString => []
  | String "\"%char (String "s"%char (String "*"%char rest)) => Spaces :: parse_seq rest
  | String "."%char (String "*"%char rest) => Any :: parse_seq rest
  | String c rest => Chr c :: parse_seq rest
  end.

(** [re.compile(pat)] *)
Definition compile (pat : string) : list (list atom) :=
  map parse_seq (split_on "|" pat).

(** [.] matches anything but a newline. *)
Definition is_dot (c : ascii) : bool := negb (Ascii.eqb c "010"%char).

(** The sequence matches a prefix of [s]. *)
Fixpoint match_here (ignore_case : bool) (atoms : list atom) (s : string) : bool :=
  match atoms with
  | [] => true
  | Chr c :: rest =>
      match s with
      | String x s' =>
          (if ignore_case then Ascii.eqb (lower_ascii x) (lower_ascii c) else Ascii.eqb x c)
          && match_here ignore_case rest s'
      | EmptyString => false
      end
  | Spaces :: rest =>
      (fix skip (s : string) : bool :=
         match_here ignore_case rest s
         || match s with
            | String x s' => is_space x && skip s'
            | EmptyString => false
            end) s
  | Any :: rest =>
      (fix skip (s : string) : bool :=
         match_here ignore_case rest s
         || match s with
            | String x s' => is_dot x && skip s'
            | EmptyString => false
            end) s
  end.

Fixpoint search_alts (ignore_case : bool) (alts : list (list atom)) (s : string) : bool :=
  existsb (fun a => match_here ignore_case a s) alts
  || match s with
     | String _ s' => search_alts ignore_case alts s'
     | EmptyString => false
     end.

(** [re.search(pat, s)], and with [re.I]. *)
Definition search (pat s : string) : bool := search_alts false (compile pat) s.

Definition isearch (pat s : string) : bool := search_alts true (compile pat) s.

End Re.

(* ===================================================================== *)
(** ** Python exceptions *)
(* ===================================================================== *)

Module Py.

(** An exception instance: its class and its message. Only subclasses of
    [Exception] are modelled, the ones an [except Exception] catches. *)
Record exn := Exn { exn_class : string; exn_msg : string }.

Inductive result (A : Type) :=
| Ok (a : A)
| Err (e : exn).
Arguments Ok {A} a.
Arguments Err {A} e.

Definition bind {A B : Type} (r : result A) (k : A -> result B) : result B :=
  match r with
  | Ok a => k a
  | Err e => Err e
  end.

Definition is_ok {A : Type} (r : result A) : bool :=
  match r with Ok _ => true | Err _ => false end.

Definition ValueError := Exn "ValueError".
Definition RuntimeError := Exn "RuntimeError".
Definition FileNotFoundError := Exn "FileNotFoundError".
Definition AttributeError := Exn "AttributeError".
Definition OperationalError := Exn "sqlite3.OperationalError".
Definition IntegrityError := Exn "sqlite3.IntegrityError".

(** [str(e)], what [print(f"... {e}")] shows. *)
Definition str (e : exn) : string := exn_msg e.

(** *** Statements that read and write a state and may raise

    What was written before a [raise] stays written. *)

Definition M (S A : Type) : Type := S -> S * result A.

Definition ret {S A : Type} (a : A) : M S A := fun s => (s, Ok a).

Definition raise {S A : Type} (e : exn) : M S A := fun s => (s, Err e).

Definition mbind {S A B : Type} (m : M S A) (k : A -> M S B) : M S B :=
  fun s =>
    match m s with
    | (s', Ok a) => k a s'
    | (s', Err e) => (s', Err e)
    end.

(** A pure expression that may raise. *)
Definition lift {S A : Type} (r : result A) : M S A := fun s => (s, r).

(** [try: body  except Exception as e: handler(e)] *)
Definition try_except {S A : Type} (body : M S A) (handler : exn -> M S A) : M S A :=
  fun s =>
    match body s with
    | (s', Ok a) => (s', Ok a)
    | (s', Err e) => handler e s'
    end.

(** [for x in xs: body(x)] *)
Fixpoint for_each {S A : Type} (xs : list A) (body : A -> M S unit) : M S unit :=
  match xs with
  | [] => ret tt
  | x :: rest => mbind (body x) (fun _ => for_each rest body)
  end.

End Py.

(* ===================================================================== *)
(** ** score_jobs.py *)
(* ===================================================================== *)

Module Score.
Import Text.
#[local] Open Scope float_scope.

(** A bucket of [MY_SKILLS] is a list of skills or a dict from skill to
    years. *)
Inductive bucket_skills :=
| SkillList (skills : list string)
| SkillDict (years : list (string * Z)).

Definition MY_SKILLS : list (string * bucket_skills) :=
  [ ("languages", SkillList ["python"; "typescript"; "go"]);
    ("ml", SkillList ["nlp"; "transformers"; "langchain"; "retrieval"; "llmops"]);
    ("tools", SkillList ["postgres"; "docker"; "kubernetes"; "playwright"; "aws"; "gcp"]);
    ("years_exp", SkillDict [("python", 5%Z); ("typescript", 3%Z)]) ].

Definition BUCKET_WEIGHTS : list (string * float) :=
  [ ("languages", 1.0); ("ml", 1.2); ("tools", 0.9); ("years_exp", 1.1) ].

Definition FUZZY_THRESHOLD : float := 85.

(** [BUCKET_WEIGHTS.get(bucket, 1.0)] *)
Fixpoint dict_get (d : list (string * float)) (k : string) (dflt : float) : float :=
  match d with
  | [] => dflt
  | (k', v) :: rest => if String.eqb k' k then v else dict_get rest k dflt
  end.

Definition normalize_text (s : string) : string := lower s.

(** [round(x, 1)] of CPython: the exact binary value of [x] is rounded to
    one decimal, ties to even, and the decimal is converted back to the
    nearest double. A double with a non-negative exponent is an integer
    and is returned as it is; the conversion of the decimal numerator is
    exact below [2^53], far above the scores rounded here. *)
Definition py_round1 (x : float) : float :=
  match Prim2SF x with
  | S754_finite s m e =>
      if (0 <=? e)%Z then x else
      let n := (10 * Zpos m)%Z in
      let d := (2 ^ (- e))%Z in
      let q := (n / d)%Z in
      let r := (n mod d)%Z in
      let q' := if (2 * r <? d)%Z then q
                else if (d <? 2 * r)%Z then (q + 1)%Z
                else if Z.even q then q else (q + 1)%Z in
      let y := PrimFloat.of_uint63 (Uint63.of_Z q') / 10 in
      if s then - y else y
  | _ => x
  end.

Section WithFuzzyMatcher.

(** [rapidfuzz.fuzz.partial_ratio], a pure function of the library. *)
Variable partial_ratio : string -> string -> float.

Definition exact_or_fuzzy_hit (skill text : string) : bool :=
  if negb (nonempty skill) then false
  else if contains skill text then true
  else FUZZY_THRESHOLD <=? partial_ratio skill text.

(** The body shared by the two inner [for] loops: the accumulator is
    [(weighted_hits, weighted_total)]. *)
Fixpoint bucket_loop (weight : float) (text : string) (names : list string)
         (acc : float * float) : float * float :=
  match names with
  | [] => acc
  | skill_name :: rest =>
      let '(weighted_hits, weighted_total) := acc in
      let weighted_total := weighted_total + weight in
      let weighted_hits :=
        if exact_or_fuzzy_hit (lower skill_name) text
        then weighted_hits + weight else weighted_hits in
      bucket_loop weight text rest (weighted_hits, weighted_total)
  end.

Definition bucket_step (text : string) (acc : float * float)
           (entry : string * bucket_skills) : float * float :=
  let weight := dict_get BUCKET_WEIGHTS (fst entry) 1.0 in
  match snd entry with
  | SkillDict years => bucket_loop weight text (map fst years) acc
  | SkillList skills => bucket_loop weight text skills acc
  end.

Definition skill_score (text : string) : float :=
  let text := normalize_text text in
  let '(weighted_hits, weighted_total) :=
    fold_left (bucket_step text) MY_SKILLS (0, 0) in
  if weighted_total =? 0 then 0
  else py_round1 (100 * (weighted_hits / weighted_total)).

End WithFuzzyMatcher.

(** The interval [0, 100] on floats (false on NaN). *)
Definition in_0_100 (x : float) : bool := (0 <=? x) && (x <=? 100).

(** What the loops compute depends on the text only through the number of
    hits per bucket. *)
Definition add_times (n : nat) (w x : float) : float :=
  Nat.iter n (fun y => y + w) x.

Definition score_of_counts (c1 c2 c3 c4 : nat) : float :=
  let weighted_hits :=
    add_times c4 1.1 (add_times c3 0.9 (add_times c2 1.2 (add_times c1 1.0 0))) in
  let weighted_total :=
    add_times 2 1.1 (add_times 6 0.9 (add_times 5 1.2 (add_times 3 1.0 0))) in
  if weighted_total =? 0 then 0
  else py_round1 (100 * (weighted_hits / weighted_total)).

Definition all_counts : list (nat * nat * nat * nat) :=
  c1 ← seq 0 4; c2 ← seq 0 6; c3 ← seq 0 7; c4 ← seq 0 3; [(c1, c2, c3, c4)].

(** Number of skills of a bucket that hit the text. *)
Fixpoint count_hits (partial_ratio : string -> string -> float)
         (text : string) (names : list string) : nat :=
  match names with
  | [] => 0
  | skill_name :: rest =>
      (if exact_or_fuzzy_hit partial_ratio (lower skill_name) text then 1 else 0)
      + count_hits partial_ratio text rest
  end.

End Score.

(* ===================================================================== *)
(** ** The SQLite store: [jobs] and [applications] *)
(* ===================================================================== *)

Module Store.
Import Text Py.

(** A stored value. [REAL] values are binary64. *)
Inductive value :=
| VNull
| VText (s : string)
| VReal (x : spec_float).

#[export] Instance spec_float_eq_dec : EqDecision spec_float.
Proof. solve_decision. Defined.

#[export] Instance value_eq_dec : EqDecision value.
Proof. solve_decision. Defined.

(** A Python [Optional[str]] bound to a statement parameter. *)
Definition of_opt (o : option string) : value :=
  match o with Some s => VText s | None => VNull end.

(** One column of a [CREATE TABLE]. *)
Record column := Column {
  col_name : string;
  col_type : string;
  col_primary_key : bool;
  col_unique : bool;
  col_not_null : bool;
  col_default : value;
}.

Definition plain (name type : string) : column :=
  Column name type false false false VNull.

(** A row maps column names to values; a column the row has no entry for
    reads as NULL, which is how SQLite reads a row stored before an
    [ALTER TABLE ... ADD COLUMN]. *)
Abbreviation row := (gmap string value).

Record table := Table {
  tbl_columns : list column;
  tbl_rows : list row;
}.

Abbreviation database := (gmap string table).

Definition row_get (c : string) (r : row) : value := default VNull (r !! c).

(** *** The two definitions of [jobs], and [applications] *)

(** [fetch_jobs.ensure_schema] *)
Definition FETCH_JOBS_COLUMNS : list column :=
  [ Column "id" "TEXT" true false false VNull;
    plain "source" "TEXT";
    plain "company" "TEXT";
    plain "title" "TEXT";
    plain "location" "TEXT";
    plain "url" "TEXT";
    plain "posted_at" "TEXT";
    plain "raw_json" "TEXT" ].

(** [cli.SCHEMA], first statement *)
Definition CLI_JOBS_COLUMNS : list column :=
  [ Column "id" "TEXT" true false false VNull;
    Column "source" "TEXT" false false true VNull;
    plain "company" "TEXT";
    plain "title" "TEXT";
    plain "location" "TEXT";
    Column "url" "TEXT" false true false VNull;
    plain "posted_at" "TEXT";
    plain "raw_json" "TEXT";
    Column "score" "REAL" false false false (VReal (S754_zero false));
    Column "status" "TEXT" false false false (VText "new") ].

(** [cli.SCHEMA], second statement *)
Definition CLI_APPLICATIONS_COLUMNS : list column :=
  [ Column "job_id" "TEXT" true false false VNull;
    plain "applied_at" "TEXT";
    plain "resume_path" "TEXT";
    plain "cover_path" "TEXT";
    plain "notes" "TEXT" ].

(** [ALTER TABLE jobs ADD COLUMN score REAL] *)
Definition SCORE_COLUMN : column := plain "score" "REAL".

(** *** Statements *)

(** [CREATE TABLE [IF NOT EXISTS] name (...)] *)
Definition create_table (if_not_exists : bool) (name : string)
           (cols : list column) (db : database) : result database :=
  match db !! name with
  | Some _ =>
      if if_not_exists then Ok db
      else Err (OperationalError ("table " ++ name ++ " already exists"))
  | None => Ok (<[name := Table cols []]> db)
  end.

(** [PRAGMA table_info(name)], the names only ([row[1]]); no row when the
    table does not exist. *)
Definition table_info (name : string) (db : database) : list string :=
  match db !! name with
  | Some t => map col_name (tbl_columns t)
  | None => []
  end.

(** [ALTER TABLE name ADD COLUMN col]: SQLite compares column names without
    regard to case. Stored rows are not rewritten. *)
Definition alter_table_add_column (name : string) (col : column)
           (db : database) : result database :=
  match db !! name with
  | None => Err (OperationalError ("no such table: " ++ name))
  | Some t =>
      if existsb (fun c => String.eqb (lower (col_name c)) (lower (col_name col)))
                 (tbl_columns t)
      then Err (OperationalError ("duplicate column name: " ++ col_name col))
      else Ok (<[name := Table (tbl_columns t ++ [col]) (tbl_rows t)]> db)
  end.

(** [fetch_jobs.ensure_schema] *)
Definition ensure_schema (db : database) : result database :=
  create_table true "jobs" FETCH_JOBS_COLUMNS db.

(** [cli.ensure_db]: [executescript] runs the two statements in order. *)
Definition ensure_db (db : database) : result database :=
  bind (create_table true "jobs" CLI_JOBS_COLUMNS db)
       (create_table true "applications" CLI_APPLICATIONS_COLUMNS).

(** [score_jobs.ensure_score_column]: the membership test is Python's, on
    the exact string. *)
Definition ensure_score_column (db : database) : result database :=
  let cols := table_info "jobs" db in
  if bool_decide ("score" ∈ cols) then Ok db
  else alter_table_add_column "jobs" SCORE_COLUMN db.

(** *** The upsert of [fetch_jobs.py] *)

(** The dict built by [normalize_gh] / [normalize_lever]: the id is an
    f-string, the other entries may be [None]. *)
Record job_row := JobRow {
  id : string;
  source : option string;
  company : option string;
  title : option string;
  location : option string;
  url : option string;
  posted_at : option string;
  raw_json : option string;
}.

(** The columns set by [DO UPDATE SET ... = excluded. ...]. *)
Definition update_values (r : job_row) : list (string * value) :=
  [ ("source", of_opt (source r));
    ("company", of_opt (company r));
    ("title", of_opt (title r));
    ("location", of_opt (location r));
    ("url", of_opt (url r));
    ("posted_at", of_opt (posted_at r));
    ("raw_json", of_opt (raw_json r)) ].

(** The columns named by [INSERT INTO jobs (...)]. *)
Definition insert_values (r : job_row) : list (string * value) :=
  ("id", VText (id r)) :: update_values r.

Definition set_values (vals : list (string * value)) (r : row) : row :=
  fold_left (fun acc kv => <[fst kv := snd kv]> acc) vals r.

(** The row [old] after [DO UPDATE SET] with the values of [r]. *)
Definition updated (r : job_row) (old : row) : row :=
  set_values (update_values r) old.

(** A new row starts from the column defaults. *)
Definition default_row (t : table) : row :=
  set_values (map (fun c => (col_name c, col_default c)) (tbl_columns t)) ∅.

Definition has_column (t : table) (name : string) : bool :=
  existsb (fun c => String.eqb (col_name c) name) (tbl_columns t).

(** [name] is a PRIMARY KEY or UNIQUE column, a legal conflict target. *)
Definition is_key_column (t : table) (name : string) : bool :=
  existsb (fun c => String.eqb (col_name c) name && (col_primary_key c || col_unique c))
          (tbl_columns t).

Definition violates_not_null (t : table) (r : row) : bool :=
  existsb (fun c => col_not_null c && bool_decide (row_get (col_name c) r = VNull))
          (tbl_columns t).

(** A PRIMARY KEY or UNIQUE column of [r] repeats a non-NULL value of one of
    [others] (NULLs never collide). *)
Definition violates_unique (t : table) (others : list row) (r : row) : bool :=
  existsb (fun c =>
             (col_primary_key c || col_unique c)
             && negb (bool_decide (row_get (col_name c) r = VNull))
             && existsb (fun r' => bool_decide (row_get (col_name c) r' = row_get (col_name c) r))
                        others)
          (tbl_columns t).

(** [INSERT INTO jobs (...) VALUES (...) ON CONFLICT(id) DO UPDATE SET ...]:
    the conflict target is looked at first; a row with the incoming id is
    updated in place, otherwise a new row is appended. Any other
    constraint the resulting row breaks aborts the statement, and the table
    is as before. *)
Definition upsert (db : database) (r : job_row) : result database :=
  match db !! "jobs" with
  | None => Err (OperationalError "no such table: jobs")
  | Some t =>
      if negb (forallb (has_column t) (map fst (insert_values r)))
      then Err (OperationalError "table jobs has no such column")
      else if negb (is_key_column t "id")
      then Err (OperationalError
                  "ON CONFLICT clause does not match any PRIMARY KEY or UNIQUE constraint")
      else
        match list_find (fun old => row_get "id" old = VText (id r)) (tbl_rows t) with
        | Some (k, old) =>
            let new := updated r old in
            if violates_not_null t new
            then Err (IntegrityError "NOT NULL constraint failed")
            else if violates_unique t (delete k (tbl_rows t)) new
            then Err (IntegrityError "UNIQUE constraint failed")
            else Ok (<["jobs" := Table (tbl_columns t) (<[k := new]> (tbl_rows t))]> db)
        | None =>
            let new := set_values (insert_values r) (default_row t) in
            if violates_not_null t new
            then Err (IntegrityError "NOT NULL constraint failed")
            else if violates_unique t (tbl_rows t) new
            then Err (IntegrityError "UNIQUE constraint failed")
            else Ok (<["jobs" := Table (tbl_columns t) (tbl_rows t ++ [new])]> db)
        end
  end.

(** A sequence of upsert calls: a call that raises leaves the table as it
    was, and the next call sees that table. *)
Definition upsert_or_keep (db : database) (r : job_row) : database :=
  match upsert db r with
  | Ok db' => db'
  | Err _ => db
  end.

Definition upsert_all (rs : list job_row) (db : database) : database :=
  fold_left upsert_or_keep rs db.

(** *** Rows by key *)

Definition jobs_rows (db : database) : list row :=
  match db !! "jobs" with
  | Some t => tbl_rows t
  | None => []
  end.

(** The rows of [jobs] whose id is [i]. *)
Definition rows_with_id (i : string) (db : database) : list row :=
  filter (fun r => row_get "id" r = VText i) (jobs_rows db).

(** The rows of [jobs] whose url is the text [u]. *)
Definition rows_with_url (u : string) (db : database) : list row :=
  filter (fun r => row_get "url" r = VText u) (jobs_rows db).

(** The table has the columns of [fetch_jobs.ensure_schema], with or
    without the score column that [ensure_score_column] adds. *)
Definition fetch_shaped (t : table) : Prop :=
  tbl_columns t = FETCH_JOBS_COLUMNS
  \/ tbl_columns t = (FETCH_JOBS_COLUMNS ++ [SCORE_COLUMN])%list.

(** No column is NOT NULL and only [id] is a key. *)
Definition only_id_constrained (t : table) : bool :=
  forallb (fun c => negb (col_not_null c)
                    && (negb (col_primary_key c || col_unique c)
                        || String.eqb (col_name c) "id"))
          (tbl_columns t).

Definition id_unique (db : database) : Prop :=
  forall i, length (rows_with_id i db) <= 1.

Definition url_unique (db : database) : Prop :=
  forall u, length (rows_with_url u db) <= 1.

(** *** Sample data *)

Definition job_a : job_row :=
  JobRow "greenhouse:stripe:1" (Some "greenhouse") (Some "stripe")
         (Some "Backend Engineer") None (Some "https://boards.greenhouse.io/stripe/jobs/1")
         (Some "2024-05-01T00:00:00Z") (Some "{}").

Definition job_b : job_row :=
  JobRow "greenhouse:stripe:2" (Some "greenhouse") (Some "stripe")
         (Some "Data Engineer") None (Some "https://boards.greenhouse.io/stripe/jobs/2")
         (Some "2024-05-02T00:00:00Z") (Some "{}").

(** [job_b] again, now posted under the url of [job_a]. *)
Definition job_b_moved : job_row :=
  JobRow "greenhouse:stripe:2" (Some "greenhouse") (Some "stripe")
         (Some "Data Engineer") None (Some "https://boards.greenhouse.io/stripe/jobs/1")
         (Some "2024-05-03T00:00:00Z") (Some "{}").

Definition or_empty (r : result database) : database :=
  match r with Ok db => db | Err _ => ∅ end.

(** A fresh database after [python fetch_jobs.py] created the table. *)
Definition fetch_db : database := or_empty (ensure_schema ∅).

(** A fresh database after [python cli.py initdb]. *)
Definition cli_db : database := or_empty (ensure_db ∅).

End Store.

(* ===================================================================== *)
(** ** fetch_jobs.py *)
(* ===================================================================== *)

Module Fetch.
Import Text Py Store.

(** A decoded JSON document, as [r.json()] returns it. *)
Inductive json :=
| JNull
| JBool (b : bool)
| JNum (x : float)
| JStr (s : string)
| JList (items : list json)
| JDict (entries : list (string * json)).

Definition HTTPError := Exn "httpx.HTTPError".
Definition TypeError := Exn "TypeError".
Definition KeyError := Exn "KeyError".
Definition ProgrammingError := Exn "sqlite3.ProgrammingError".

(** What lies outside the repository: the HTTP client (a [get],
    [raise_for_status] and [json()] in one step), the date parsing of
    [to_iso_utc], [json.dumps] and [str] of a number or a container. *)
Record world := World {
  get_json : string -> result json;
  to_iso_utc : json -> result (option string);
  dumps : json -> string;
  repr : json -> string;
}.

(** The connection's database and the console. *)
Record state := State {
  st_db : database;
  st_out : list string;
}.

Abbreviation M := (Py.M state).

Definition print (line : string) : M unit :=
  fun s => (State (st_db s) (st_out s ++ [line]), Ok tt).

(** *** Python on JSON values *)

Definition truthy_json (j : json) : bool :=
  match j with
  | JNull => false
  | JBool b => b
  | JNum x => negb (PrimFloat.eqb x 0)
  | JStr s => nonempty s
  | JList l => match l with [] => false | _ => true end
  | JDict d => match d with [] => false | _ => true end
  end.

(** [a or b] *)
Definition or_else (a b : json) : json := if truthy_json a then a else b.

Fixpoint assoc (k : string) (d : list (string * json)) : option json :=
  match d with
  | [] => None
  | (k', v) :: rest => if String.eqb k' k then Some v else assoc k rest
  end.

(** [obj.get(key, dflt)]: only a dict has [get]. *)
Definition py_get (obj : json) (key : string) (dflt : json) : result json :=
  match obj with
  | JDict d => Ok (default dflt (assoc key d))
  | _ => Err (AttributeError "object has no attribute 'get'")
  end.

(** [obj[key]] with a string key. *)
Definition py_item (obj : json) (key : string) : result json :=
  match obj with
  | JDict d =>
      match assoc key d with
      | Some v => Ok v
      | None => Err (KeyError key)
      end
  | _ => Err (TypeError "indices must be integers or the object is not subscriptable")
  end.

(** [for j in obj]: a list yields its items, a dict its keys, a string its
    characters. *)
Definition py_iter (obj : json) : result (list json) :=
  match obj with
  | JList l => Ok l
  | JDict d => Ok (map (fun kv => JStr (fst kv)) d)
  | JStr s => Ok (map (fun c => JStr (String c EmptyString)) (list_ascii_of_string s))
  | _ => Err (TypeError "object is not iterable")
  end.

(** [str(obj)] inside an f-string. *)
Definition py_str (w : world) (obj : json) : string :=
  match obj with
  | JStr s => s
  | JNull => "None"
  | JBool true => "True"
  | JBool false => "False"
  | _ => repr w obj
  end.

(** A value bound to a statement parameter of a TEXT column: [None] is
    NULL, a number is stored in its text form, a list or dict cannot be
    bound. *)
Definition bind_param (w : world) (obj : json) : result (option string) :=
  match obj with
  | JNull => Ok None
  | JStr s => Ok (Some s)
  | JNum _ | JBool _ => Ok (Some (repr w obj))
  | _ => Err (ProgrammingError "Error binding parameter: type is not supported")
  end.

(** *** Helpers and normalizers *)

Definition gh_boards (org : string) : string :=
  "https://boards-api.greenhouse.io/v1/boards/" ++ org ++ "/jobs".

Definition lever_posting_urls (org : string) : list string :=
  [ "https://api.lever.co/v0/postings/" ++ org ++ "?mode=json";
    "https://api.eu.lever.co/v0/postings/" ++ org ++ "?mode=json" ].

(** A normalized job: the dict of [normalize_gh] / [normalize_lever]
    before its values are bound. *)
Record normalized := Normalized {
  n_id : string;
  n_source : string;
  n_company : string;
  n_title : json;
  n_location : json;
  n_url : json;
  n_posted_at : option string;
  n_raw_json : string;
}.

Definition normalize_gh (w : world) (job : json) (org : string) : result normalized :=
  bind (py_item job "id") (fun jid =>
  bind (py_get job "title" JNull) (fun title =>
  bind (py_get job "location" JNull) (fun loc =>
  bind (py_get (or_else loc (JDict [])) "name" JNull) (fun loc_name =>
  bind (py_get job "absolute_url" JNull) (fun url =>
  bind (py_get job "updated_at" JNull) (fun updated_at =>
  bind (py_get job "created_at" JNull) (fun created_at =>
  bind (to_iso_utc w (or_else updated_at created_at)) (fun posted =>
  Ok (Normalized ("greenhouse:" ++ org ++ ":" ++ py_str w jid)
                 "greenhouse" org title loc_name url posted (dumps w job)))))))))).

(** [", ".join(v for v in cats.values() if v)]: every truthy value has to be
    a string. *)
Fixpoint join_truthy (vals : list json) : result string :=
  match vals with
  | [] => Ok ""
  | v :: rest =>
      if truthy_json v then
        match v with
        | JStr s =>
            bind (join_truthy rest) (fun tail =>
            Ok (if nonempty tail then s ++ ", " ++ tail else s))
        | _ => Err (TypeError "sequence item: expected str instance")
        end
      else join_truthy rest
  end.

Definition normalize_lever (w : world) (job : json) (org : string) : result normalized :=
  bind (py_get job "categories" JNull) (fun cats0 =>
  let cats := or_else cats0 (JDict []) in
  bind (py_get cats "location" JNull) (fun loc0 =>
  bind (if truthy_json loc0 then Ok loc0
        else match cats with
             | JDict d =>
                 bind (join_truthy (map snd d)) (fun joined =>
                 Ok (or_else (JStr joined) JNull))
             | _ => Err (AttributeError "object has no attribute 'values'")
             end) (fun location =>
  bind (py_get job "createdAt" JNull) (fun created0 =>
  let created :=
    match created0 with
    | JNum x => if PrimFloat.ltb 10000000000 x then JNum (x / 1000) else created0
    | _ => created0
    end in
  bind (py_item job "id") (fun jid =>
  bind (py_get job "text" JNull) (fun title =>
  bind (py_get job "hostedUrl" JNull) (fun url =>
  bind (to_iso_utc w created) (fun posted =>
  Ok (Normalized ("lever:" ++ org ++ ":" ++ py_str w jid)
                 "lever" org title location url posted (dumps w job)))))))))).

(** [upsert(conn, row)]: the named parameters are bound, then the statement
    runs on the connection's database. *)
Definition upsert (w : world) (n : normalized) : M unit :=
  fun s =>
    match
      bind (bind_param w (n_title n)) (fun title =>
      bind (bind_param w (n_location n)) (fun location =>
      bind (bind_param w (n_url n)) (fun url =>
      Store.upsert (st_db s)
        (JobRow (n_id n) (Some (n_source n)) (Some (n_company n)) title location url
                (n_posted_at n) (Some (n_raw_json n))))))
    with
    | Ok db' => (State db' (st_out s), Ok tt)
    | Err e => (s, Err e)
    end.

(** *** Fetchers *)

(** The body of the [try] of [fetch_greenhouse]. *)
Definition greenhouse_body (w : world) (org : string) : M unit :=
  mbind (lift (get_json w (gh_boards org))) (fun data =>
  mbind (lift (py_get data "jobs" (JList []))) (fun jobs =>
  mbind (lift (py_iter jobs)) (fun items =>
  for_each items (fun j =>
    mbind (lift (normalize_gh w j org)) (upsert w))))).

Definition fetch_greenhouse (w : world) (org : string) : M unit :=
  try_except (greenhouse_body w org)
             (fun e => print ("[greenhouse] " ++ org ++ ": " ++ str e)).

(** The body of the [try] of [fetch_lever], up to its [return]. *)
Definition lever_body (w : world) (org url : string) : M unit :=
  mbind (lift (get_json w url)) (fun data0 =>
  let data := or_else data0 (JList []) in
  mbind (lift (py_iter data)) (fun items =>
  for_each items (fun j =>
    mbind (lift (normalize_lever w j org)) (upsert w)))).

(** The [for url in lever_posting_urls(org)] loop with its [last_err], and
    the statement after the loop. *)
Fixpoint lever_loop (w : world) (org : string) (urls : list string)
         (last_err : option exn) : M unit :=
  match urls with
  | [] =>
      match last_err with
      | Some e => print ("[lever] " ++ org ++ ": " ++ str e)
      | None => ret tt
      end
  | url :: rest =>
      fun s =>
        match lever_body w org url s with
        | (s', Ok _) => (s', Ok tt)
        | (s', Err e) => lever_loop w org rest (Some e) s'
        end
  end.

Definition fetch_lever (w : world) (org : string) : M unit :=
  lever_loop w org (lever_posting_urls org) None.

(** [fetch_and_store] between [sqlite3.connect] and [conn.commit()]: the
    schema and the two loops. The whole function, with what the connection
    does before and after, is [Board.fetch_and_store]. *)
Definition fetch_and_store (w : world) (orgs_gh orgs_lever : list string) : M unit :=
  mbind (fun s => match ensure_schema (st_db s) with
                  | Ok db' => (State db' (st_out s), Ok tt)
                  | Err e => (s, Err e)
                  end) (fun _ =>
  mbind (for_each orgs_gh (fetch_greenhouse w)) (fun _ =>
  for_each orgs_lever (fetch_lever w))).

(** *** Sample world: the US endpoint of Lever is down, the EU one
    answers with an empty list *)

Definition eu_only : world :=
  World (fun url => if String.prefix "https://api.eu.lever.co/" url
                    then Ok (JList [])
                    else Err (HTTPError "503 Service Unavailable"))
        (fun _ => Ok None) (fun _ => "{}") (fun _ => "0").

Definition start : state := State cli_db [].

End Fetch.

(* ===================================================================== *)
(** ** convert_and_export.py, with the lookups of writer.py and cli.py *)
(* ===================================================================== *)

Module Convert.
Import Text Py Paths Store.

(** *** wrap_line *)

(** The [while] loop of [wrap_line]; [chunks] is the list built so far.
    [None] when the fuel runs out before the loop ends. *)
Fixpoint wrap_loop (fuel : nat) (max_chars : nat) (line : string)
         (chunks : list string) : option (list string) :=
  match fuel with
  | O => None
  | S fuel' =>
      if (max_chars <? String.length line)%nat then
        let cut := match rfind_before " " max_chars line with
                   | Some i => i
                   | None => max_chars
                   end in
        wrap_loop fuel' max_chars (lstrip (drop cut line)) (chunks ++ [take cut line])%list
      else Some (chunks ++ [line])%list
  end.

Definition wrap_line (fuel : nat) (line : string) (max_chars : nat) : option (list string) :=
  wrap_loop fuel max_chars line [].

(** One iteration of the loop: the line that remains after a cut. *)
Definition remaining (max_chars : nat) (line : string) : string :=
  lstrip (drop (match rfind_before " " max_chars line with
                | Some i => i
                | None => max_chars
                end) line).

(** *** The file system and the renderers *)

(** Files by resolved path, with their content. *)
Abbreviation files := (gmap string string).

(** What lies outside the repository: path resolution, the optional
    [pdfkit] with [wkhtmltopdf], [markdown], and reportlab's [Canvas.save].
    A renderer may change the files in any way, and may raise. *)
Record world := World {
  resolve : string -> string;
  pdfkit_imported : bool;
  which : string -> option string;
  markdown : string -> string;
  pdfkit_from_string : string -> string -> files -> files * result unit;
  canvas_save : string -> list (list string) -> files -> files * result unit;
}.

(** [Path(p).exists()] for a path that the file system can examine: the
    [OSError] that [exists] passes on (a name that is too long, a
    directory that may not be searched) is left out. *)
Definition path_exists (w : world) (p : string) (fs : files) : bool :=
  bool_decide (is_Some (fs !! resolve w p)).

(** [Path(p).read_text(encoding="utf-8", errors="ignore")] *)
Definition read_text (w : world) (p : string) : M files string :=
  fun fs =>
    (fs, match fs !! resolve w p with
         | Some content => Ok content
         | None => Err (FileNotFoundError p)
         end).

(** [to_abs] *)
Definition to_abs (w : world) (p : string) : string := resolve w p.

(** [str.splitlines]: the line boundaries below 256. *)
Definition is_linebreak (c : ascii) : bool :=
  let n := nat_of_ascii c in
  (((10 <=? n) && (n <=? 13)) || ((28 <=? n) && (n <=? 30)) || (n =? 133))%nat.

Fixpoint splitlines_from (cur : string) (s : string) : list string :=
  match s with
  | EmptyString => if nonempty cur then [cur] else []
  | String c rest =>
      if is_linebreak c then
        cur :: match c, rest with
               | "013"%char, String "010"%char rest' => splitlines_from "" rest'
               | _, _ => splitlines_from "" rest
               end
      else splitlines_from (cur ++ String c "") rest
  end.

Definition splitlines (s : string) : list string := splitlines_from "" s.

(** The default call [wrap_line(raw_line)], with fuel for every
    iteration. *)
Definition wrap_line_default (raw_line : string) : list string :=
  default [] (wrap_line (S (String.length raw_line)) raw_line 95).

(** The drawing loop of [md_to_pdf_simple] on a LETTER page, in points:
    [top] is 720, a line takes 12, a new page starts below 72. The state
    is the finished pages, the lines of the current page, and [y]. *)
Definition draw_line (st : list (list string) * list string * Z) (line : string)
  : list (list string) * list string * Z :=
  let '(pages, page, y) := st in
  if (y <? 72)%Z then ((pages ++ [page])%list, [line], (720 - 12)%Z)
  else (pages, (page ++ [line])%list, (y - 12)%Z).

Definition layout (text : string) : list (list string) :=
  let '(pages, page, _) :=
    fold_left draw_line (concat (map wrap_line_default (splitlines text))) ([], [], 720%Z) in
  match page with
  | [] => pages
  | _ => (pages ++ [page])%list
  end.

Definition md_to_pdf_simple (w : world) (md_path pdf_path : string) : M files unit :=
  mbind (read_text w md_path) (fun text =>
  canvas_save w (to_abs w pdf_path) (layout text)).

Definition md_to_pdf_pretty (w : world) (md_path pdf_path : string) : M files bool :=
  if negb (pdfkit_imported w) then ret false
  else match which w "wkhtmltopdf" with
       | None => ret false
       | Some _ =>
           mbind (read_text w md_path) (fun text =>
           mbind (pdfkit_from_string w (markdown w text) (to_abs w pdf_path)) (fun _ =>
           ret true))
       end.

(** The middle of [ensure_pdf_from_md]: try pretty, else simple. *)
Definition render_pdf (w : world) (md_path pdf_path : string) : M files unit :=
  mbind (try_except (md_to_pdf_pretty w md_path pdf_path) (fun _ => ret false)) (fun ok =>
  if negb ok then md_to_pdf_simple w md_path pdf_path else ret tt).

Definition ensure_pdf_from_md (w : world) (md_path : string) : M files string :=
  fun fs =>
    if negb (path_exists w md_path fs) then (fs, Err (FileNotFoundError md_path))
    else match with_suffix md_path ".pdf" with
         | None => (fs, Err (ValueError (md_path ++ " has an empty name")))
         | Some pdf_path =>
             mbind (render_pdf w md_path pdf_path) (fun _ fs' =>
               if negb (path_exists w pdf_path fs')
               then (fs', Err (RuntimeError ("Failed to create PDF for " ++ md_path)))
               else (fs', Ok (to_abs w pdf_path))) fs
         end.

(** *** writer.get_job *)

(** [SELECT ... FROM table WHERE key_col = ?] followed by [fetchone()]. *)
Definition select_one (table key_col key : string) (db : database) : result (option row) :=
  match db !! table with
  | None => Err (OperationalError ("no such table: " ++ table))
  | Some t => Ok (head (filter (fun r => row_get key_col r = VText key) (tbl_rows t)))
  end.

Definition get_job (db : database) (job_id : string) : result row :=
  bind (select_one "jobs" "id" job_id db) (fun row =>
  match row with
  | Some r => Ok r
  | None => Err (ValueError ("Job not found: " ++ job_id))
  end).

(** *** cli._resolve_md_paths *)

(** [Path(v) if v else None] for a column value. *)
Definition as_path (v : value) : option string :=
  match v with
  | VText s => if nonempty s then Some s else None
  | _ => None
  end.

Definition _get_md_paths_from_db (job_id : string) (db : database)
  : result (option string * option string) :=
  bind (select_one "applications" "job_id" job_id db) (fun row =>
  match row with
  | None => Ok (None, None)
  | Some r => Ok (as_path (row_get "resume_path" r), as_path (row_get "cover_path" r))
  end).

(** [str(Path(dir) / name)]: the components of [dir] followed by those of
    [name], or those of [name] alone when it is absolute. *)
Definition path_join (dir name : string) : string :=
  if anchored name then render true (parts name)
  else render (anchored dir) (parts dir ++ parts name).

Definition _default_md_paths (job_id docs_dir : string) : string * string :=
  let base := replace_char ":" "_" job_id in
  (path_join docs_dir (base ++ "_resume.md"), path_join docs_dir (base ++ "_cover.md")).

(** [p and p.exists() and p.suffix.lower() == ".md"] *)
Definition usable_md (w : world) (fs : files) (p : option string) : bool :=
  match p with
  | Some p => path_exists w p fs && String.eqb (lower (suffix p)) ".md"
  | None => false
  end.

(** [p.exists()] on a value that may be [None]. *)
Definition checked_exists (w : world) (fs : files) (p : option string) : result bool :=
  match p with
  | Some p => Ok (path_exists w p fs)
  | None => Err (AttributeError "'NoneType' object has no attribute 'exists'")
  end.

Definition _resolve_md_paths (w : world) (fs : files) (db : database)
           (job_id docs_dir : string) : result (string * string) :=
  bind (_get_md_paths_from_db job_id db) (fun '(res_md0, cov_md0) =>
  let '(res_md, cov_md) :=
    if negb (usable_md w fs res_md0) then
      let '(res_md_default, cov_md_default) := _default_md_paths job_id docs_dir in
      (if usable_md w fs res_md0 then res_md0 else Some res_md_default,
       if usable_md w fs cov_md0 then cov_md0 else Some cov_md_default)
    else (res_md0, cov_md0) in
  bind (checked_exists w fs res_md) (fun res_ok =>
  if negb res_ok
  then Err (FileNotFoundError ("Resume MD not found: " ++ default "" res_md))
  else
    bind (checked_exists w fs cov_md) (fun cov_ok =>
    if negb cov_ok
    then Err (FileNotFoundError ("Cover MD not found: " ++ default "" cov_md))
    else Ok (default "" res_md, default "" cov_md)))).

(** *** Sample world: no [pdfkit], and the output directory cannot be
    written *)

Definition read_only : world :=
  World (fun p => p) false (fun _ => None) (fun text => text)
        (fun _ _ fs => (fs, Ok tt))
        (fun path _ fs => (fs, Err (Exn "PermissionError" path))).

Definition one_resume : files := {[ "docs/greenhouse_stripe_1_resume.md" := "# Resume" ]}.

End Convert.

(* ===================================================================== *)
(** ** apply_assist.py *)
(* ===================================================================== *)

Module Apply.
Import Text Py Paths Re.

Definition PROFILE : list (string * string) :=
  [ ("first", "Jordan");
    ("last", "Miller");
    ("email", "jordan.miller@example.com");
    ("phone", "+41 79 555 12 34");
    ("linkedin", "https://www.linkedin.com/in/jordanmiller123");
    ("website", "https://jordanmiller.dev");
    ("city", "Zurich, Switzerland");
    ("employer", "Acme Analytics AG");
    ("job_title", "Data Analyst");
    ("school", "University of Zurich");
    ("degree", "B.Sc. Computer Science") ].

Definition ALLOWED_UPLOAD_EXTS : list string := [".pdf"; ".doc"; ".docx"; ".rtf"].

Definition FILE_SELECTORS : list (string * list string) :=
  [ ("resume",
     [ "input[type='file'][name*='resume']";
       "input[type='file'][name*='cv']";
       "input#resume";
       "input#resume-upload-input";
       "input[name='application[resume]']";
       "[data-qa='resume-uploader'] input[type='file']" ]);
    ("cover",
     [ "input[type='file'][name*='cover']";
       "input[name='application[cover_letter]']";
       "input#cover";
       "[data-qa='coverLetter-uploader'] input[type='file']" ]) ].

Definition LABEL_PATTERNS : list (string * list string) :=
  [ ("first", ["first\s*name"]);
    ("last", ["last\s*name|surname"]);
    ("email", ["email"]);
    ("phone", ["phone|mobile"]);
    ("linkedin", ["linkedin"]);
    ("website", ["website|portfolio|personal\s*site"]);
    ("city", ["where.*based|current.*location|city|location"]);
    ("employer", ["current.*employer|previous.*employer|company"]);
    ("job_title", ["current.*job.*title|previous.*job.*title|job\s*title|title"]);
    ("school", ["most.*recent.*school|school|university|college"]);
    ("degree", ["most.*recent.*degree|degree|qualification"]) ].

Definition CSS_FALLBACKS : list (string * list string) :=
  [ ("first", ["input[name*='firstName']"; "input[name*='first_name']"]);
    ("last", ["input[name*='lastName']"; "input[name*='last_name']"]);
    ("email", ["input[type='email']"; "input[name*='email']"]);
    ("phone", ["input[type='tel']"; "input[name*='phone']"]);
    ("linkedin", ["input[name*='linkedin']"; "input[placeholder*='LinkedIn' i]"]);
    ("website", ["input[name*='website']"; "input[name*='portfolio']"]);
    ("city", ["input[name*='city']"; "input[name*='location']";
              "input[placeholder*='location' i]"]);
    ("employer", ["input[name*='employer']"; "input[name*='company']"]);
    ("job_title", ["input[name*='title']"]);
    ("school", ["input[name*='school']"; "input[name*='university']";
                "input[name*='college']"]);
    ("degree", ["input[name*='degree']"]) ].

Definition BUTTON_CUES : list string :=
  ["attach"; "upload"; "resume"; "choose file"; "browse"].

(** [d.get(k)] on a dict with string keys. *)
Fixpoint dict_get {A : Type} (d : list (string * A)) (k : string) : option A :=
  match d with
  | [] => None
  | (k', v) :: rest => if String.eqb k' k then Some v else dict_get rest k
  end.

(** *** Picking the files to upload *)

(** The operating system: which paths exist, the environment and the
    working directory. *)
Record os := OS {
  os_exists : string -> bool;
  os_getenv : string -> option string;
  os_getcwd : string;
}.

(** The inner [ok] of [_pick_valid_upload]. *)
Definition ok (o : os) (path : option string) : bool :=
  match path with
  | Some p =>
      nonempty p && os_exists o p
      && bool_decide (lower (suffix p) ∈ ALLOWED_UPLOAD_EXTS)
  | None => false
  end.

Definition os_abspath (o : os) (p : string) : string :=
  abspath (parts (os_getcwd o)) p.

Definition _pick_valid_upload (o : os) (db_path : option string) (env_name : string)
  : option string :=
  if ok o db_path then os_abspath o <$> db_path
  else
    let envp := os_getenv o env_name in
    if ok o envp then os_abspath o <$> envp
    else None.

(** A machine with one resume on disk, under a name in capitals, and an
    environment that names a text file. *)
Definition desk : os :=
  OS (fun p => bool_decide (p ∈ [ "docs/Resume.PDF"; "/home/jordan/apply/docs/Resume.PDF";
                                  "notes.txt"; "/home/jordan/apply/notes.txt" ]))
     (fun v => if String.eqb v "RESUME_FILE" then Some "notes.txt" else None)
     "/home/jordan/apply".

(** A machine where [link], in the working directory, is a symbolic link
    to the directory [/srv/files/current], and the resume is
    [/srv/files/cv.pdf]: the file system follows the link before it goes
    up, so [link/../cv.pdf] exists and [/home/jordan/apply/cv.pdf] does
    not. *)
Definition linked : os :=
  OS (fun p => bool_decide (p ∈ [ "link/../cv.pdf"; "/home/jordan/apply/link/../cv.pdf";
                                  "/srv/files/current/../cv.pdf"; "/srv/files/cv.pdf" ]))
     (fun _ => None)
     "/home/jordan/apply".

(** *** The browser *)

(** What is addressed on the page: the first match of a CSS selector, the
    first match of a label, role or text pattern, or the n-th element of a
    scanned list. *)
Inductive target :=
| BySelector (sel : string)
| ByPattern (pat : string)
| ByIndex (i : nat).

(** How an upload or a fill was reached in the source. *)
Inductive strategy :=
| Known        (** [_try_upload_known] *)
| Named        (** [pick("resume|cv")], [pick("cover")] *)
| Positional   (** [inputs[0]], [inputs[1]] *)
| ByLabel      (** [_try_fill_by_label] *)
| ByCss        (** [_try_fill_by_css] *)
| Opportunistic (** the last loop of [_fill_all_textish] *).

(** One entry of [_scan_file_inputs]. *)
Record file_input := FileInput {
  fi_idx : nat;
  fi_name : string;
  fi_id : string;
  fi_accept : string;
}.

(** The calls made on the page, in the order they were made, each with
    its outcome: a call that acts with whether it returned ([true]) or
    raised ([false]), a call that reads with what it returned ([None] when
    it raised). The scan and the count of the text inputs, which are not
    inside a [try], are recorded when they return. *)
Inductive event :=
| Count (sel : string) (n : option nat)
| Upload (how : strategy) (kind : string) (tgt : target) (path : string) (done : bool)
| Click (by_role : bool) (cue : string) (done : bool)
| Scan (inputs : list file_input)
| Fill (how : strategy) (tgt : target) (value : string) (done : bool)
| Texts (n : nat)
| Value (i : nat) (v : option string)
| Attributes (i : nat) (values : option (string * string * string)).

(** Playwright on a page or frame whose state has type [dom]: every call
    may raise, and a call that acts may change the page. *)
Record browser (dom : Type) := Browser {
  (** [scope.locator(sel).first.count()] *)
  locator_count : dom -> string -> result nat;
  (** [scope.locator(sel).first.set_input_files(path)] *)
  locator_set_input_files : dom -> string -> string -> dom * result unit;
  (** [scope.locator(sel).first.fill(value)] *)
  locator_fill : dom -> string -> string -> dom * result unit;
  (** [scope.get_by_label(re.compile(pat, re.I)).first.fill(value)] *)
  label_fill : dom -> string -> string -> dom * result unit;
  (** [scope.get_by_role("button", name=re.compile(cue, re.I)).first.click()] *)
  role_click : dom -> string -> dom * result unit;
  (** [scope.get_by_text(re.compile(cue, re.I)).first.click()] *)
  text_click : dom -> string -> dom * result unit;
  (** [scope.locator("input[type='file']")]: [count()], [nth(i).get_attribute(a)],
      [nth(i).set_input_files(path)] *)
  file_count : dom -> result nat;
  file_attribute : dom -> nat -> string -> result (option string);
  file_set_input_files : dom -> nat -> string -> dom * result unit;
  (** [scope.locator("input[type='text'], input:not([type])")]: [count()],
      [nth(i).input_value()], [nth(i).get_attribute(a)], [nth(i).fill(v)] *)
  text_count : dom -> result nat;
  text_value : dom -> nat -> result string;
  text_attribute : dom -> nat -> string -> result (option string);
  text_fill : dom -> nat -> string -> dom * result unit;
}.
Arguments locator_count {dom}.
Arguments locator_set_input_files {dom}.
Arguments locator_fill {dom}.
Arguments label_fill {dom}.
Arguments role_click {dom}.
Arguments text_click {dom}.
Arguments file_count {dom}.
Arguments file_attribute {dom}.
Arguments file_set_input_files {dom}.
Arguments text_count {dom}.
Arguments text_value {dom}.
Arguments text_attribute {dom}.
Arguments text_fill {dom}.

Section WithBrowser.

Context {dom : Type} (b : browser dom).

(** The page and the calls made so far. *)
Record session := Session {
  page : dom;
  calls : list event;
}.

(** A call that acts on the page, inside [try: ... except Exception]: the
    call is recorded, and the answer is whether it returned. *)
Definition acting (act : dom -> dom * result unit) (ev : bool -> event)
  : M session bool :=
  fun s =>
    let '(d, r) := act (page s) in
    (Session d (calls s ++ [ev (is_ok r)]), Ok (is_ok r)).

(** A call that reads from the page, inside [try: ... except Exception]:
    the answer is what it returned, [None] when it raised. *)
Definition reading {A : Type} (read : dom -> result A) (ev : option A -> event)
  : M session (option A) :=
  fun s =>
    let o := match read (page s) with Ok a => Some a | Err _ => None end in
    (Session (page s) (calls s ++ [ev o]), Ok o).

(** [(await loc.get_attribute(a)) or ""] *)
Definition attr_or_empty (r : result (option string)) : result string :=
  bind r (fun o => Ok (default "" o)).

(** [_scan_file_inputs]: nothing here is caught. *)
Fixpoint scan_from (d : dom) (i n : nat) : result (list file_input) :=
  match n with
  | O => Ok []
  | S n' =>
      bind (attr_or_empty (file_attribute b d i "name")) (fun name =>
      bind (attr_or_empty (file_attribute b d i "id")) (fun fid =>
      bind (attr_or_empty (file_attribute b d i "accept")) (fun accept =>
      bind (scan_from d (S i) n') (fun rest =>
      Ok (FileInput i name fid accept :: rest)))))
  end.

Definition _scan_file_inputs : M session (list file_input) :=
  fun s =>
    match bind (file_count b (page s)) (scan_from (page s) 0) with
    | Ok inputs => (Session (page s) (calls s ++ [Scan inputs]), Ok inputs)
    | Err e => (s, Err e)
    end.

(** The loop of [_try_upload_known] over the selectors of the kind: a
    selector whose [count()] raises or is 0 is passed over. *)
Fixpoint try_selectors (kind path : string) (sels : list string) : M session bool :=
  match sels with
  | [] => ret false
  | sel :: rest =>
      mbind (reading (fun d => locator_count b d sel) (Count sel)) (fun n =>
      if (0 <? default 0 n)%nat then
        mbind (acting (fun d => locator_set_input_files b d sel path)
                      (Upload Known kind (BySelector sel) path))
              (fun done => if done then ret true else try_selectors kind path rest)
      else try_selectors kind path rest)
  end.

Definition _try_upload_known (kind : string) (path : option string) : M session bool :=
  match path with
  | Some p =>
      if nonempty p
      then try_selectors kind p (default [] (dict_get FILE_SELECTORS kind))
      else ret false
  | None => ret false
  end.

Fixpoint click_cues (cues : list string) : M session unit :=
  match cues with
  | [] => ret tt
  | cue :: rest =>
      mbind (acting (fun d => role_click b d cue) (Click true cue)) (fun _ =>
      mbind (acting (fun d => text_click b d cue) (Click false cue)) (fun _ =>
      click_cues rest))
  end.

Definition _click_possible_attach_buttons : M session unit := click_cues BUTTON_CUES.

(** The inner [pick] of [_upload_best_effort]. *)
Definition pick (inputs : list file_input) (kind_regex : string) : option file_input :=
  List.find (fun info => isearch kind_regex (fi_name info) || isearch kind_regex (fi_id info))
            inputs.

(** One of the four blocks after the scan: when the file is still to be
    uploaded and there is a target, try it. *)
Definition upload_at (how : strategy) (kind : string) (path : option string)
           (uploaded : bool) (tgt : option nat) : M session bool :=
  match path, tgt with
  | Some p, Some i =>
      if nonempty p && negb uploaded
      then mbind (acting (fun d => file_set_input_files b d i p)
                         (Upload how kind (ByIndex i) p))
                 (fun done => ret (uploaded || done))
      else ret uploaded
  | _, _ => ret uploaded
  end.

Definition _upload_best_effort (resume_path cover_path : option string)
  : M session (bool * bool) :=
  mbind (_try_upload_known "resume" resume_path) (fun uploaded_resume =>
  mbind (_try_upload_known "cover" cover_path) (fun uploaded_cover =>
  mbind (if (truthy resume_path && negb uploaded_resume)
            || (truthy cover_path && negb uploaded_cover)
         then _click_possible_attach_buttons else ret tt) (fun _ =>
  mbind _scan_file_inputs (fun inputs =>
  mbind (upload_at Named "resume" resume_path uploaded_resume
                   (fi_idx <$> pick inputs "resume|cv")) (fun uploaded_resume =>
  mbind (upload_at Named "cover" cover_path uploaded_cover
                   (fi_idx <$> pick inputs "cover")) (fun uploaded_cover =>
  mbind (upload_at Positional "resume" resume_path uploaded_resume
                   (fi_idx <$> inputs !! 0%nat)) (fun uploaded_resume =>
  mbind (upload_at Positional "cover" cover_path uploaded_cover
                   (if (2 <=? length inputs)%nat then fi_idx <$> inputs !! 1%nat else None))
        (fun uploaded_cover =>
  ret (uploaded_resume, uploaded_cover))))))))).

(** *** Text fields *)

Fixpoint _try_fill_by_label (patterns : list string) (value : string) : M session bool :=
  match patterns with
  | [] => ret false
  | pat :: rest =>
      mbind (acting (fun d => label_fill b d pat value)
                    (Fill ByLabel (ByPattern pat) value))
            (fun done => if done then ret true else _try_fill_by_label rest value)
  end.

Fixpoint _try_fill_by_css (selectors : list string) (value : string) : M session bool :=
  match selectors with
  | [] => ret false
  | sel :: rest =>
      mbind (reading (fun d => locator_count b d sel) (Count sel)) (fun n =>
      if (0 <? default 0 n)%nat then
        mbind (acting (fun d => locator_fill b d sel value)
                      (Fill ByCss (BySelector sel) value))
              (fun done => if done then ret true else _try_fill_by_css rest value)
      else _try_fill_by_css rest value)
  end.

Definition _fill_field (key value : string) : M session bool :=
  if negb (nonempty value) then ret false
  else
    mbind (_try_fill_by_label (default [] (dict_get LABEL_PATTERNS key)) value) (fun done =>
    if done then ret true
    else match dict_get CSS_FALLBACKS key with
         | Some selectors => _try_fill_by_css selectors value
         | None => ret false
         end).

(** The keys of the two loops of [_fill_all_textish]. *)
Definition BASICS : list string :=
  ["first"; "last"; "email"; "phone"; "linkedin"; "website"].

Definition EXTRAS : list string :=
  ["city"; "employer"; "job_title"; "school"; "degree"].

(** The [cues] dict, by pattern and profile key. *)
Definition CUE_KEYS : list (string * string) :=
  [ ("city|location", "city");
    ("employer|company", "employer");
    ("job\s*title|title", "job_title");
    ("school|university|college", "school");
    ("degree|qualification", "degree");
    ("linkedin", "linkedin");
    ("website|portfolio", "website") ].

(** [profile[key]] for every cue: a missing key raises. *)
Fixpoint build_cues (profile : list (string * string)) (keys : list (string * string))
  : result (list (string * string)) :=
  match keys with
  | [] => Ok []
  | (pat, key) :: rest =>
      match dict_get profile key with
      | Some v => bind (build_cues profile rest) (fun cues => Ok ((pat, v) :: cues))
      | None => Err (Exn "KeyError" key)
      end
  end.

(** The placeholder, the name and the aria-label of one input, each
    [(await el.get_attribute(...)) or ""]. *)
Definition attributes_of (d : dom) (i : nat) : result (string * string * string) :=
  bind (attr_or_empty (text_attribute b d i "placeholder")) (fun placeholder =>
  bind (attr_or_empty (text_attribute b d i "name")) (fun name =>
  bind (attr_or_empty (text_attribute b d i "aria-label")) (fun aria =>
  Ok (placeholder, name, aria)))).

(** The [blob] of one input: [" ".join([...]).lower()]. *)
Definition blob_of (values : string * string * string) : string :=
  let '(placeholder, name, aria) := values in
  lower (join " " [placeholder; name; aria]).

(** The first cue with a value whose pattern is found in the blob. *)
Definition first_cue (cues : list (string * string)) (blob : string)
  : option (string * string) :=
  List.find (fun cue => nonempty (snd cue) && search (fst cue) blob) cues.

(** The body of the last loop, with its [try ... except Exception: pass]. *)
Definition fill_if_empty (cues : list (string * string)) (i : nat) : M session unit :=
  mbind (reading (fun d => text_value b d i) (Value i)) (fun v =>
  match v with
  | Some v =>
      if nonempty v then ret tt
      else
        mbind (reading (fun d => attributes_of d i) (Attributes i)) (fun values =>
        match values with
        | Some values =>
            match first_cue cues (blob_of values) with
            | Some cue =>
                mbind (acting (fun d => text_fill b d i (snd cue))
                              (Fill Opportunistic (ByIndex i) (snd cue)))
                      (fun _ => ret tt)
            | None => ret tt
            end
        | None => ret tt
        end)
  | None => ret tt
  end).

Definition fill_key (profile : list (string * string)) (k : string) : M session unit :=
  mbind (_fill_field k (default "" (dict_get profile k))) (fun _ => ret tt).

(** [await inputs.count()], which is not inside the [try]. *)
Definition count_texts : M session nat :=
  fun s =>
    match text_count b (page s) with
    | Ok n => (Session (page s) (calls s ++ [Texts n]), Ok n)
    | Err e => (s, Err e)
    end.

Definition _fill_all_textish (profile : list (string * string)) : M session unit :=
  mbind (for_each BASICS (fill_key profile)) (fun _ =>
  mbind (for_each EXTRAS (fill_key profile)) (fun _ =>
  mbind (lift (build_cues profile CUE_KEYS)) (fun cues =>
  mbind count_texts (fun n =>
  for_each (seq 0 n) (fill_if_empty cues))))).

End WithBrowser.

Arguments session : clear implicits.
Arguments Session {dom}.
Arguments page {dom}.
Arguments calls {dom}.

(** *** The calls of each step of the cascades

    What the record of calls of a step looks like, whatever the page
    answers. *)

(** [found] is the first element of [l] that passes [test]; it is [None]
    when no element passes. *)
Definition first_such {A : Type} (test : A -> bool) (l : list A) (found : option A) : Prop :=
  match found with
  | Some x =>
      exists before after,
        l = (before ++ x :: after)%list
        /\ Forall (fun y => test y = false) before /\ test x = true
  | None => Forall (fun y => test y = false) l
  end.

(** A loop over selectors: each selector is counted, in the order of the
    list; where the count is positive the call [act] is made on it; the
    loop ends after the first call that returned, or with the list. The
    flag tells whether a call returned. *)
Inductive selector_calls (act : string -> bool -> event)
  : list string -> list event -> bool -> Prop :=
| selectors_end : selector_calls act [] [] false
| selector_absent sel n rest seg flag :
    n = None \/ n = Some 0 ->
    selector_calls act rest seg flag ->
    selector_calls act (sel :: rest) (Count sel n :: seg) flag
| selector_failed sel n rest seg flag :
    0 < n ->
    selector_calls act rest seg flag ->
    selector_calls act (sel :: rest) (Count sel (Some n) :: act sel false :: seg) flag
| selector_done sel n rest :
    0 < n ->
    selector_calls act (sel :: rest) [Count sel (Some n); act sel true] true.

(** [_try_upload_known]: without a path nothing is tried. *)
Definition known_calls (kind : string) (path : option string) (seg : list event)
           (flag : bool) : Prop :=
  match path with
  | Some p =>
      if nonempty p
      then exists sels,
             dict_get FILE_SELECTORS kind = Some sels
             /\ selector_calls (fun sel done => Upload Known kind (BySelector sel) p done)
                               sels seg flag
      else seg = [] /\ flag = false
  | None => seg = [] /\ flag = false
  end.

(** The list of a scan made on the page [d]: one entry for each file
    input that is counted, in order, each with its place and with its
    name, id and accept attributes, an absent attribute being empty. *)
Definition scan_of {dom : Type} (b : browser dom) (d : dom) (inputs : list file_input)
  : Prop :=
  file_count b d = Ok (length inputs)
  /\ forall k info,
       inputs !! k = Some info ->
       fi_idx info = k
       /\ (exists o, file_attribute b d k "name" = Ok o /\ fi_name info = default "" o)
       /\ (exists o, file_attribute b d k "id" = Ok o /\ fi_id info = default "" o)
       /\ (exists o, file_attribute b d k "accept" = Ok o /\ fi_accept info = default "" o).

(** The clicks of [_click_possible_attach_buttons]: for each cue the button
    and then the text, whatever the clicks before did. *)
Definition ALL_CLICKS : list (bool * string) :=
  flat_map (fun cue => [(true, cue); (false, cue)]) BUTTON_CUES.

Definition click_calls (wanted : bool) (seg : list event) : Prop :=
  if wanted
  then Forall2 (fun e c => exists done, e = Click (fst c) (snd c) done) seg ALL_CLICKS
  else seg = [].

(** One block after the scan, for the file of [kind]: with a path, not yet
    uploaded, and an input to aim at, one upload to that input; else
    no call. The flag [after] tells whether the file is uploaded then. *)
Definition upload_step (how : strategy) (kind : string) (path : option string)
           (before : bool) (tgt : option nat) (seg : list event) (after : bool) : Prop :=
  match path, tgt with
  | Some p, Some i =>
      if nonempty p && negb before
      then exists done, seg = [Upload how kind (ByIndex i) p done] /\ after = done
      else seg = [] /\ after = before
  | _, _ => seg = [] /\ after = before
  end.

(** [_try_fill_by_label]: the patterns in order, up to the first fill
    that returned. *)
Inductive label_calls (value : string) : list string -> list event -> bool -> Prop :=
| labels_end : label_calls value [] [] false
| label_failed pat rest seg flag :
    label_calls value rest seg flag ->
    label_calls value (pat :: rest) (Fill ByLabel (ByPattern pat) value false :: seg) flag
| label_done pat rest :
    label_calls value (pat :: rest) [Fill ByLabel (ByPattern pat) value true] true.

(** [_fill_field]: no call without a value; the labels of the key, and
    when none took the value, the CSS selectors of the key. *)
Definition field_calls (key value : string) (seg : list event) (done : bool) : Prop :=
  if nonempty value then
    exists (labels css : list event) (by_label : bool),
      seg = (labels ++ css)%list
      /\ label_calls value (default [] (dict_get LABEL_PATTERNS key)) labels by_label
      /\ if by_label then css = [] /\ done = true
         else match dict_get CSS_FALLBACKS key with
              | Some sels =>
                  selector_calls (fun sel d => Fill ByCss (BySelector sel) value d)
                                 sels css done
              | None => css = [] /\ done = false
              end
  else seg = [] /\ done = false.

(** One input in the last loop of [_fill_all_textish]: its value is read;
    when that is empty its placeholder, name and aria-label are read, and
    the value of the first cue that has a value and whose pattern is found
    in the three, joined by spaces and in lower case, is filled in. *)
Inductive input_calls (cues : list (string * string)) (i : nat) : list event -> Prop :=
| input_unread :
    input_calls cues i [Value i None]
| input_taken v :
    nonempty v = true ->
    input_calls cues i [Value i (Some v)]
| input_hidden :
    input_calls cues i [Value i (Some ""); Attributes i None]
| input_no_cue placeholder name aria :
    first_such (fun cue => nonempty (snd cue)
                           && search (fst cue) (lower (join " " [placeholder; name; aria])))
               cues None ->
    input_calls cues i [Value i (Some ""); Attributes i (Some (placeholder, name, aria))]
| input_filled placeholder name aria cue done :
    first_such (fun cue => nonempty (snd cue)
                           && search (fst cue) (lower (join " " [placeholder; name; aria])))
               cues (Some cue) ->
    input_calls cues i [Value i (Some ""); Attributes i (Some (placeholder, name, aria));
                        Fill Opportunistic (ByIndex i) (snd cue) done].

(** *** The record and the page

    Every call is made on the page as the calls before it have left it,
    and its outcome in the record is the one Playwright gave there. *)

(** What a call that reads leaves in the record. *)
Definition heard {A : Type} (r : result A) : option A :=
  match r with
  | Ok a => Some a
  | Err _ => None
  end.

(** A call that acts gave the page [d1], and [done] tells whether it
    returned. *)
Definition acted {dom : Type} (x : dom * result unit) (done : bool) (d1 : dom) : Prop :=
  fst x = d1 /\ is_ok (snd x) = done.

(** The placeholder, name and aria-label read from text input [i], an
    absent attribute being empty; nothing when one of the reads raised. *)
Definition attributes_read {dom : Type} (b : browser dom) (d : dom) (i : nat)
           (values : option (string * string * string)) : Prop :=
  match values with
  | Some (placeholder, name, aria) =>
      (exists o, text_attribute b d i "placeholder" = Ok o /\ placeholder = default "" o)
      /\ (exists o, text_attribute b d i "name" = Ok o /\ name = default "" o)
      /\ (exists o, text_attribute b d i "aria-label" = Ok o /\ aria = default "" o)
  | None =>
      exists a e,
        a ∈ ["placeholder"; "name"; "aria-label"] /\ text_attribute b d i a = Err e
  end.

(** The call [e], made on the page [d], has the outcome that is recorded
    in it and leaves the page [d1]. *)
Definition call_on {dom : Type} (b : browser dom) (d : dom) (e : event) (d1 : dom) : Prop :=
  match e with
  | Count sel n => d1 = d /\ n = heard (locator_count b d sel)
  | Upload _ _ (BySelector sel) path done =>
      acted (locator_set_input_files b d sel path) done d1
  | Upload _ _ (ByIndex i) path done =>
      acted (file_set_input_files b d i path) done d1
  | Upload _ _ (ByPattern _) _ _ => False
  | Click by_role cue done =>
      acted (if by_role then role_click b d cue else text_click b d cue) done d1
  | Scan inputs => d1 = d /\ scan_of b d inputs
  | Fill _ (ByPattern pat) value done => acted (label_fill b d pat value) done d1
  | Fill _ (BySelector sel) value done => acted (locator_fill b d sel value) done d1
  | Fill _ (ByIndex i) value done => acted (text_fill b d i value) done d1
  | Texts n => d1 = d /\ text_count b d = Ok n
  | Value i v => d1 = d /\ v = heard (text_value b d i)
  | Attributes i values => d1 = d /\ attributes_read b d i values
  end.

(** The calls of [l], made one after the other from the page [d], have
    the outcomes recorded in them and leave the page [d']. *)
Inductive agrees {dom : Type} (b : browser dom) : dom -> list event -> dom -> Prop :=
| agrees_nil d : agrees b d [] d
| agrees_cons d e d1 l d' :
    call_on b d e d1 -> agrees b d1 l d' -> agrees b d (e :: l) d'.

(** The scan made on the page [d] raises [e]: the file inputs cannot be
    counted, or an attribute of a counted input cannot be read. *)
Definition scan_raises {dom : Type} (b : browser dom) (d : dom) (e : exn) : Prop :=
  file_count b d = Err e
  \/ exists n k a,
       file_count b d = Ok n /\ k < n
       /\ a ∈ ["name"; "id"; "accept"] /\ file_attribute b d k a = Err e.

(** *** Reading the record of calls *)

(** [e] is an attempt to upload the file of [kind]. *)
Definition upload_of (kind : string) (e : event) : bool :=
  match e with
  | Upload _ k _ _ _ => String.eqb k kind
  | _ => false
  end.

Definition is_fill (e : event) : bool :=
  match e with Fill _ _ _ _ => true | _ => false end.

(** A call that acted on the page and returned, or the scan. *)
Definition succeeded (e : event) : bool :=
  match e with
  | Upload _ _ _ _ done => done
  | Click _ _ done => done
  | Scan _ => true
  | Fill _ _ _ done => done
  | _ => false
  end.

(** After an attempt selected by [sel] has succeeded, no further attempt
    selected by [sel] is made. *)
Fixpoint stops_after_success (sel : event -> bool) (l : list event) : bool :=
  match l with
  | [] => true
  | e :: rest =>
      (if sel e && succeeded e then negb (existsb sel rest) else true)
      && stops_after_success sel rest
  end.

(** *** A scripted page

    A form given by its inputs in document order, and by the first input
    that each CSS selector of the scripts selects on it. There is no button
    to click. *)

Record field := Field {
  f_type : string;
  f_label : string;
  f_name : string;
  f_id : string;
  f_placeholder : string;
  f_value : string;
  f_files : list string;
}.

Record form := Form {
  fields : list field;
  css : list (string * nat);
}.

Definition TimeoutError := Exn "playwright.TimeoutError".

Definition set_value (v : string) (f : field) : field :=
  Field (f_type f) (f_label f) (f_name f) (f_id f) (f_placeholder f) v (f_files f).

Definition set_files (path : string) (f : field) : field :=
  Field (f_type f) (f_label f) (f_name f) (f_id f) (f_placeholder f) (f_value f) [path].

Definition change (i : nat) (g : field -> field) (p : form) : form :=
  Form (alter g i (fields p)) (css p).

Definition is_file (f : field) : bool := String.eqb (f_type f) "file".

Definition is_text (f : field) : bool :=
  String.eqb (f_type f) "text" || String.eqb (f_type f) "".

(** The positions in [fields] of the inputs selected by [sel]. *)
Definition positions (sel : field -> bool) (p : form) : list nat :=
  List.filter (fun i => match fields p !! i with Some f => sel f | None => false end)
              (seq 0 (length (fields p))).

Definition on_nth (sel : field -> bool) (p : form) (i : nat) (g : field -> field)
  : form * result unit :=
  match positions sel p !! i with
  | Some k => (change k g p, Ok tt)
  | None => (p, Err (TimeoutError "no such element"))
  end.

Definition attribute (f : field) (a : string) : option string :=
  let v := if String.eqb a "name" then f_name f
           else if String.eqb a "id" then f_id f
           else if String.eqb a "placeholder" then f_placeholder f
           else "" in
  if nonempty v then Some v else None.

Definition nth_attribute (sel : field -> bool) (p : form) (i : nat) (a : string)
  : result (option string) :=
  match positions sel p !! i with
  | Some k => Ok (attribute (default (Field "" "" "" "" "" "" []) (fields p !! k)) a)
  | None => Err (TimeoutError "no such element")
  end.

Definition on_css (p : form) (sel : string) (g : field -> field) : form * result unit :=
  match dict_get (css p) sel with
  | Some k => (change k g p, Ok tt)
  | None => (p, Err (TimeoutError sel))
  end.

Definition on_label (p : form) (pat : string) (g : field -> field) : form * result unit :=
  match list_find (fun f => isearch pat (f_label f) = true) (fields p) with
  | Some (k, _) => (change k g p, Ok tt)
  | None => (p, Err (TimeoutError pat))
  end.

Definition scripted : browser form :=
  Browser form
    (fun p sel => Ok (match dict_get (css p) sel with Some _ => 1 | None => 0 end))
    (fun p sel path => on_css p sel (set_files path))
    (fun p sel v => on_css p sel (set_value v))
    (fun p pat v => on_label p pat (set_value v))
    (fun p cue => (p, Err (TimeoutError cue)))
    (fun p cue => (p, Err (TimeoutError cue)))
    (fun p => Ok (length (positions is_file p)))
    (nth_attribute is_file)
    (fun p i path => on_nth is_file p i (set_files path))
    (fun p => Ok (length (positions is_text p)))
    (fun p i => match positions is_text p !! i with
                | Some k => Ok (default "" (f_value <$> fields p !! k))
                | None => Err (TimeoutError "no such element")
                end)
    (nth_attribute is_text)
    (fun p i v => on_nth is_text p i (set_value v)).

(** A form with a labelled city input and an unlabelled input for a
    preferred location. Of the selectors of the scripts only
    [input[placeholder*='location' i]] selects anything here. *)
Definition two_locations : form :=
  Form [ Field "text" "City" "q1" "" "" "" [];
         Field "text" "" "q2" "" "Preferred location" "" [] ]
       [ ("input[placeholder*='location' i]", 1) ].

(** A form with one file input for the resume and a generic one. *)
Definition two_uploads : form :=
  Form [ Field "file" "Resume" "resume_file" "" "" "" [];
         Field "file" "Other documents" "attachment" "" "" "" [] ]
       [ ("input[type='file'][name*='resume']", 0) ].

(** A form on which a known selector finds the input of the resume and
    another one the input of the cover letter. *)
Definition both_known : form :=
  Form [ Field "file" "Resume" "resume" "" "" "" [];
         Field "file" "Cover letter" "cover_letter" "" "" "" [] ]
       [ ("input[type='file'][name*='resume']", 0);
         ("input[type='file'][name*='cover']", 1) ].

(** The scripted page when the file inputs cannot be counted. *)
Definition no_scan : browser form :=
  Browser form
    (locator_count scripted) (locator_set_input_files scripted) (locator_fill scripted)
    (label_fill scripted) (role_click scripted) (text_click scripted)
    (fun _ => Err (TimeoutError "input[type='file']"))
    (file_attribute scripted) (file_set_input_files scripted)
    (text_count scripted) (text_value scripted) (text_attribute scripted)
    (text_fill scripted).

End Apply.

(* ===================================================================== *)
(** ** apply_assist.py: where to look for the application form *)
(* ===================================================================== *)

Module Nav.
Import Text Py.

(** [s.split(sep, maxsplit)] for a one-character separator. *)
Fixpoint split_max (sep : ascii) (maxsplit : nat) (s : string) {struct s} : list string :=
  match s with
  | EmptyString => [EmptyString]
  | String c rest =>
      match maxsplit with
      | O => [s]
      | S m =>
          if Ascii.eqb c sep then EmptyString :: split_max sep m rest
          else match split_max sep maxsplit rest with
               | first :: others => String c first :: others
               | [] => [String c EmptyString]
               end
      end
  end.

(** [_, org, token = parts]: [None] stands for the [ValueError] of an
    unpacking that does not find exactly three values. *)
Definition unpack3 (parts : list string) : option (string * string * string) :=
  match parts with
  | [a; b; c] => Some (a, b, c)
  | _ => None
  end.

Definition embed_url (org token : string) : string :=
  "https://boards.greenhouse.io/embed/job_app?for=" ++ org ++ "&token=" ++ token.

Definition board_url (org token : string) : string :=
  "https://boards.greenhouse.io/" ++ org ++ "/jobs/" ++ token.

(** The [if job_id.startswith("greenhouse:")] block, with its
    [except ValueError: pass]. *)
Definition greenhouse_urls (job_id : string) : list string :=
  if String.prefix "greenhouse:" job_id then
    match unpack3 (split_max ":" 2 job_id) with
    | Some (_, org, token) => [embed_url org token; board_url org token]
    | None => []
    end
  else [].

(** The body of the last loop: [seen] and [out]. *)
Definition keep_new (st : gset string * list string) (u : option string)
  : gset string * list string :=
  match u with
  | Some s =>
      if nonempty s && negb (bool_decide (s ∈ fst st))
      then ({[ s ]} ∪ fst st, (snd st ++ [s])%list)
      else st
  | None => st
  end.

(** [url_from_db] is the [url] column of the job, [None] when it is
    NULL. *)
Definition _candidate_apply_urls (job_id : string) (url_from_db : option string)
  : list string :=
  let urls := ((Some <$> greenhouse_urls job_id) ++ [url_from_db])%list in
  snd (fold_left keep_new urls (∅, [])).

(** A Greenhouse job as the board returns it, and what [normalize_gh]
    makes of it where dates are left out. *)
Definition sample_job : Fetch.json :=
  Fetch.JDict [("id", Fetch.JStr "4012"); ("title", Fetch.JStr "Data Engineer")].

Definition sample_normalized : Fetch.normalized :=
  Fetch.Normalized "greenhouse:stripe:4012" "greenhouse" "stripe"
                   (Fetch.JStr "Data Engineer") Fetch.JNull Fetch.JNull None "{}".

End Nav.

(* ===================================================================== *)
(** ** strip_html, of score_jobs.py and writer.py *)
(* ===================================================================== *)

Module Html.
Import Text.

(** The index of the first [c] in [s]. *)
Fixpoint find_char (c : ascii) (s : string) : option nat :=
  match s with
  | EmptyString => None
  | String x rest => if Ascii.eqb x c then Some 0 else S <$> find_char c rest
  end.

(** [TAG_RE.sub(" ", s)] for [TAG_RE = <[^>]+>]. A match starts at a [<]
    that is followed by a character other than [>] and, somewhere later,
    by a [>]; it runs to the first such [>]. The scan goes on after the
    match: [skip] counts the characters of the match still to pass. *)
Fixpoint sub_tags (skip : nat) (s : string) : string :=
  match s with
  | EmptyString => EmptyString
  | String c rest =>
      match skip with
      | S n => sub_tags n rest
      | O =>
          if Ascii.eqb c "<" then
            match find_char ">" rest with
            | Some (S k) => String " " (sub_tags (S (S k)) rest)
            | _ => String c (sub_tags 0 rest)
            end
          else String c (sub_tags 0 rest)
      end
  end.

(** [WS_RE.sub(" ", s)] for [WS_RE = \s+]: every maximal run of white
    space becomes one space. [in_run] tells that the character before was
    white space. *)
Fixpoint sub_ws (in_run : bool) (s : string) : string :=
  match s with
  | EmptyString => EmptyString
  | String c rest =>
      if is_space c then
        if in_run then sub_ws true rest else String " " (sub_ws true rest)
      else String c (sub_ws false rest)
  end.

(** [s.rstrip()] and [s.strip()] *)
Fixpoint rstrip (s : string) : string :=
  match s with
  | EmptyString => EmptyString
  | String c rest =>
      match rstrip rest with
      | EmptyString => if is_space c then EmptyString else String c EmptyString
      | kept => String c kept
      end
  end.

Definition strip (s : string) : string := rstrip (lstrip s).

Definition strip_html (s : string) : string :=
  if negb (nonempty s) then ""
  else
    let s := sub_tags 0 s in
    let s := sub_ws false s in
    strip s.

(** *** Reading a text *)

(** [s] holds a tag at its start: a [<], then a character that is not
    [>], then a [>] somewhere. *)
Definition tag_here (s : string) : bool :=
  match s with
  | String c rest =>
      Ascii.eqb c "<"
      && match find_char ">" rest with Some (S _) => true | _ => false end
  | EmptyString => false
  end.

(** [TAG_RE.search(s)] finds something. *)
Fixpoint has_tag (s : string) : bool :=
  tag_here s
  || match s with
     | String _ rest => has_tag rest
     | EmptyString => false
     end.

(** Every white-space character of [s] is a plain space with a character
    that is not white space right after it. *)
Fixpoint single_spaced (s : string) : bool :=
  match s with
  | EmptyString => true
  | String c rest =>
      (if is_space c
       then Ascii.eqb c " "
            && match rest with
               | String d _ => negb (is_space d)
               | EmptyString => false
               end
       else true)
      && single_spaced rest
  end.

(** [s] does not start with white space. *)
Definition starts_black (s : string) : bool :=
  match s with
  | String c _ => negb (is_space c)
  | EmptyString => true
  end.

(** As [single_spaced], but a space may be the last character. *)
Fixpoint no_runs (s : string) : bool :=
  match s with
  | EmptyString => true
  | String c rest =>
      (if is_space c then Ascii.eqb c " " && starts_black rest else true)
      && no_runs rest
  end.

(** At a [<] that starts no tag: the next character is a [>], or no [>]
    follows at all. *)
Definition gt_next_or_never (s : string) : Prop :=
  find_char ">" s = None \/ find_char ">" s = Some 0.

End Html.

(* ===================================================================== *)
(** ** score_jobs.py: from the stored payload to the score column *)
(* ===================================================================== *)

Module ScoreJobs.
Import Text Py Store Fetch Html Score.

(** What lies outside the repository: [json.loads], [json.dumps],
    [str] of a number or a container, and the fuzzy matcher. *)
Record env := Env {
  json_loads : string -> result json;
  json_dumps : json -> string;
  py_repr : json -> string;
  fuzz_partial_ratio : string -> string -> float;
}.

(** [str(v)], as an f-string formats [v]. *)
Definition to_str (e : env) (v : json) : string :=
  match v with
  | JStr s => s
  | JNull => "None"
  | JBool true => "True"
  | JBool false => "False"
  | _ => py_repr e v
  end.

(** [a or b()], where [b] is only evaluated for a falsy [a]. *)
Definition or_get (a : json) (b : result json) : result json :=
  if truthy_json a then Ok a else b.

(** [safe_get(payload, *keys, default=dflt)] *)
Fixpoint safe_get (payload : json) (keys : list string) (dflt : string) : string :=
  match keys with
  | [] =>
      match payload with
      | JStr s => s
      | _ => dflt
      end
  | k :: rest =>
      match payload with
      | JDict d =>
          match assoc k d with
          | Some v => safe_get v rest dflt
          | None => dflt
          end
      | _ => dflt
      end
  end.

(** [payload[k1][k2]...], the plain indexing that [safe_get] guards. *)
Fixpoint index_path (payload : json) (keys : list string) : result json :=
  match keys with
  | [] => Ok payload
  | k :: rest => bind (py_item payload k) (fun v => index_path v rest)
  end.

(** [strip_html(v)] for a value that need not be a [str]: a falsy value
    gives the empty string, and [re.sub] raises on anything else that is
    not a string. *)
Definition strip_html_of (v : json) : result string :=
  match v with
  | JStr s => Ok (strip_html s)
  | _ =>
      if truthy_json v
      then Err (TypeError "expected string or bytes-like object")
      else Ok ""
  end.

(** [text + " " + title] *)
Definition add_title (text : string) (title : json) : result string :=
  match title with
  | JStr t => Ok (text ++ " " ++ t)
  | _ => Err (TypeError "can only concatenate str to str")
  end.

Definition job_text_from_payload (e : env) (payload : json) (source : string)
  : result string :=
  if String.eqb source "greenhouse" then
    bind (py_get payload "content" (JStr "")) (fun c =>
    let content_html := or_else c (JStr "") in
    bind (py_get payload "title" (JStr "")) (fun t =>
    let title := or_else t (JStr "") in
    bind (strip_html_of content_html) (fun text =>
    add_title text title)))
  else if String.eqb source "lever" then
    bind (py_get payload "descriptionPlain" JNull) (fun a =>
    bind (or_get a (py_get payload "description" JNull)) (fun b =>
    let text := or_else b (JStr "") in
    bind (strip_html_of text) (fun text =>
    bind (py_get payload "text" (JStr "")) (fun a =>
    bind (or_get a (py_get payload "title" (JStr ""))) (fun b =>
    let title := or_else b (JStr "") in
    Ok (text ++ " " ++ to_str e title))))))
  else
    Ok (strip_html (json_dumps e payload)).

(** *** score_all *)

(** [json.loads(raw_json) if raw_json else {}], with its
    [except Exception: payload = {}]. A value that is no text is either
    falsy or rejected by [json.loads]. *)
Definition payload_of (e : env) (raw_json : value) : json :=
  match raw_json with
  | VText s =>
      if nonempty s then
        match json_loads e s with
        | Ok payload => payload
        | Err _ => JDict []
        end
      else JDict []
  | _ => JDict []
  end.

(** [source or ""]. A number read from the column equals neither
    ["greenhouse"] nor ["lever"], as the empty string. *)
Definition source_of (source : value) : string :=
  match source with
  | VText s => s
  | _ => ""
  end.

(** A Python float bound to a statement parameter: SQLite stores NaN as
    NULL. *)
Definition score_value (x : float) : value :=
  if PrimFloat.is_nan x then VNull else VReal (Prim2SF x).

(** [id = ?]: NULL equals nothing, texts are compared as they are, reals
    by their value. *)
Definition sql_eq (a b : value) : bool :=
  match a, b with
  | VText x, VText y => String.eqb x y
  | VReal x, VReal y => SFeqb x y
  | _, _ => false
  end.

(** The constraints an [UPDATE ... SET score = ?] has to check: those of
    the column it changes. *)
Definition score_constraints (t : table) : table :=
  Table (List.filter (fun c => String.eqb (col_name c) "score") (tbl_columns t)) [].

(** The rows of an [UPDATE jobs SET score = ? WHERE id = ?], in order:
    [done] holds the rows already gone through. *)
Fixpoint update_rows (checks : table) (job_id score : value) (done todo : list row)
  : result (list row) :=
  match todo with
  | [] => Ok done
  | r :: rest =>
      if sql_eq (row_get "id" r) job_id then
        let new := <["score" := score]> r in
        if violates_not_null checks new
        then Err (IntegrityError "NOT NULL constraint failed")
        else if violates_unique checks (done ++ rest)%list new
        then Err (IntegrityError "UNIQUE constraint failed")
        else update_rows checks job_id score (done ++ [new])%list rest
      else update_rows checks job_id score (done ++ [r])%list rest
  end.

Definition update_score (job_id score : value) (t : table) : result table :=
  bind (update_rows (score_constraints t) job_id score [] (tbl_rows t)) (fun rows =>
  Ok (Table (tbl_columns t) rows)).

(** The text of a stored job, as the loop of [score_all] builds it. *)
Definition row_text (e : env) (r : row) : result string :=
  job_text_from_payload e (payload_of e (row_get "raw_json" r))
                        (source_of (row_get "source" r)).

(** The [for job_id, raw_json, source in rows] loop, on the table as the
    statements before have left it. *)
Fixpoint score_loop (e : env) (rows : list row) (t : table) : result table :=
  match rows with
  | [] => Ok t
  | r :: rest =>
      bind (row_text e r) (fun text =>
      let s := skill_score (fuzz_partial_ratio e) text in
      bind (update_score (row_get "id" r) (score_value s) t) (fun t' =>
      score_loop e rest t'))
  end.

(** [score_all]: the database that is stored when the call is over, and
    what the call returns. The column added by [ensure_score_column] is
    committed at once; the updates are committed together at the end, and
    are lost when an exception leaves the function before. *)
Definition score_all (e : env) (db : database) : database * result unit :=
  match ensure_score_column db with
  | Err ex => (db, Err ex)
  | Ok db1 =>
      match db1 !! "jobs" with
      | None => (db1, Err (OperationalError "no such table: jobs"))
      | Some t =>
          if negb (forallb (has_column t) ["id"; "raw_json"; "source"])
          then (db1, Err (OperationalError "no such column"))
          else
            match score_loop e (tbl_rows t) t with
            | Ok t' => (<["jobs" := t']> db1, Ok tt)
            | Err ex => (db1, Err ex)
            end
      end
  end.

(** The value that the loop writes for the stored job [r]. *)
Definition new_score (e : env) (r : row) : value :=
  match row_text e r with
  | Ok text => score_value (skill_score (fuzz_partial_ratio e) text)
  | Err _ => VNull
  end.

(** What the iteration for the stored job [r] does to a row [cur] of the
    table. *)
Definition rescore (e : env) (cur r : row) : row :=
  if sql_eq (row_get "id" cur) (row_get "id" r)
  then <["score" := new_score e r]> cur
  else cur.

(** The row holds a score between 0 and 100. *)
Definition scored (r : row) : Prop :=
  exists x, row_get "score" r = VReal (Prim2SF x) /\ in_0_100 x = true.

(** The score column has no constraint, as in both schemas. *)
Definition score_unconstrained (t : table) : bool :=
  forallb (fun c => negb (String.eqb (col_name c) "score")
                    || negb (col_not_null c || col_primary_key c || col_unique c))
          (tbl_columns t).

(** *** Reading the score *)

(** The skills of [MY_SKILLS], bucket after bucket. *)
Definition bucket_names (b : bucket_skills) : list string :=
  match b with
  | SkillList skills => skills
  | SkillDict years => map fst years
  end.

Definition skill_names : list string :=
  concat (map (fun entry => bucket_names (snd entry)) MY_SKILLS).

(** The skill is found in the text, as [skill_score] looks for it. *)
Definition hits (pr : string -> string -> float) (text skill : string) : bool :=
  exact_or_fuzzy_hit pr (lower skill) (normalize_text text).

Definition score_at (c : nat * nat * nat * nat) : float :=
  let '(c1, c2, c3, c4) := c in score_of_counts c1 c2 c3 c4.

Definition counts_le (a b : nat * nat * nat * nat) : bool :=
  let '(a1, a2, a3, a4) := a in
  let '(b1, b2, b3, b4) := b in
  ((a1 <=? b1) && (a2 <=? b2) && (a3 <=? b3) && (a4 <=? b4))%nat.

(** The numbers of hits of a text, bucket by bucket. *)
Definition counts_of (pr : string -> string -> float) (text : string)
  : nat * nat * nat * nat :=
  let t := normalize_text text in
  (count_hits pr t ["python"; "typescript"; "go"],
   count_hits pr t ["nlp"; "transformers"; "langchain"; "retrieval"; "llmops"],
   count_hits pr t ["postgres"; "docker"; "kubernetes"; "playwright"; "aws"; "gcp"],
   count_hits pr t ["python"; "typescript"]).

(** The table has the columns of one of the two schemas. *)
Definition schema_shaped (t : table) : Prop :=
  fetch_shaped t \/ tbl_columns t = CLI_JOBS_COLUMNS.

(** *** Sample data: a matcher that finds nothing but literal
    occurrences, and a parser that knows three texts *)

Definition quoted (s : string) : string :=
  String (ascii_of_nat 34) (s ++ String (ascii_of_nat 34) "").

Definition raw_python : string :=
  "{" ++ quoted "content" ++ ": " ++ quoted "<p>Python and Docker</p>" ++ "}".

Definition plain_env : env :=
  Env (fun s => if String.eqb s "{}" then Ok (JDict [])
                else if String.eqb s "[]" then Ok (JList [])
                else if String.eqb s raw_python
                then Ok (JDict [("content", JStr "<p>Python and Docker</p>")])
                else Err (Exn "json.JSONDecodeError" s))
      (fun _ => "{}") (fun _ => "0") (fun _ _ => 0%float).

(** Two stored jobs; the payload of the second is a JSON list. *)
Definition job_python : job_row :=
  JobRow "greenhouse:stripe:1" (Some "greenhouse") (Some "stripe")
         (Some "Backend Engineer") None None None (Some raw_python).

Definition job_list : job_row :=
  JobRow "greenhouse:stripe:2" (Some "greenhouse") (Some "stripe")
         (Some "Data Engineer") None None None (Some "[]").

End ScoreJobs.

(* ===================================================================== *)
(** ** writer.py: the text a cover letter is written from *)
(* ===================================================================== *)

Module Writer.
Import Text Py Store Fetch Html ScoreJobs.

Definition extract_description (e : env) (payload : json) (source : string)
  : result string :=
  if String.eqb source "greenhouse" then
    bind (py_get payload "content" (JStr "")) (fun c =>
    bind (strip_html_of c) (fun text =>
    bind (py_get payload "title" JNull) (fun t =>
    add_title text (or_else t (JStr "")))))
  else if String.eqb source "lever" then
    bind (py_get payload "descriptionPlain" JNull) (fun a =>
    bind (or_get a (py_get payload "description" JNull)) (fun b =>
    let desc := or_else b (JStr "") in
    bind (strip_html_of desc) (fun desc =>
    bind (py_get payload "text" JNull) (fun a =>
    bind (or_get a (py_get payload "title" JNull)) (fun b =>
    let title := or_else b (JStr "") in
    Ok (desc ++ " " ++ to_str e title))))))
  else
    Ok (strip_html (json_dumps e payload)).

End Writer.

(* ===================================================================== *)
(** ** convert_and_export.py: update_db *)
(* ===================================================================== *)

Module Exporter.
Import Text Py Store Convert.

(** The stored row [old] collides with the row [new] on a PRIMARY KEY or
    UNIQUE column (NULLs never collide). *)
Definition conflicts (t : table) (new old : row) : bool :=
  existsb (fun c =>
             (col_primary_key c || col_unique c)
             && negb (bool_decide (row_get (col_name c) new = VNull))
             && bool_decide (row_get (col_name c) old = row_get (col_name c) new))
          (tbl_columns t).

(** Under [OR REPLACE] a NULL in a NOT NULL column is replaced by the
    default of the column. *)
Definition with_defaults (t : table) (new : row) : row :=
  fold_left (fun acc c =>
               if col_not_null c && bool_decide (row_get (col_name c) acc = VNull)
               then <[col_name c := col_default c]> acc
               else acc)
            (tbl_columns t) new.

(** [INSERT OR REPLACE INTO name (...) VALUES (...)]: the stored rows that
    collide with the new row are deleted, and the new row is added; a
    NOT NULL column left without a value aborts the statement. *)
Definition insert_or_replace (name : string) (vals : list (string * value))
           (db : database) : result database :=
  match db !! name with
  | None => Err (OperationalError ("no such table: " ++ name))
  | Some t =>
      if negb (forallb (has_column t) (map fst vals))
      then Err (OperationalError ("table " ++ name ++ " has no such column"))
      else
        let new := with_defaults t (set_values vals (default_row t)) in
        if violates_not_null t new
        then Err (IntegrityError "NOT NULL constraint failed")
        else Ok (<[name := Table (tbl_columns t)
                             (List.filter (fun old => negb (conflicts t new old)) (tbl_rows t)
                              ++ [new])%list]> db)
  end.

(** [COALESCE(v, dflt)] *)
Definition coalesce (v dflt : value) : value :=
  match v with
  | VNull => dflt
  | _ => v
  end.

(** [update_db(job_id, resume_pdf, cover_pdf)]; [today] is what
    [date('now')] gives. The notes are those of the first stored row of
    the job, or ['converted']. *)
Definition update_db (today job_id resume_pdf cover_pdf : string) (db : database)
  : result database :=
  bind (select_one "applications" "job_id" job_id db) (fun found =>
  let notes := coalesce (match found with
                         | Some r => row_get "notes" r
                         | None => VNull
                         end) (VText "converted") in
  insert_or_replace "applications"
    [ ("job_id", VText job_id);
      ("applied_at", VText today);
      ("resume_path", VText resume_pdf);
      ("cover_path", VText cover_pdf);
      ("notes", notes) ] db).

(** The rows of [applications]. *)
Definition applications_rows (db : database) : list row :=
  match db !! "applications" with
  | Some t => tbl_rows t
  | None => []
  end.

(** The row that [writer.generate_for] stores for a job. *)
Definition generated : row :=
  {[ "job_id" := VText "greenhouse:stripe:1";
     "applied_at" := VText "2024-05-01";
     "resume_path" := VText "docs/greenhouse_stripe_1_resume.md";
     "cover_path" := VText "docs/greenhouse_stripe_1_cover.md";
     "notes" := VText "generated" ]}.

Definition with_application : database :=
  <["applications" := Table CLI_APPLICATIONS_COLUMNS [generated]]> cli_db.

End Exporter.

(* ===================================================================== *)
(** ** convert_and_export.py: reading the chunks and the pages *)
(* ===================================================================== *)

Module Pages.
Import Text Py Paths Convert.

(** The characters of [s] that are not white space. *)
Fixpoint squeeze (s : string) : string :=
  match s with
  | EmptyString => EmptyString
  | String c rest => if is_space c then squeeze rest else String c (squeeze rest)
  end.

(** The chunks one after the other. *)
Definition glue (chunks : list string) : string := fold_right append "" chunks.

(** The lines that [md_to_pdf_simple] draws for a text. *)
Definition drawn_lines (text : string) : list string :=
  concat (map wrap_line_default (splitlines text)).

(** What the drawing loop keeps true of its pages, the lines on the
    current page and [y]. *)
Definition page_state (st : list (list string) * list string * Z) : Prop :=
  let '(pages, page, y) := st in
  y = (720 - 12 * Z.of_nat (length page))%Z
  /\ length page <= 55
  /\ Forall (fun p => length p = 55) pages
  /\ (page = [] -> pages = []).

(** *** Sample data: the two Markdown files of a job, and a machine
    without [pdfkit] whose fallback renderer writes the file *)

Definition two_docs : files :=
  {[ "docs/greenhouse_stripe_1_resume.md" := "# Resume";
     "docs/greenhouse_stripe_1_cover.md" := "# Cover letter" ]}.

Definition simple_only : world :=
  World (fun p => p) false (fun _ => None) (fun text => text)
        (fun _ _ fs => (fs, Ok tt))
        (fun path _ fs => (<[path := "%PDF-1.4"]> fs, Ok tt)).

End Pages.

(* ===================================================================== *)
(** ** fetch_jobs.py: one posting, the dates, and the whole of a fetch *)
(* ===================================================================== *)

Module Board.
Import Text Py Store Fetch Html.





(** *** fetch_and_store, from [sqlite3.connect] to [conn.close()] *)

(** What the connection does besides changing the tables, each of which
    may raise: [sqlite3.connect(db)], [conn.execute("PRAGMA ...")],
    whether the file can be written when [ensure_schema(conn)] runs its
    statement (a database that is locked or read-only raises there), and
    the [conn.commit()] and [conn.close()] that end the function. *)
Record connection := Connection {
  connect : result unit;
  pragma : string -> result unit;
  writable : result unit;
  commit : result unit;
  close : result unit;
}.

(** The statements of [fetch_and_store] before the loops, as far as they
    may raise for what the connection is: the connect, the two PRAGMAs and
    the statement of [ensure_schema]. *)
Definition opening (c : connection) : result unit :=
  bind (connect c) (fun _ =>
  bind (pragma c "journal_mode = WAL") (fun _ =>
  bind (pragma c "synchronous = NORMAL") (fun _ =>
  writable c))).

(** What stays in the file when the connection is dropped without the
    last commit: the table that [ensure_schema] created and committed;
    the upserts since then are rolled back. *)
Definition rolled_back (db : database) : database :=
  match ensure_schema db with
  | Ok db0 => db0
  | Err _ => db
  end.

(** The whole of [fetch_and_store]; [Fetch.fetch_and_store] is its middle,
    what [ensure_schema(conn)] and the two loops do to the tables and
    print, where the constructors of [httpx] are taken to return. Nothing
    here is inside a [try]. The state that is returned holds the database
    as the file has it afterwards. *)
Definition fetch_and_store (c : connection) (w : world) (orgs_gh orgs_lever : list string)
  : M unit :=
  fun s =>
    match opening c with
    | Err e => (s, Err e)
    | Ok _ =>
        let '(s1, r) := Fetch.fetch_and_store w orgs_gh orgs_lever s in
        match bind r (fun _ => commit c) with
        | Err e => (State (rolled_back (st_db s)) (st_out s1), Err e)
        | Ok _ => (s1, close c)
        end
    end.

(** *** to_iso_utc *)

(** What [float] and [datetime] do, each of which may raise: [float(val)]
    for an [int] or a [float] (a number of [Fetch.json] is a binary64; a
    Python [int] beyond that range makes [float] raise [OverflowError],
    which is why the conversion is a field here),
    [datetime.fromtimestamp(x, tz=timezone.utc)] and
    [datetime.fromisoformat(s)] followed by [astimezone(timezone.utc)],
    both rendered by [isoformat().replace("+00:00", "Z")], [float(s)] for
    a string, and [str] of a list or dict. *)
Record clock := Clock {
  float_of_number : json -> result float;
  from_timestamp : float -> result string;
  from_isoformat : string -> result string;
  float_of : string -> result float;
  str_of : json -> string;
}.

(** [s.replace(c, new)] for a one-character [c]. *)
Fixpoint replace_with (c : ascii) (new s : string) : string :=
  match s with
  | EmptyString => EmptyString
  | String x rest =>
      if Ascii.eqb x c then new ++ replace_with c new rest
      else String x (replace_with c new rest)
  end.

(** The second [try] of the string case, up to its [return]. *)
Definition epoch_of_text (k : clock) (s : string) : result string :=
  bind (float_of k s) (fun num =>
  let num := if PrimFloat.ltb 10000000000 num then (num / 1000)%float else num in
  from_timestamp k num).

(** [isinstance(val, (int, float))]: a [bool] is an [int]. *)
Definition is_number (val : json) : bool :=
  match val with
  | JNum _ | JBool _ => true
  | _ => false
  end.

Definition to_iso_utc (k : clock) (val : json) : result (option string) :=
  match val with
  | JNull => Ok None
  | JNum _ | JBool _ =>
      bind (float_of_number k val) (fun x =>
      bind (from_timestamp k x) (fun d => Ok (Some d)))
  | JStr v =>
      let s := strip v in
      match from_isoformat k (replace_with "Z" "+00:00" s) with
      | Ok d => Ok (Some d)
      | Err _ =>
          match epoch_of_text k s with
          | Ok d => Ok (Some d)
          | Err _ => Ok (Some s)
          end
      end
  | _ => Ok (Some (str_of k val))
  end.

(** A world whose dates are those of [to_iso_utc]. *)
Definition with_clock (k : clock) (w : world) : world :=
  World (get_json w) (to_iso_utc k) (dumps w) (repr w).

(** *** Sample data: a clock that knows no date, and a board with three
    postings, the second with a date out of range *)

Definition no_clock : clock :=
  Clock (fun val => match val with
                    | JNum x => Ok x
                    | JBool b => Ok (if b then 1 else 0)%float
                    | _ => Err (TypeError "float() argument must be a string or a real number")
                    end)
        (fun _ => Err (Exn "OverflowError" "timestamp out of range for platform time_t"))
        (fun s => Err (ValueError ("Invalid isoformat string: '" ++ s ++ "'")))
        (fun s => Err (ValueError ("could not convert string to float: '" ++ s ++ "'")))
        (fun _ => "[]").

Definition posting_1 : json :=
  JDict [("id", JStr "1"); ("title", JStr "Backend Engineer");
         ("updated_at", JStr " next week ")].

Definition posting_2 : json :=
  JDict [("id", JStr "2"); ("title", JStr "Data Engineer");
         ("updated_at", JNum 1e30)].

Definition posting_3 : json :=
  JDict [("id", JStr "3"); ("title", JStr "Site Reliability Engineer")].

Definition one_board : world :=
  with_clock no_clock
    (World (fun url => if String.eqb url (gh_boards "acme")
                       then Ok (JDict [("jobs", JList [posting_1; posting_2; posting_3])])
                       else Err (HTTPError "404 Not Found"))
           (fun _ => Ok None) (fun _ => "{}") (fun _ => "0")).

(** A connection whose last commit finds the database locked. *)
Definition locked : connection :=
  Connection (Ok tt) (fun _ => Ok tt) (Ok tt)
             (Err (OperationalError "database is locked")) (Ok tt).

End Board.

(* ===================================================================== *)
(** * Theorems *)
(* ===================================================================== *)

(** ** score_jobs.py: the score is a function of the text, within [0, 100] *)

Section ScoreFacts.
Import Text Score.
#[local] Open Scope float_scope.

Lemma add_times_shift (n : nat) (w x : float) :
  add_times n w (x + w) = add_times (S n) w x.
Proof.
  unfold add_times. induction n as [|n IH]; [reflexivity|].
  change (Nat.iter (S n) (fun y => y + w) (x + w))
    with (Nat.iter n (fun y => y + w) (x + w) + w).
  rewrite IH. reflexivity.
Qed.

Lemma bucket_loop_counts pr (w : float) (text : string) (names : list string) :
  forall wh wt,
    bucket_loop pr w text names (wh, wt)
    = (add_times (count_hits pr text names) w wh, add_times (length names) w wt).
Proof.
  induction names as [|s rest IH]; intros wh wt; [reflexivity|].
  cbn [bucket_loop count_hits length].
  rewrite IH, add_times_shift.
  destruct (exact_or_fuzzy_hit pr (lower s) text); cbn [Nat.add].
  - now rewrite add_times_shift.
  - reflexivity.
Qed.

Lemma count_hits_le pr (text : string) (names : list string) :
  (count_hits pr text names <= length names)%nat.
Proof.
  induction names as [|s rest IH]; cbn [count_hits length]; [lia|].
  destruct (exact_or_fuzzy_hit pr (lower s) text); lia.
Qed.

Lemma count_hits_ext pr1 pr2 (text : string) (names : list string) :
  (forall skill t, pr1 skill t = pr2 skill t) ->
  count_hits pr1 text names = count_hits pr2 text names.
Proof.
  intros Hpr. induction names as [|s rest IH]; [reflexivity|].
  cbn [count_hits]. rewrite IH. unfold exact_or_fuzzy_hit. now rewrite Hpr.
Qed.

(** The four loops of [skill_score], bucket by bucket. *)
Lemma skill_score_counts pr (text : string) :
  let t := normalize_text text in
  skill_score pr text
  = score_of_counts
      (count_hits pr t ["python"; "typescript"; "go"])
      (count_hits pr t ["nlp"; "transformers"; "langchain"; "retrieval"; "llmops"])
      (count_hits pr t ["postgres"; "docker"; "kubernetes"; "playwright"; "aws"; "gcp"])
      (count_hits pr t ["python"; "typescript"]).
Proof.
  intros t. unfold skill_score, score_of_counts. fold t.
  unfold MY_SKILLS. cbn [fold_left]. unfold bucket_step.
  cbn [fst snd map].
  change (dict_get BUCKET_WEIGHTS "languages" 1) with 1.
  change (dict_get BUCKET_WEIGHTS "ml" 1) with 1.2.
  change (dict_get BUCKET_WEIGHTS "tools" 1) with 0.9.
  change (dict_get BUCKET_WEIGHTS "years_exp" 1) with 1.1.
  rewrite !bucket_loop_counts. reflexivity.
Qed.

Lemma all_counts_in_range :
  forallb (fun '(c1, c2, c3, c4) => in_0_100 (score_of_counts c1 c2 c3 c4)) all_counts = true.
Proof. vm_compute. reflexivity. Qed.

Lemma in_all_counts (c1 c2 c3 c4 : nat) :
  (c1 <= 3)%nat -> (c2 <= 5)%nat -> (c3 <= 6)%nat -> (c4 <= 2)%nat ->
  In (c1, c2, c3, c4) all_counts.
Proof.
  intros H1 H2 H3 H4. apply list_elem_of_In. unfold all_counts.
  apply list_elem_of_bind. exists c1. split; [|apply elem_of_seq; lia].
  apply list_elem_of_bind. exists c2. split; [|apply elem_of_seq; lia].
  apply list_elem_of_bind. exists c3. split; [|apply elem_of_seq; lia].
  apply list_elem_of_bind. exists c4. split; [|apply elem_of_seq; lia].
  apply list_elem_of_singleton. reflexivity.
Qed.

Lemma score_of_counts_in_range (c1 c2 c3 c4 : nat) :
  (c1 <= 3)%nat -> (c2 <= 5)%nat -> (c3 <= 6)%nat -> (c4 <= 2)%nat ->
  in_0_100 (score_of_counts c1 c2 c3 c4) = true.
Proof.
  intros H1 H2 H3 H4.
  pose proof (proj1 (forallb_forall _ _) all_counts_in_range
                    (c1, c2, c3, c4) (in_all_counts _ _ _ _ H1 H2 H3 H4)) as H.
  exact H.
Qed.

(** C1. [skill_score] is deterministic: it has no state, so two calls on
    the same text, with a fuzzy matcher that answers the same, return the
    same float; and that float lies in the interval [0, 100]. *)
Theorem skill_score_deterministic_in_range :
  forall (pr1 pr2 : string -> string -> float) (text1 text2 : string),
    (forall skill t, pr1 skill t = pr2 skill t) ->
    text1 = text2 ->
    skill_score pr1 text1 = skill_score pr2 text2
    /\ in_0_100 (skill_score pr1 text1) = true.
Proof.
  intros pr1 pr2 text1 text2 Hpr <-. split.
  - rewrite !skill_score_counts. cbv zeta.
    now rewrite !(count_hits_ext pr1 pr2 _ _ Hpr).
  - rewrite skill_score_counts. cbv zeta.
    apply score_of_counts_in_range.
    + apply (count_hits_le pr1 _ ["python"; "typescript"; "go"]).
    + apply (count_hits_le pr1 _ ["nlp"; "transformers"; "langchain"; "retrieval"; "llmops"]).
    + apply (count_hits_le pr1 _ ["postgres"; "docker"; "kubernetes"; "playwright"; "aws"; "gcp"]).
    + apply (count_hits_le pr1 _ ["python"; "typescript"]).
Qed.

Lemma skill_score_deterministic_in_range_witness :
  skill_score (fun _ _ => 0) "Senior Python engineer: Docker, AWS, NLP"
  = skill_score (fun _ _ => 0) "Senior Python engineer: Docker, AWS, NLP"
  /\ in_0_100 (skill_score (fun _ _ => 0) "Senior Python engineer: Docker, AWS, NLP") = true.
Proof.
  apply (skill_score_deterministic_in_range
           (fun _ _ => 0) (fun _ _ => 0)
           "Senior Python engineer: Docker, AWS, NLP"
           "Senior Python engineer: Docker, AWS, NLP");
    [intros skill t; reflexivity | reflexivity].
Defined.

(** A worked score: five of the sixteen skills hit, weights 1.0, 1.2,
    0.9, 0.9 and 1.1 out of 16.6. *)
Example skill_score_example :
  skill_score (fun _ _ => 0) "Senior Python engineer: Docker, AWS, NLP" = 30.7.
Proof. vm_compute. reflexivity. Qed.

End ScoreFacts.
(** ** Schema creation *)

Section SchemaFacts.
Import Text Py Store.

Lemma create_table_if_not_exists_ok (name : string) (cols : list column) (db : database) :
  exists db1, create_table true name cols db = Ok db1 /\ is_Some (db1 !! name)
              /\ (forall other, other <> name -> db1 !! other = db !! other)
              /\ (is_Some (db !! name) -> db1 = db).
Proof.
  unfold create_table. destruct (db !! name) as [t|] eqn:Hlk.
  - exists db. repeat split; eauto.
  - exists (<[name := Table cols []]> db). repeat split.
    + rewrite lookup_insert_eq. eauto.
    + intros other Hne. now rewrite lookup_insert_ne.
    + intros [t Ht]. discriminate.
Qed.

Lemma create_table_if_not_exists_again (name : string) (cols : list column) (db : database) :
  is_Some (db !! name) -> create_table true name cols db = Ok db.
Proof. intros [t Ht]. unfold create_table. now rewrite Ht. Qed.

Lemma ensure_schema_twice (db : database) :
  exists db1, ensure_schema db = Ok db1 /\ ensure_schema db1 = Ok db1.
Proof.
  destruct (create_table_if_not_exists_ok "jobs" FETCH_JOBS_COLUMNS db)
    as (db1 & H1 & Hsome & _).
  exists db1. split; [exact H1|].
  now apply create_table_if_not_exists_again.
Qed.

Lemma ensure_db_twice (db : database) :
  exists db2, ensure_db db = Ok db2 /\ ensure_db db2 = Ok db2.
Proof.
  unfold ensure_db.
  destruct (create_table_if_not_exists_ok "jobs" CLI_JOBS_COLUMNS db)
    as (db1 & H1 & Hjobs & _).
  destruct (create_table_if_not_exists_ok "applications" CLI_APPLICATIONS_COLUMNS db1)
    as (db2 & H2 & Happ & Hother & _).
  exists db2. rewrite H1. cbn [bind]. split; [exact H2|].
  assert (Hjobs2 : is_Some (db2 !! "jobs")) by (rewrite Hother; [exact Hjobs|discriminate]).
  rewrite (create_table_if_not_exists_again "jobs" _ db2 Hjobs2). cbn [bind].
  now apply create_table_if_not_exists_again.
Qed.

Lemma ensure_score_column_twice (db db1 : database) :
  ensure_score_column db = Ok db1 -> ensure_score_column db1 = Ok db1.
Proof.
  unfold ensure_score_column. case_bool_decide as Hin.
  - intros [= <-]. now rewrite bool_decide_eq_true_2.
  - unfold alter_table_add_column. destruct (db !! "jobs") as [t|] eqn:Hlk; [|discriminate].
    destruct (existsb _ _); [discriminate|]. intros [= <-].
    rewrite bool_decide_eq_true_2; [reflexivity|].
    unfold table_info. rewrite lookup_insert_eq. cbn [tbl_columns].
    rewrite map_app. apply elem_of_app. right. cbn. apply list_elem_of_singleton. reflexivity.
Qed.

(** After either [CREATE TABLE] of [jobs], the score column can be
    ensured. *)
Lemma ensure_score_column_after_create (db db1 : database) :
  db !! "jobs" = None ->
  ensure_schema db = Ok db1 \/ ensure_db db = Ok db1 ->
  exists db2, ensure_score_column db1 = Ok db2.
Proof.
  intros Hnone [H|H].
  - unfold ensure_schema, create_table in H. rewrite Hnone in H. injection H as <-.
    unfold ensure_score_column, table_info, alter_table_add_column.
    rewrite !lookup_insert_eq. vm_compute (bool_decide _). cbn [tbl_columns].
    vm_compute (existsb _ _). eauto.
  - unfold ensure_db, create_table in H. rewrite Hnone in H. cbn [bind] in H.
    assert (Hj : forall d : database, d !! "jobs" = Some (Table CLI_JOBS_COLUMNS []) ->
                 ensure_score_column d = Ok d).
    { intros d Hd. unfold ensure_score_column, table_info. rewrite Hd. reflexivity. }
    destruct (<["jobs" := Table CLI_JOBS_COLUMNS []]> db !! "applications") eqn:Ha;
      injection H as <-; eexists; apply Hj.
    + apply lookup_insert_eq.
    + rewrite lookup_insert_ne by discriminate. apply lookup_insert_eq.
Qed.

(** C7. Schema creation is idempotent. [ensure_schema] and [ensure_db]
    always succeed, and a second run returns the database of the first run
    unchanged, tables, columns and rows. A second run of
    [ensure_score_column] after a successful first one finds the column and
    returns the database unchanged. None of the second runs fails. *)
Theorem schema_creation_idempotent :
  forall db : database,
    (exists db1, ensure_schema db = Ok db1 /\ ensure_schema db1 = Ok db1)
    /\ (exists db1, ensure_db db = Ok db1 /\ ensure_db db1 = Ok db1)
    /\ (forall db1, ensure_score_column db = Ok db1 -> ensure_score_column db1 = Ok db1).
Proof.
  intros db. split; [apply ensure_schema_twice|].
  split; [apply ensure_db_twice|]. apply ensure_score_column_twice.
Qed.

(** After a first run that added the column to a table with a stored row,
    the second run changes nothing. *)
Lemma schema_creation_idempotent_witness :
  ensure_score_column (or_empty (ensure_score_column (upsert_all [job_a] fetch_db)))
  = Ok (or_empty (ensure_score_column (upsert_all [job_a] fetch_db))).
Proof.
  apply (proj2 (proj2 (schema_creation_idempotent (upsert_all [job_a] fetch_db)))).
  vm_compute. reflexivity.
Defined.

End SchemaFacts.

(** ** The upsert and the key constraints *)

Section UpsertFacts.
Import Text Py Store.

(** *** Counting rows after a replacement *)

Lemma filter_insert_length {A} (P : A -> Prop) `{!forall x, Decision (P x)}
      (l : list A) (k : nat) (x : A) :
  k < length l ->
  length (filter P (<[k:=x]> l))
  = length (filter P (delete k l)) + (if decide (P x) then 1 else 0).
Proof.
  intros Hk. rewrite insert_take_drop by exact Hk. rewrite delete_take_drop.
  rewrite !filter_app, filter_cons, !length_app.
  destruct (decide (P x)); cbn; lia.
Qed.

Lemma filter_delete_length {A} (P : A -> Prop) `{!forall x, Decision (P x)}
      (l : list A) (k : nat) :
  length (filter P (delete k l)) <= length (filter P l).
Proof.
  revert k. induction l as [|a l IH]; intros k; [destruct k; reflexivity|].
  destruct k as [|k]; cbn [delete list_delete]; rewrite !filter_cons.
  - destruct (decide (P a)); [apply Nat.le_succ_diag_r|reflexivity].
  - destruct (decide (P a)); [apply le_n_S|]; apply IH.
Qed.

Lemma filter_none {A} (P : A -> Prop) `{!forall x, Decision (P x)} (l : list A) :
  (forall x, x ∈ l -> ~ P x) -> filter P l = [].
Proof.
  induction l as [|a l IH]; intros Hno; [reflexivity|].
  rewrite filter_cons_False by (apply Hno; left).
  apply IH. intros x Hx. apply Hno. now right.
Qed.

Lemma existsb_false_elem {A} (f : A -> bool) (l : list A) (x : A) :
  existsb f l = false -> x ∈ l -> f x = false.
Proof.
  induction l as [|a l IH]; intros Hex Hin; [inversion Hin|].
  cbn [existsb] in Hex. apply orb_false_iff in Hex as [Ha Hl].
  apply elem_of_cons in Hin as [->|Hin]; auto.
Qed.

(** *** Reading the constraint checks *)

Lemma is_key_column_elem (t : table) (name : string) :
  is_key_column t name = true ->
  exists c, c ∈ tbl_columns t /\ col_name c = name
            /\ (col_primary_key c || col_unique c) = true.
Proof.
  unfold is_key_column. intros H. apply existsb_exists in H as (c & Hin & Hc).
  apply andb_true_iff in Hc as [Hn Hk]. apply String.eqb_eq in Hn.
  exists c. split; [now apply list_elem_of_In|]. now split.
Qed.

Lemma violates_unique_false (t : table) (others : list row) (new : row) (name v : string) :
  violates_unique t others new = false ->
  is_key_column t name = true ->
  row_get name new = VText v ->
  forall r', r' ∈ others -> row_get name r' <> VText v.
Proof.
  intros Hv Hkey Hnew r' Hin Heq.
  apply is_key_column_elem in Hkey as (c & Hc & Hname & Hflag).
  unfold violates_unique in Hv.
  pose proof (existsb_false_elem _ _ c Hv Hc) as Hcol. cbv beta in Hcol.
  rewrite Hflag, Hname, Hnew in Hcol. cbn [andb] in Hcol.
  rewrite bool_decide_eq_false_2 in Hcol by discriminate. cbn [negb andb] in Hcol.
  pose proof (existsb_false_elem _ _ r' Hcol Hin) as Hr. cbv beta in Hr.
  rewrite bool_decide_eq_true_2 in Hr by exact Heq. discriminate.
Qed.

(** *** What a successful upsert did *)

Lemma upsert_ok_inv (db db' : database) (r : job_row) :
  upsert db r = Ok db' ->
  exists t, db !! "jobs" = Some t
    /\ is_key_column t "id" = true
    /\ ((exists k old,
           list_find (fun old => row_get "id" old = VText (id r)) (tbl_rows t) = Some (k, old)
           /\ violates_unique t (delete k (tbl_rows t)) (updated r old) = false
           /\ db' = <["jobs" := Table (tbl_columns t)
                                      (<[k := updated r old]> (tbl_rows t))]> db)
        \/ (list_find (fun old => row_get "id" old = VText (id r)) (tbl_rows t) = None
            /\ violates_unique t (tbl_rows t)
                               (set_values (insert_values r) (default_row t)) = false
            /\ db' = <["jobs" := Table (tbl_columns t)
                                       (tbl_rows t ++ [set_values (insert_values r) (default_row t)])]> db)).
Proof.
  unfold upsert. destruct (db !! "jobs") as [t|] eqn:Hlk; [|discriminate].
  destruct (negb (forallb _ _)); [discriminate|].
  destruct (is_key_column t "id") eqn:Hkey; cbn [negb]; [|discriminate].
  intros H. exists t. split; [reflexivity|]. split; [exact Hkey|].
  destruct (list_find _ (tbl_rows t)) as [[k old]|] eqn:Hfind.
  - left. exists k, old. split; [reflexivity|].
    destruct (violates_not_null _ _); [discriminate|].
    destruct (violates_unique _ _ _); [discriminate|]. injection H as <-. auto.
  - right. split; [reflexivity|].
    destruct (violates_not_null _ _); [discriminate|].
    destruct (violates_unique _ _ _); [discriminate|]. injection H as <-. auto.
Qed.

(** A PRIMARY KEY or UNIQUE column stays free of repeated text values. *)
Lemma upsert_keeps_key_unique (name : string) (db db' : database) (r : job_row) :
  upsert db r = Ok db' ->
  (forall t, db !! "jobs" = Some t -> is_key_column t name = true) ->
  (forall v, length (filter (fun x => row_get name x = VText v) (jobs_rows db)) <= 1) ->
  forall v, length (filter (fun x => row_get name x = VText v) (jobs_rows db')) <= 1.
Proof.
  intros Hup Hkey Huniq v.
  apply upsert_ok_inv in Hup as (t & Hlk & _ & Hcase).
  specialize (Hkey t Hlk). specialize (Huniq v).
  unfold jobs_rows in *. rewrite Hlk in Huniq.
  destruct Hcase as [(k & old & Hfind & Hu & ->)|(Hfind & Hu & ->)];
    rewrite lookup_insert_eq; cbn [tbl_rows].
  - apply list_find_Some in Hfind as (Hk & _ & _).
    rewrite filter_insert_length by (eapply lookup_lt_Some; exact Hk).
    destruct (decide _) as [Hnew|Hnew].
    + rewrite (filter_none _ (delete k (tbl_rows t))); [cbn; lia|].
      intros r'. now apply (violates_unique_false t _ _ name v Hu Hkey Hnew).
    + pose proof (filter_delete_length
                    (fun x => row_get name x = VText v) (tbl_rows t) k). lia.
  - rewrite filter_app, length_app, filter_cons, filter_nil.
    destruct (decide _) as [Hnew|Hnew]; cbn; [|lia].
    rewrite (filter_none _ (tbl_rows t)); [cbn; lia|].
    intros r'. now apply (violates_unique_false t _ _ name v Hu Hkey Hnew).
Qed.

Lemma upsert_keeps_id_unique (db db' : database) (r : job_row) :
  upsert db r = Ok db' -> id_unique db -> id_unique db'.
Proof.
  intros Hup Huniq i.
  apply (upsert_keeps_key_unique "id" db db' r Hup); [|exact Huniq].
  intros t Ht. apply upsert_ok_inv in Hup as (t' & Hlk & Hkey & _).
  rewrite Ht in Hlk. now injection Hlk as ->.
Qed.

Lemma upsert_or_keep_id_unique (db : database) (r : job_row) :
  id_unique db -> id_unique (upsert_or_keep db r).
Proof.
  intros H. unfold upsert_or_keep. destruct (upsert db r) eqn:Hup; [|exact H].
  now apply (upsert_keeps_id_unique db _ r).
Qed.

Lemma upsert_all_id_unique (rs : list job_row) (db : database) :
  id_unique db -> id_unique (upsert_all rs db).
Proof.
  revert db. induction rs as [|r rs IH]; intros db H; [exact H|].
  cbn [upsert_all fold_left]. apply IH. now apply upsert_or_keep_id_unique.
Qed.

(** *** The updated row *)

Lemma updated_values (r : job_row) (old : row) :
  (forall c v, (c, v) ∈ update_values r -> row_get c (updated r old) = v)
  /\ (forall c, c ∉ map fst (update_values r) -> updated r old !! c = old !! c).
Proof.
  unfold updated, set_values, update_values, row_get. cbn [fold_left fst snd map]. split.
  - intros c v Hin.
    repeat (apply elem_of_cons in Hin as [[= -> ->]|Hin];
            [now simplify_map_eq|]).
    inversion Hin.
  - intros c Hnot.
    repeat (apply not_elem_of_cons in Hnot as [? Hnot]).
    now simplify_map_eq.
Qed.

Lemma updated_id (r : job_row) (old : row) :
  row_get "id" (updated r old) = row_get "id" old.
Proof.
  unfold row_get. rewrite (proj2 (updated_values r old)); [reflexivity|].
  cbn. intros Hin. repeat (apply elem_of_cons in Hin as [[=]|Hin]). inversion Hin.
Qed.

Lemma inserted_id (r : job_row) (d : row) :
  row_get "id" (set_values (insert_values r) d) = VText (id r).
Proof.
  unfold set_values, insert_values, update_values, row_get. cbn [fold_left fst snd].
  now simplify_map_eq.
Qed.

Lemma upsert_existing_in_place (db db' : database) (r : job_row) :
  rows_with_id (id r) db <> [] ->
  upsert db r = Ok db' ->
  exists t k old,
    db !! "jobs" = Some t /\ tbl_rows t !! k = Some old
    /\ row_get "id" old = VText (id r)
    /\ db' = <["jobs" := Table (tbl_columns t) (<[k := updated r old]> (tbl_rows t))]> db
    /\ length (jobs_rows db') = length (jobs_rows db).
Proof.
  intros Hpresent Hup.
  apply upsert_ok_inv in Hup as (t & Hlk & _ & Hcase).
  destruct Hcase as [(k & old & Hfind & _ & ->)|(Hfind & _ & _)].
  - apply list_find_Some in Hfind as (Hk & Hid & _).
    exists t, k, old. repeat split; try assumption.
    unfold jobs_rows. rewrite lookup_insert_eq, Hlk. cbn [tbl_rows]. apply length_insert.
  - exfalso. apply Hpresent. unfold rows_with_id, jobs_rows. rewrite Hlk.
    apply filter_none. intros x Hx.
    apply list_find_None in Hfind. rewrite Forall_forall in Hfind. now apply Hfind.
Qed.

(** *** A table whose only constraint is the primary key *)

Lemma existsb_false_intro {A} (f : A -> bool) (l : list A) :
  (forall x, x ∈ l -> f x = false) -> existsb f l = false.
Proof.
  induction l as [|a l IH]; intros H; [reflexivity|].
  cbn [existsb]. rewrite (H a) by left. apply IH. intros x Hx. apply H. now right.
Qed.

Lemma only_id_constrained_elem (t : table) (c : column) :
  only_id_constrained t = true -> c ∈ tbl_columns t ->
  col_not_null c = false
  /\ ((col_primary_key c || col_unique c) = true -> col_name c = "id").
Proof.
  unfold only_id_constrained. intros Hall Hc.
  rewrite forallb_forall in Hall. apply list_elem_of_In in Hc.
  specialize (Hall c Hc). apply andb_true_iff in Hall as [Hnn Hkey].
  split; [now destruct (col_not_null c)|].
  intros Hk. rewrite Hk in Hkey. cbn in Hkey. now apply String.eqb_eq.
Qed.

Lemma no_not_null_violation (t : table) (new : row) :
  only_id_constrained t = true -> violates_not_null t new = false.
Proof.
  intros Hall. unfold violates_not_null. apply existsb_false_intro. intros c Hc.
  destruct (only_id_constrained_elem t c Hall Hc) as [-> _]. reflexivity.
Qed.

Lemma no_unique_violation (t : table) (others : list row) (new : row) :
  only_id_constrained t = true ->
  (forall r', r' ∈ others -> row_get "id" r' <> row_get "id" new) ->
  violates_unique t others new = false.
Proof.
  intros Hall Hid. unfold violates_unique. apply existsb_false_intro. intros c Hc.
  destruct (only_id_constrained_elem t c Hall Hc) as [_ Hname].
  destruct (col_primary_key c || col_unique c) eqn:Hk; [|reflexivity].
  rewrite (Hname eq_refl). apply andb_false_intro2.
  apply existsb_false_intro. intros r' Hr'. apply bool_decide_eq_false_2. now apply Hid.
Qed.

Lemma unique_others {A} (P : A -> Prop) `{!forall x, Decision (P x)}
      (l : list A) (k : nat) (old : A) :
  length (filter P l) <= 1 -> l !! k = Some old -> P old ->
  forall x, x ∈ delete k l -> ~ P x.
Proof.
  intros Hle Hk Hold x Hx HPx.
  pose proof (filter_insert_length P l k old (lookup_lt_Some _ _ _ Hk)) as Hlen.
  rewrite list_insert_id in Hlen by exact Hk.
  rewrite decide_True in Hlen by exact Hold.
  assert (Hnil : filter P (delete k l) = []).
  { apply length_zero_iff_nil. lia. }
  exact (filter_nil_not_elem_of P _ x Hnil HPx Hx).
Qed.

Lemma fetch_shaped_checks (t : table) (r : job_row) :
  fetch_shaped t ->
  forallb (has_column t) (map fst (insert_values r)) = true
  /\ is_key_column t "id" = true
  /\ only_id_constrained t = true.
Proof.
  unfold has_column, is_key_column, only_id_constrained.
  intros [->| ->]; repeat split; reflexivity.
Qed.

Lemma upsert_fetch_shaped_ok (db : database) (r : job_row) (t : table) :
  db !! "jobs" = Some t -> fetch_shaped t -> id_unique db ->
  exists db', upsert db r = Ok db'.
Proof.
  intros Hlk Hshape Huniq.
  destruct (fetch_shaped_checks t r Hshape) as (Hcols & Hkey & Honly).
  unfold upsert. rewrite Hlk, Hcols, Hkey. cbn [negb].
  destruct (list_find _ (tbl_rows t)) as [[k old]|] eqn:Hfind.
  - apply list_find_Some in Hfind as (Hk & Hid & _).
    rewrite no_not_null_violation by exact Honly.
    rewrite no_unique_violation; [eauto|exact Honly|].
    rewrite updated_id, Hid.
    specialize (Huniq (id r)). unfold rows_with_id, jobs_rows in Huniq. rewrite Hlk in Huniq.
    exact (unique_others _ _ k old Huniq Hk Hid).
  - apply list_find_None in Hfind. rewrite Forall_forall in Hfind.
    rewrite no_not_null_violation by exact Honly.
    rewrite no_unique_violation; [eauto|exact Honly|].
    rewrite inserted_id. exact Hfind.
Qed.

Lemma upsert_cli_errors (db : database) (r : job_row) (t : table) (e : exn) :
  db !! "jobs" = Some t -> tbl_columns t = CLI_JOBS_COLUMNS ->
  upsert db r = Err e -> exn_class e = "sqlite3.IntegrityError".
Proof.
  intros Hlk Hcols. unfold upsert. rewrite Hlk.
  unfold has_column, is_key_column. rewrite Hcols.
  change (negb (forallb _ (map fst (insert_values r)))) with false. cbv iota.
  change (negb (existsb _ CLI_JOBS_COLUMNS)) with false. cbv iota.
  destruct (list_find _ _) as [[k old]|];
    destruct (violates_not_null _ _); try (now intros [= <-]);
    destruct (violates_unique _ _ _); try (now intros [= <-]); discriminate.
Qed.

(** C2. A sequence of upserts leaves at most one row per job id. An upsert
    for an id already present never adds a row: when the statement
    succeeds, it has replaced that row in place, the seven columns of the
    [DO UPDATE SET] hold the incoming values and the other columns of the
    row are kept; it always succeeds on the table of
    [fetch_jobs.ensure_schema]. On the table of [cli.SCHEMA] the statement
    can instead raise an integrity error, and the table is then as it
    was. *)
Theorem upsert_never_duplicates :
  forall (db : database) (rs : list job_row),
    id_unique db ->
    (forall i, length (rows_with_id i (upsert_all rs db)) <= 1)
    /\ (forall r, rows_with_id (id r) db <> [] ->
          match upsert db r with
          | Ok db' =>
              exists t k old,
                db !! "jobs" = Some t /\ tbl_rows t !! k = Some old
                /\ row_get "id" old = VText (id r)
                /\ db' = <["jobs" := Table (tbl_columns t)
                                           (<[k := updated r old]> (tbl_rows t))]> db
                /\ length (jobs_rows db') = length (jobs_rows db)
                /\ (forall c v, (c, v) ∈ update_values r -> row_get c (updated r old) = v)
                /\ (forall c, c ∉ map fst (update_values r) -> updated r old !! c = old !! c)
          | Err e =>
              upsert_or_keep db r = db
              /\ exists t, db !! "jobs" = Some t /\ ~ fetch_shaped t
                           /\ (tbl_columns t = CLI_JOBS_COLUMNS ->
                               exn_class e = "sqlite3.IntegrityError")
          end).
Proof.
  intros db rs Huniq. split; [apply upsert_all_id_unique, Huniq|].
  intros r Hpresent. destruct (upsert db r) as [db'|e] eqn:Hup.
  - destruct (upsert_existing_in_place db db' r Hpresent Hup)
      as (t & k & old & Hlk & Hk & Hid & Hdb & Hlen).
    exists t, k, old. pose proof (updated_values r old) as [Hset Hkeep].
    repeat split; assumption.
  - split; [unfold upsert_or_keep; now rewrite Hup|].
    destruct (db !! "jobs") as [t|] eqn:Hlk.
    + exists t. split; [reflexivity|]. split.
      * intros Hshape.
        destruct (upsert_fetch_shaped_ok db r t Hlk Hshape Huniq) as [db' Hok].
        rewrite Hok in Hup. discriminate.
      * intros Hcols. exact (upsert_cli_errors db r t e Hlk Hcols Hup).
    + exfalso. apply Hpresent. unfold rows_with_id, jobs_rows. now rewrite Hlk.
Qed.

Lemma fetch_db_id_unique : id_unique fetch_db.
Proof. intros i. vm_compute. repeat constructor. Qed.

Lemma upsert_never_duplicates_witness :
  (forall i, length (rows_with_id i (upsert_all [job_a; job_b; job_a] fetch_db)) <= 1)
  /\ (forall r, rows_with_id (id r) fetch_db <> [] ->
        match upsert fetch_db r with
        | Ok db' =>
            exists t k old,
              fetch_db !! "jobs" = Some t /\ tbl_rows t !! k = Some old
              /\ row_get "id" old = VText (id r)
              /\ db' = <["jobs" := Table (tbl_columns t)
                                         (<[k := updated r old]> (tbl_rows t))]> fetch_db
              /\ length (jobs_rows db') = length (jobs_rows fetch_db)
              /\ (forall c v, (c, v) ∈ update_values r -> row_get c (updated r old) = v)
              /\ (forall c, c ∉ map fst (update_values r) -> updated r old !! c = old !! c)
        | Err e =>
            upsert_or_keep fetch_db r = fetch_db
            /\ exists t, fetch_db !! "jobs" = Some t /\ ~ fetch_shaped t
                         /\ (tbl_columns t = CLI_JOBS_COLUMNS ->
                             exn_class e = "sqlite3.IntegrityError")
        end).
Proof.
  apply (upsert_never_duplicates fetch_db [job_a; job_b; job_a]).
  intros i. vm_compute. repeat constructor.
Defined.

(** The same job stored twice is one row, holding the values stored
    last. *)
Example upsert_twice_one_row :
  let db := upsert_all [job_b; job_a; job_b_moved] fetch_db in
  length (jobs_rows db) = 2
  /\ map (row_get "url") (rows_with_id (id job_b) db) = [of_opt (url job_b_moved)]
  /\ map (row_get "posted_at") (rows_with_id (id job_b) db) = [of_opt (posted_at job_b_moved)].
Proof. cbv zeta. split; [|split]; vm_compute; reflexivity. Qed.

(** On the table of [cli.SCHEMA] an upsert for a stored id can be rejected:
    the url of another row is UNIQUE. The row keeps its old values. *)
Lemma upsert_existing_id_rejected :
  let db := upsert_all [job_a; job_b] cli_db in
  length (rows_with_id (id job_b_moved) db) = 1
  /\ upsert db job_b_moved = Err (IntegrityError "UNIQUE constraint failed")
  /\ map (row_get "url") (rows_with_id (id job_b_moved) (upsert_or_keep db job_b_moved))
     = [of_opt (url job_b)]
  /\ of_opt (url job_b) <> of_opt (url job_b_moved).
Proof.
  cbv zeta. split; [|split; [|split]]; try (vm_compute; reflexivity). discriminate.
Qed.

(** *** Uniqueness of the url *)

Lemma upsert_or_keep_url_unique (db : database) (r : job_row) :
  (exists t, db !! "jobs" = Some t /\ tbl_columns t = CLI_JOBS_COLUMNS) ->
  url_unique db ->
  (exists t, upsert_or_keep db r !! "jobs" = Some t /\ tbl_columns t = CLI_JOBS_COLUMNS)
  /\ url_unique (upsert_or_keep db r).
Proof.
  intros (t & Hlk & Hcols) Huniq. unfold upsert_or_keep.
  destruct (upsert db r) as [db'|e] eqn:Hup; [|eauto].
  split.
  - apply upsert_ok_inv in Hup as (t' & Hlk' & _ & Hcase).
    rewrite Hlk in Hlk'. injection Hlk' as <-.
    destruct Hcase as [(k & old & _ & _ & ->)|(_ & _ & ->)];
      rewrite lookup_insert_eq; eauto.
  - intros u. apply (upsert_keeps_key_unique "url" db db' r Hup); [|exact Huniq].
    intros t' Hlk'. rewrite Hlk in Hlk'. injection Hlk' as <-.
    unfold is_key_column. rewrite Hcols. reflexivity.
Qed.

Lemma upsert_all_url_unique (rs : list job_row) (db : database) :
  (exists t, db !! "jobs" = Some t /\ tbl_columns t = CLI_JOBS_COLUMNS) ->
  url_unique db -> url_unique (upsert_all rs db).
Proof.
  revert db. induction rs as [|r rs IH]; intros db Hcli Huniq; [exact Huniq|].
  cbn [upsert_all fold_left].
  destruct (upsert_or_keep_url_unique db r Hcli Huniq) as [Hcli' Huniq'].
  now apply IH.
Qed.

(** C3. The store keeps urls unique only when [cli.SCHEMA] created the
    table: there every sequence of upserts leaves at most one row per url.
    The table that [fetch_jobs.ensure_schema] creates has no such
    constraint: two jobs with one url are both stored, and a later
    [ensure_db] leaves that table as it is. *)
Theorem url_unique_only_with_cli_schema :
  (forall rs u, length (rows_with_url u (upsert_all rs cli_db)) <= 1)
  /\ length (rows_with_url "https://boards.greenhouse.io/stripe/jobs/1"
                           (upsert_all [job_a; job_b_moved] fetch_db)) = 2
  /\ map (row_get "id")
         (rows_with_url "https://boards.greenhouse.io/stripe/jobs/1"
                        (upsert_all [job_a; job_b_moved] fetch_db))
     = [VText (id job_a); VText (id job_b_moved)]
  /\ tbl_columns <$> (or_empty (ensure_db (upsert_all [job_a; job_b_moved] fetch_db)) !! "jobs")
     = Some FETCH_JOBS_COLUMNS.
Proof.
  split; [|split; [|split]; vm_compute; reflexivity].
  intros rs. apply upsert_all_url_unique.
  - eexists. split; [vm_compute; reflexivity|reflexivity].
  - intros u. vm_compute. repeat constructor.
Qed.

End UpsertFacts.

(** ** fetch_jobs.py: the fetchers swallow every exception *)

Section FetchFacts.
Import Text Py Store Fetch.











End FetchFacts.

(** ** convert_and_export.py: wrap_line *)

Section WrapFacts.
Import Text Py Paths Convert.
#[local] Open Scope list_scope.

Lemma length_take (n : nat) (s : string) : String.length (take n s) <= n.
Proof.
  revert s. induction n as [|n IH]; intros s; [reflexivity|].
  destruct s as [|c rest]; cbn [take String.length]; [lia|].
  specialize (IH rest). lia.
Qed.

Lemma length_drop (n : nat) (s : string) :
  String.length (drop n s) = String.length s - n.
Proof.
  revert s. induction n as [|n IH]; intros s; cbn [drop]; [lia|].
  destruct s as [|c rest]; cbn [String.length]; [reflexivity|apply IH].
Qed.

Lemma length_lstrip (s : string) : String.length (lstrip s) <= String.length s.
Proof.
  induction s as [|c rest IH]; cbn [lstrip]; [reflexivity|].
  destruct (is_space c); cbn [String.length]; lia.
Qed.

Lemma rfind_before_lt (c : ascii) (stop : nat) (s : string) (i : nat) :
  rfind_before c stop s = Some i -> i < stop.
Proof.
  revert s i. induction stop as [|stop IH]; intros s i; [discriminate|].
  destruct s as [|x rest]; [discriminate|]. cbn [rfind_before].
  destruct (rfind_before c stop rest) as [j|] eqn:Hj.
  - intros [= <-]. specialize (IH rest j Hj). lia.
  - destruct (Ascii.eqb x c); [intros [= <-]; lia|discriminate].
Qed.

(** A cut at 0 means that the line starts with the character looked for. *)
Lemma rfind_before_zero (c : ascii) (stop : nat) (s : string) :
  rfind_before c stop s = Some 0 -> exists rest, s = String c rest.
Proof.
  destruct stop as [|stop]; [discriminate|].
  destruct s as [|x rest]; [discriminate|]. cbn [rfind_before].
  destruct (rfind_before c stop rest); [discriminate|].
  destruct (Ascii.eqb x c) eqn:Hx; [|discriminate].
  apply Ascii.eqb_eq in Hx. subst x. eauto.
Qed.

(** Each iteration strictly shortens the line. *)
Lemma remaining_shorter (max_chars : nat) (line : string) :
  1 <= max_chars -> max_chars < String.length line ->
  String.length (remaining max_chars line) < String.length line.
Proof.
  intros Hmax Hlong. unfold remaining.
  destruct (rfind_before " " max_chars line) as [[|i]|] eqn:Hcut.
  - apply rfind_before_zero in Hcut as [rest ->].
    cbn [drop lstrip]. change (is_space " ") with true. cbv iota.
    pose proof (length_lstrip rest). cbn [String.length]. lia.
  - pose proof (length_lstrip (drop (S i) line)) as Hl.
    rewrite length_drop in Hl. lia.
  - pose proof (length_lstrip (drop max_chars line)) as Hl.
    rewrite length_drop in Hl. lia.
Qed.

Lemma cut_le (max_chars : nat) (line : string) :
  match rfind_before " " max_chars line with Some i => i | None => max_chars end
  <= max_chars.
Proof.
  destruct (rfind_before " " max_chars line) as [i|] eqn:Hcut; [|reflexivity].
  apply rfind_before_lt in Hcut. lia.
Qed.

Lemma wrap_loop_enough (max_chars : nat) :
  1 <= max_chars ->
  forall fuel line chunks,
    String.length line < fuel ->
    exists more,
      wrap_loop fuel max_chars line chunks = Some (chunks ++ more)
      /\ more <> []
      /\ Forall (fun c => String.length c <= max_chars) more.
Proof.
  intros Hmax. induction fuel as [|fuel IH]; intros line chunks Hfuel; [lia|].
  cbn [wrap_loop]. destruct (max_chars <? String.length line)%nat eqn:Hlong.
  - apply Nat.ltb_lt in Hlong.
    pose proof (remaining_shorter max_chars line Hmax Hlong) as Hshort.
    unfold remaining in Hshort.
    set (cut := match rfind_before " " max_chars line with
                | Some i => i | None => max_chars end) in *.
    destruct (IH (lstrip (drop cut line)) (chunks ++ [take cut line])) as (more & Hrun & Hne & Hall);
      [lia|].
    exists (take cut line :: more). rewrite Hrun, <- app_assoc. split; [reflexivity|].
    split; [discriminate|]. constructor; [|exact Hall].
    pose proof (length_take cut line). pose proof (cut_le max_chars line). fold cut in H0. lia.
  - apply Nat.ltb_ge in Hlong. exists [line]. split; [reflexivity|].
    split; [discriminate|]. constructor; [exact Hlong|constructor].
Qed.

(** More fuel does not change a result. *)
Lemma wrap_loop_more_fuel (max_chars : nat) :
  forall fuel line chunks result,
    wrap_loop fuel max_chars line chunks = Some result ->
    forall fuel', fuel <= fuel' -> wrap_loop fuel' max_chars line chunks = Some result.
Proof.
  induction fuel as [|fuel IH]; intros line chunks result Hrun fuel' Hle; [discriminate|].
  destruct fuel' as [|fuel']; [lia|]. cbn [wrap_loop] in *.
  destruct (max_chars <? String.length line)%nat; [|exact Hrun].
  apply (IH _ _ _ Hrun). lia.
Qed.

(** C10. For [max_chars >= 1], [wrap_line] terminates: with fuel for one
    iteration per character and one more, the loop ends, and more fuel
    gives the same list. The list is not empty and no chunk is longer than
    [max_chars]. The reason is that an iteration leaves a strictly shorter
    line. *)
Theorem wrap_line_terminates :
  forall (line : string) (max_chars : nat),
    1 <= max_chars ->
    exists chunks,
      (forall fuel, String.length line < fuel -> wrap_line fuel line max_chars = Some chunks)
      /\ chunks <> []
      /\ Forall (fun c => String.length c <= max_chars) chunks
      /\ (max_chars < String.length line ->
          String.length (remaining max_chars line) < String.length line).
Proof.
  intros line max_chars Hmax.
  destruct (wrap_loop_enough max_chars Hmax (S (String.length line)) line [])
    as (chunks & Hrun & Hne & Hall); [lia|].
  exists chunks. split; [|split; [exact Hne|split; [exact Hall|]]].
  - intros fuel Hfuel. unfold wrap_line.
    apply (wrap_loop_more_fuel max_chars _ _ _ _ Hrun). lia.
  - now apply remaining_shorter.
Qed.

Lemma wrap_line_terminates_witness :
  exists chunks,
    (forall fuel, String.length "to be or not to be" < fuel ->
                  wrap_line fuel "to be or not to be" 7 = Some chunks)
    /\ chunks <> []
    /\ Forall (fun c => String.length c <= 7) chunks
    /\ (7 < String.length "to be or not to be" ->
        String.length (remaining 7 "to be or not to be") < String.length "to be or not to be").
Proof. apply (wrap_line_terminates "to be or not to be" 7). lia. Defined.

Example wrap_line_example :
  wrap_line 19 "to be or not to be" 7 = Some ["to be"; "or not"; "to be"].
Proof. reflexivity. Qed.

(** With [max_chars = 0] the loop makes no progress on a line that does not
    start with white space: no amount of fuel is enough. *)
Remark wrap_line_zero_diverges :
  forall fuel, wrap_line fuel "a" 0 = None.
Proof.
  intros fuel. unfold wrap_line. generalize (@nil string) as chunks.
  induction fuel as [|fuel IH]; intros chunks; [reflexivity|]. cbn. apply IH.
Qed.

End WrapFacts.

(** ** The failures that abort a command *)

Section AbortFacts.
Import Text Py Paths Store Convert.

Lemma get_job_absent (db : database) (job_id : string) (t : table) :
  db !! "jobs" = Some t -> rows_with_id job_id db = [] ->
  get_job db job_id = Err (ValueError ("Job not found: " ++ job_id)).
Proof.
  unfold get_job, select_one, rows_with_id, jobs_rows. intros ->. cbn [bind].
  now intros ->.
Qed.

(** The resume path that is looked for does not exist. *)
Lemma resolve_resume_missing (w : world) (fs : files) (db : database)
      (job_id docs_dir : string) (r0 c0 : option string) :
  _get_md_paths_from_db job_id db = Ok (r0, c0) ->
  usable_md w fs r0 = false ->
  path_exists w (fst (_default_md_paths job_id docs_dir)) fs = false ->
  _resolve_md_paths w fs db job_id docs_dir
  = Err (FileNotFoundError ("Resume MD not found: " ++ fst (_default_md_paths job_id docs_dir))).
Proof.
  intros Hdb Hres Hmissing. unfold _resolve_md_paths. rewrite Hdb. cbn [bind].
  rewrite Hres. cbn [negb]. destruct (_default_md_paths job_id docs_dir) as [rd cd].
  cbn [fst] in *. cbn [checked_exists bind]. rewrite Hmissing. reflexivity.
Qed.

(** The cover path that is looked for does not exist: the default one, or
    the stored one beside a stored resume. *)
Lemma resolve_cover_missing (w : world) (fs : files) (db : database)
      (job_id docs_dir : string) (r0 c0 : option string) :
  _get_md_paths_from_db job_id db = Ok (r0, c0) ->
  (usable_md w fs r0 = false ->
   path_exists w (fst (_default_md_paths job_id docs_dir)) fs = true ->
   usable_md w fs c0 = false ->
   path_exists w (snd (_default_md_paths job_id docs_dir)) fs = false ->
   _resolve_md_paths w fs db job_id docs_dir
   = Err (FileNotFoundError ("Cover MD not found: " ++ snd (_default_md_paths job_id docs_dir))))
  /\ (forall c, usable_md w fs r0 = true -> c0 = Some c -> path_exists w c fs = false ->
        _resolve_md_paths w fs db job_id docs_dir
        = Err (FileNotFoundError ("Cover MD not found: " ++ c))).
Proof.
  intros Hdb. unfold _resolve_md_paths. rewrite Hdb. cbn [bind]. split.
  - intros Hres Hrd Hcov Hcd. rewrite Hres, Hcov. cbn [negb].
    destruct (_default_md_paths job_id docs_dir) as [rd cd]. cbn [fst snd] in *.
    cbn [checked_exists bind]. rewrite Hrd. cbn [negb bind]. rewrite Hcd. reflexivity.
  - intros c Hres -> Hc. rewrite Hres. cbn [negb].
    destruct r0 as [r|]; [|discriminate]. cbn [usable_md] in Hres.
    apply andb_true_iff in Hres as [Hr _].
    cbn [checked_exists bind]. rewrite Hr. cbn [negb bind]. rewrite Hc. reflexivity.
Qed.

(** A raise of the preferred renderer is caught: the fallback renderer
    runs on the files the preferred one has left. *)
Lemma render_pdf_pretty_raises (w : world) (md_path pdf_path : string) (fs fs1 : files)
      (e0 : exn) :
  md_to_pdf_pretty w md_path pdf_path fs = (fs1, Err e0) ->
  render_pdf w md_path pdf_path fs = md_to_pdf_simple w md_path pdf_path fs1.
Proof. intros H. unfold render_pdf, mbind, try_except, ret. now rewrite H. Qed.

Lemma render_pdf_pretty_false (w : world) (md_path pdf_path : string) (fs fs1 : files) :
  md_to_pdf_pretty w md_path pdf_path fs = (fs1, Ok false) ->
  render_pdf w md_path pdf_path fs = md_to_pdf_simple w md_path pdf_path fs1.
Proof. intros H. unfold render_pdf, mbind, try_except, ret. now rewrite H. Qed.

Lemma ensure_pdf_render_raises (w : world) (md_path pdf_path : string) (fs fs' : files)
      (e : exn) :
  path_exists w md_path fs = true -> with_suffix md_path ".pdf" = Some pdf_path ->
  render_pdf w md_path pdf_path fs = (fs', Err e) ->
  ensure_pdf_from_md w md_path fs = (fs', Err e).
Proof.
  intros Hmd Hpdf Hrender. unfold ensure_pdf_from_md, mbind.
  now rewrite Hmd, Hpdf, Hrender.
Qed.

Lemma ensure_pdf_no_pdf (w : world) (md_path pdf_path : string) (fs fs' : files) :
  path_exists w md_path fs = true -> with_suffix md_path ".pdf" = Some pdf_path ->
  render_pdf w md_path pdf_path fs = (fs', Ok tt) ->
  path_exists w pdf_path fs' = false ->
  ensure_pdf_from_md w md_path fs
  = (fs', Err (RuntimeError ("Failed to create PDF for " ++ md_path))).
Proof.
  intros Hmd Hpdf Hrender Hmissing. unfold ensure_pdf_from_md, mbind.
  now rewrite Hmd, Hpdf, Hrender, Hmissing.
Qed.

(** C5. The missing lookups abort the command: a job id that is not in
    [jobs] raises [ValueError], and a required file that is not on disk
    raises too, [FileNotFoundError] for a resume or cover Markdown file in
    [_resolve_md_paths] and in [ensure_pdf_from_md], [RuntimeError] for
    the PDF that is not there after the rendering. They are not the only
    failures that do: [ensure_pdf_from_md] passes on every exception of
    the fallback renderer. An exception of the preferred renderer is
    caught there: the fallback renderer runs as it does when the preferred
    one returns False. *)
Theorem failures_that_abort :
  forall (w : world) (fs : files) (db : database) (job_id docs_dir md_path : string),
    (forall t, db !! "jobs" = Some t -> rows_with_id job_id db = [] ->
       get_job db job_id = Err (ValueError ("Job not found: " ++ job_id)))
    /\ (forall r0 c0,
          _get_md_paths_from_db job_id db = Ok (r0, c0) ->
          (usable_md w fs r0 = false ->
           path_exists w (fst (_default_md_paths job_id docs_dir)) fs = false ->
           _resolve_md_paths w fs db job_id docs_dir
           = Err (FileNotFoundError
                    ("Resume MD not found: " ++ fst (_default_md_paths job_id docs_dir))))
          /\ (usable_md w fs r0 = false ->
              path_exists w (fst (_default_md_paths job_id docs_dir)) fs = true ->
              usable_md w fs c0 = false ->
              path_exists w (snd (_default_md_paths job_id docs_dir)) fs = false ->
              _resolve_md_paths w fs db job_id docs_dir
              = Err (FileNotFoundError
                       ("Cover MD not found: " ++ snd (_default_md_paths job_id docs_dir))))
          /\ (forall c, usable_md w fs r0 = true -> c0 = Some c ->
                        path_exists w c fs = false ->
                        _resolve_md_paths w fs db job_id docs_dir
                        = Err (FileNotFoundError ("Cover MD not found: " ++ c))))
    /\ (path_exists w md_path fs = false ->
        ensure_pdf_from_md w md_path fs = (fs, Err (FileNotFoundError md_path)))
    /\ (forall pdf_path,
          path_exists w md_path fs = true -> with_suffix md_path ".pdf" = Some pdf_path ->
          (forall fs1 e0,
              md_to_pdf_pretty w md_path pdf_path fs = (fs1, Err e0) ->
              render_pdf w md_path pdf_path fs = md_to_pdf_simple w md_path pdf_path fs1)
          /\ (forall fs1 fs' e,
                md_to_pdf_pretty w md_path pdf_path fs = (fs1, Ok false)
                \/ (exists e0, md_to_pdf_pretty w md_path pdf_path fs = (fs1, Err e0)) ->
                md_to_pdf_simple w md_path pdf_path fs1 = (fs', Err e) ->
                ensure_pdf_from_md w md_path fs = (fs', Err e))
          /\ (forall fs',
                render_pdf w md_path pdf_path fs = (fs', Ok tt) ->
                path_exists w pdf_path fs' = false ->
                ensure_pdf_from_md w md_path fs
                = (fs', Err (RuntimeError ("Failed to create PDF for " ++ md_path))))).
Proof.
  intros w fs db job_id docs_dir md_path.
  split; [apply get_job_absent|]. split; [|split].
  - intros r0 c0 Hdb. split; [now apply resolve_resume_missing with (c0 := c0)|].
    now apply resolve_cover_missing.
  - intros Hmd. unfold ensure_pdf_from_md. now rewrite Hmd.
  - intros pdf_path Hmd Hpdf. split; [|split].
    + intros fs1 e0. apply render_pdf_pretty_raises.
    + intros fs1 fs' e Hpretty Hsimple.
      apply (ensure_pdf_render_raises w md_path pdf_path); [assumption|assumption|].
      destruct Hpretty as [Hfalse|[e0 Hraise]].
      * now rewrite (render_pdf_pretty_false _ _ _ _ _ Hfalse).
      * now rewrite (render_pdf_pretty_raises _ _ _ _ _ _ Hraise).
    + intros fs'. now apply ensure_pdf_no_pdf.
Qed.

Lemma failures_that_abort_witness :
  get_job cli_db "greenhouse:stripe:9"
  = Err (ValueError "Job not found: greenhouse:stripe:9")
  /\ _resolve_md_paths read_only one_resume cli_db "greenhouse:stripe:1" "docs"
     = Err (FileNotFoundError "Cover MD not found: docs/greenhouse_stripe_1_cover.md")
  /\ ensure_pdf_from_md read_only "docs/greenhouse_stripe_1_cover.md" one_resume
     = (one_resume, Err (FileNotFoundError "docs/greenhouse_stripe_1_cover.md")).
Proof.
  split; [|split].
  - apply (proj1 (failures_that_abort read_only one_resume cli_db "greenhouse:stripe:9" "docs"
                                      "docs/greenhouse_stripe_1_resume.md"))
      with (t := Table CLI_JOBS_COLUMNS []); vm_compute; reflexivity.
  - apply (proj1 (proj2 (proj1 (proj2
             (failures_that_abort read_only one_resume cli_db "greenhouse:stripe:1" "docs"
                                  "docs/greenhouse_stripe_1_resume.md")) None None eq_refl)));
      vm_compute; reflexivity.
  - apply (proj1 (proj2 (proj2
             (failures_that_abort read_only one_resume cli_db "greenhouse:stripe:1" "docs"
                                  "docs/greenhouse_stripe_1_cover.md"))));
      vm_compute; reflexivity.
Defined.

(** The Markdown file is there and the output cannot be written: the
    command is aborted by an exception that is no missing lookup. *)
Lemma render_failure_propagates :
  path_exists read_only "docs/greenhouse_stripe_1_resume.md" one_resume = true
  /\ snd (ensure_pdf_from_md read_only "docs/greenhouse_stripe_1_resume.md" one_resume)
     = Err (Exn "PermissionError" "docs/greenhouse_stripe_1_resume.pdf").
Proof. split; vm_compute; reflexivity. Qed.

End AbortFacts.
(** ** apply_assist.py: the file that is picked for an upload *)

Section PathFacts.
Import Text Py Paths Apply.
#[local] Open Scope list_scope.

Lemma split_on_cons (sep : ascii) (s : string) :
  exists first others, split_on sep s = first :: others.
Proof.
  induction s as [|c rest IH]; cbn [split_on]; [eauto|].
  destruct (Ascii.eqb c sep); [eauto|].
  destruct IH as (first & others & ->). eauto.
Qed.

Lemma split_on_no_sep (sep : ascii) (s : string) :
  Forall (fun c => has_char sep c = false) (split_on sep s).
Proof.
  induction s as [|c rest IH]; cbn [split_on]; [repeat constructor|].
  destruct (Ascii.eqb c sep) eqn:Hc; [constructor; [reflexivity|exact IH]|].
  destruct (split_on sep rest) as [|first others]; [repeat constructor; cbn; now rewrite Hc|].
  inversion IH as [|? ? Hfirst Hothers]; subst.
  constructor; [cbn; now rewrite Hc|exact Hothers].
Qed.

Lemma split_on_app_sep (sep : ascii) (x t : string) :
  has_char sep x = false ->
  split_on sep (x +:+ String sep t) = x :: split_on sep t.
Proof.
  induction x as [|c x IH]; intros Hx.
  - change ("" +:+ String sep t) with (String sep t). cbn [split_on].
    now rewrite Ascii.eqb_refl.
  - change (String c x +:+ String sep t) with (String c (x +:+ String sep t)).
    cbn [split_on]. cbn [has_char] in Hx. apply orb_false_iff in Hx as [Hc Hx].
    rewrite Hc, (IH Hx). reflexivity.
Qed.

Lemma split_on_whole (sep : ascii) (x : string) :
  has_char sep x = false -> split_on sep x = [x].
Proof.
  induction x as [|c x IH]; intros Hx; cbn [split_on]; [reflexivity|].
  cbn [has_char] in Hx. apply orb_false_iff in Hx as [Hc Hx].
  now rewrite Hc, (IH Hx).
Qed.

Lemma split_on_join (l : list string) :
  Forall (fun c => has_char "/" c = false) l -> l <> [] ->
  split_on "/" (join "/" l) = l.
Proof.
  induction l as [|x l IH]; intros Hall Hne; [congruence|].
  inversion Hall as [|? ? Hx Hl]; subst.
  destruct l as [|y l]; [now apply split_on_whole|].
  change (join "/" (x :: y :: l)) with (x +:+ String "/" (join "/" (y :: l))).
  rewrite (split_on_app_sep "/" x _ Hx). f_equal. apply IH; [exact Hl|discriminate].
Qed.

Lemma parts_components (p : string) : Forall component (parts p).
Proof.
  unfold parts. apply Forall_forall. intros c Hc.
  apply list_elem_of_filter in Hc as [[Hne Hdot] Hin].
  pose proof (split_on_no_sep "/" p) as Hall. rewrite Forall_forall in Hall.
  repeat split; auto.
Qed.

Lemma filter_components (l : list string) :
  Forall component l -> filter (fun c => c <> "" /\ c <> ".") l = l.
Proof.
  induction 1 as [|c l' [_ [Hne Hdot]] _ IH]; [reflexivity|].
  rewrite filter_cons_True by now split. now rewrite IH.
Qed.

(** Reading back a rendered absolute path gives its components. *)
Lemma parts_render (l : list string) :
  Forall component l -> parts (render true l) = l.
Proof.
  intros Hall. unfold parts, render.
  change ("/" +:+ join "/" l) with (String "/" (join "/" l)).
  cbn [split_on]. change (Ascii.eqb "/" "/") with true. cbv iota.
  rewrite filter_cons_False by (intros [H _]; now apply H).
  destruct l as [|x l]; [reflexivity|].
  rewrite split_on_join; [|eapply Forall_impl; [exact Hall|now intros c [H _]]|discriminate].
  now apply filter_components.
Qed.

Lemma norm_step_components (stack : list string) (c : string) :
  Forall component stack -> component c -> Forall component (norm_step stack c).
Proof.
  intros Hs Hc. unfold norm_step. destruct (String.eqb c "..").
  - destruct stack; [constructor|]. now inversion Hs.
  - now constructor.
Qed.

Lemma fold_norm_components (cs stack : list string) :
  Forall component cs -> Forall component stack ->
  Forall component (fold_left norm_step cs stack).
Proof.
  revert stack. induction cs as [|c cs IH]; intros stack Hcs Hs; [exact Hs|].
  inversion Hcs; subst. cbn [fold_left]. apply IH; [assumption|].
  now apply norm_step_components.
Qed.

(** [abspath] keeps the last component when it is a name. *)
Lemma name_abspath (cwd : list string) (p : string) :
  Forall component cwd -> name p <> "" -> name p <> ".." ->
  name (abspath cwd p) = name p.
Proof.
  intros Hcwd Hne Hup. unfold name in *.
  pose proof (parts_components p) as Hparts.
  destruct (parts p) as [|n before _] eqn:Hp using rev_ind; [now destruct Hne|].
  rewrite last_last in *. unfold abspath. rewrite Hp, fold_left_app. cbn [fold_left].
  unfold norm_step at 1. destruct (String.eqb n "..") eqn:Hn;
    [apply String.eqb_eq in Hn; contradiction|].
  apply Forall_app in Hparts as [Hbefore Hn']. inversion Hn'; subst.
  cbn [List.rev]. rewrite parts_render.
  - apply last_last.
  - apply Forall_app. split; [|exact Hn'].
    apply Forall_rev. apply fold_norm_components; [exact Hbefore|].
    destruct (anchored p); [constructor|now apply Forall_rev].
Qed.

Lemma suffix_of_name_nonempty (n : string) :
  suffix_of_name n <> "" -> n <> "" /\ n <> "..".
Proof. intros H. split; intros ->; now apply H. Qed.

Lemma suffix_abspath (o : os) (p : string) :
  suffix p <> "" -> suffix (os_abspath o p) = suffix p.
Proof.
  intros Hs. unfold suffix in *. apply suffix_of_name_nonempty in Hs as [Hne Hup].
  unfold os_abspath. rewrite name_abspath; auto using parts_components.
Qed.

Lemma ok_inv (o : os) (path : option string) :
  ok o path = true ->
  exists p, path = Some p /\ os_exists o p = true
            /\ lower (suffix p) ∈ ALLOWED_UPLOAD_EXTS /\ suffix p <> "".
Proof.
  destruct path as [p|]; [|discriminate]. cbn [ok]. intros H.
  apply andb_true_iff in H as [H Hext]. apply andb_true_iff in H as [_ Hex].
  apply bool_decide_eq_true in Hext.
  exists p. repeat split; auto.
  intros Hempty. rewrite Hempty in Hext. cbn in Hext.
  repeat (apply elem_of_cons in Hext as [Hext|Hext]; [discriminate|]). inversion Hext.
Qed.

(** C9. A path returned by [_pick_valid_upload] is the absolute form of
    the database path or of the environment's path; that candidate exists,
    and the extension, of the candidate and of the returned path alike, is
    in lower case one of [.pdf], [.doc], [.docx], [.rtf]. When the database
    path passes the test it is the one returned, whatever the environment
    says. *)
Theorem pick_valid_upload_sound :
  forall (o : os) (db_path : option string) (env_name : string),
    (forall r, _pick_valid_upload o db_path env_name = Some r ->
       exists p, (db_path = Some p \/ (ok o db_path = false /\ os_getenv o env_name = Some p))
                 /\ r = os_abspath o p
                 /\ os_exists o p = true
                 /\ lower (suffix p) ∈ ALLOWED_UPLOAD_EXTS
                 /\ lower (suffix r) ∈ ALLOWED_UPLOAD_EXTS)
    /\ (ok o db_path = true ->
        exists p, db_path = Some p
                  /\ _pick_valid_upload o db_path env_name = Some (os_abspath o p)).
Proof.
  intros o db_path env_name. unfold _pick_valid_upload. split.
  - intros r. destruct (ok o db_path) eqn:Hdb.
    + destruct (ok_inv o db_path Hdb) as (p & -> & Hex & Hext & Hs).
      change (os_abspath o <$> Some p) with (Some (os_abspath o p)).
      intros [= <-]. exists p. rewrite (suffix_abspath o p Hs). auto 10.
    + cbv zeta. destruct (ok o (os_getenv o env_name)) eqn:Henv; [|discriminate].
      destruct (ok_inv o _ Henv) as (p & Hp & Hex & Hext & Hs).
      rewrite Hp. change (os_abspath o <$> Some p) with (Some (os_abspath o p)).
      intros [= <-]. exists p. rewrite (suffix_abspath o p Hs). auto 10.
  - intros Hdb. rewrite Hdb.
    destruct (ok_inv o db_path Hdb) as (p & -> & _). eauto.
Qed.

Lemma pick_valid_upload_sound_witness :
  exists p, (Some "docs/Resume.PDF" = Some p
             \/ (ok desk (Some "docs/Resume.PDF") = false
                 /\ os_getenv desk "RESUME_FILE" = Some p))
            /\ "/home/jordan/apply/docs/Resume.PDF" = os_abspath desk p
            /\ os_exists desk p = true
            /\ lower (suffix p) ∈ ALLOWED_UPLOAD_EXTS
            /\ lower (suffix "/home/jordan/apply/docs/Resume.PDF") ∈ ALLOWED_UPLOAD_EXTS.
Proof.
  apply (proj1 (pick_valid_upload_sound desk (Some "docs/Resume.PDF") "RESUME_FILE")).
  vm_compute. reflexivity.
Defined.

(** The environment's path is not usable here (a text file), and no path
    at all is picked without a usable database path. *)
Example pick_valid_upload_none :
  _pick_valid_upload desk None "RESUME_FILE" = None
  /\ _pick_valid_upload desk (Some "docs/Resume.PDF") "RESUME_FILE"
     = Some "/home/jordan/apply/docs/Resume.PDF".
Proof. split; vm_compute; reflexivity. Qed.

(** The path that is returned need not exist: [os.path.abspath] removes
    [link/..] from the text of the path, where the file system follows
    the link first. *)
Lemma pick_valid_upload_returns_missing :
  ok linked (Some "link/../cv.pdf") = true
  /\ _pick_valid_upload linked (Some "link/../cv.pdf") "RESUME_FILE"
     = Some "/home/jordan/apply/cv.pdf"
  /\ os_exists linked "/home/jordan/apply/cv.pdf" = false.
Proof. split; [|split]; vm_compute; reflexivity. Qed.

End PathFacts.

(** ** apply_assist.py: the upload cascade *)

Section CallFacts.
Import Text Py Paths Re Apply.
#[local] Open Scope list_scope.

(** *** Lists of calls *)

Lemma stops_after_success_app (sel : event -> bool) (l1 l2 : list event) :
  stops_after_success sel l1 = true ->
  stops_after_success sel l2 = true ->
  existsb (fun e => sel e && succeeded e) l1 = false \/ existsb sel l2 = false ->
  stops_after_success sel (l1 ++ l2) = true.
Proof.
  intros H1 H2 Hor. induction l1 as [|e l1 IH]; [exact H2|].
  cbn [app stops_after_success existsb] in *.
  apply andb_true_iff in H1 as [He H1]. apply andb_true_iff. split.
  - destruct (sel e && succeeded e) eqn:Hse; [|reflexivity].
    destruct Hor as [Hor|Hor]; [discriminate|].
    rewrite existsb_app, Hor, orb_false_r. exact He.
  - apply IH; [exact H1|]. destruct Hor as [Hor|Hor]; [left|now right].
    now apply orb_false_iff in Hor as [_ Hor].
Qed.

(** What the check on a list of calls says. *)
Lemma stops_after_success_sound (sel : event -> bool) (l : list event) :
  stops_after_success sel l = true ->
  forall before e after,
    l = before ++ e :: after -> sel e = true -> succeeded e = true ->
    forall e', e' ∈ after -> sel e' = false.
Proof.
  intros Hstop before. revert l Hstop.
  induction before as [|x before IH]; intros l Hstop e after -> Hsel Hdone e' He'.
  - cbn [app stops_after_success] in Hstop. rewrite Hsel, Hdone in Hstop.
    apply andb_true_iff in Hstop as [Hnone _]. apply negb_true_iff in Hnone.
    destruct (sel e') eqn:He; [|reflexivity].
    assert (existsb sel after = true); [|congruence].
    apply existsb_exists. exists e'. split; [now apply list_elem_of_In|exact He].
  - cbn [app stops_after_success] in Hstop. apply andb_true_iff in Hstop as [_ Hstop].
    now apply (IH _ Hstop e after eq_refl).
Qed.

(** What [List.find] finds. *)
Lemma first_such_find {A : Type} (test : A -> bool) (l : list A) :
  first_such test l (List.find test l).
Proof.
  induction l as [|x l IH]; cbn [List.find]; [constructor|].
  destruct (test x) eqn:Hx.
  - exists [], l. repeat split; [constructor|exact Hx].
  - destruct (List.find test l) as [y|]; cbn [first_such] in *.
    + destruct IH as (before & after & -> & Hbefore & Hy).
      exists (x :: before), after. repeat split; [now constructor|exact Hy].
    + now constructor.
Qed.

(** [flag] tells whether an attempt selected by [sel] has succeeded in [l],
    and no such attempt follows a success. *)
Lemma settled_nil (sel : event -> bool) :
  stops_after_success sel [] = true
  /\ existsb (fun e => sel e && succeeded e) [] = false.
Proof. now split. Qed.

(** Calls that [sel] does not select change nothing. *)
Lemma settled_other (sel : event -> bool) (flag : bool) (l seg : list event) :
  stops_after_success sel l = true /\ existsb (fun e => sel e && succeeded e) l = flag ->
  existsb sel seg = false ->
  stops_after_success sel (l ++ seg) = true
  /\ existsb (fun e => sel e && succeeded e) (l ++ seg) = flag.
Proof.
  intros [Hstop Hflag] Hnone.
  assert (Hseg : forall l', existsb sel l' = false ->
             stops_after_success sel l' = true
             /\ existsb (fun e => sel e && succeeded e) l' = false).
  { induction l' as [|e l' IH]; [now split|]. cbn [existsb stops_after_success].
    intros H. apply orb_false_iff in H as [He Hl']. rewrite He. cbn [andb orb].
    now apply IH. }
  destruct (Hseg seg Hnone) as [Hs Hf]. split.
  - apply stops_after_success_app; auto.
  - now rewrite existsb_app, Hflag, Hf, orb_false_r.
Qed.

(** A step that makes no selected call after a success, and none at all
    when the flag is set before it. *)
Lemma settled_step (sel : event -> bool) (before after : bool) (l seg : list event) :
  stops_after_success sel l = true /\ existsb (fun e => sel e && succeeded e) l = before ->
  stops_after_success sel seg = true ->
  (before = true -> existsb sel seg = false) ->
  after = before || existsb (fun e => sel e && succeeded e) seg ->
  stops_after_success sel (l ++ seg) = true
  /\ existsb (fun e => sel e && succeeded e) (l ++ seg) = after.
Proof.
  intros [Hstop Hflag] Hseg Hnone ->. split.
  - apply stops_after_success_app; auto. destruct before; [right; auto|now left].
  - now rewrite existsb_app, Hflag.
Qed.

(** *** The calls of a loop over selectors *)

Lemma selector_calls_settled (act : string -> bool -> event) (sel : event -> bool)
      (sels : list string) (seg : list event) (flag : bool) :
  (forall s d, sel (act s d) = true /\ succeeded (act s d) = d) ->
  selector_calls act sels seg flag ->
  stops_after_success sel seg = true
  /\ existsb (fun e => sel e && succeeded e) seg = flag.
Proof.
  intros Hact Hcalls. induction Hcalls as [|s n rest seg flag Hn _ [IH1 IH2]
                                            |s n rest seg flag Hn _ [IH1 IH2]|s n rest Hn].
  - now split.
  - cbn [stops_after_success existsb succeeded]. rewrite andb_false_r. cbn [orb andb].
    now split.
  - destruct (Hact s false) as [Hs Hd].
    cbn [stops_after_success existsb succeeded]. rewrite andb_false_r, Hs, Hd. cbn [orb andb].
    now split.
  - destruct (Hact s true) as [Hs Hd].
    cbn [stops_after_success existsb succeeded]. rewrite andb_false_r, Hs, Hd. cbn.
    now split.
Qed.

Lemma selector_calls_only (act : string -> bool -> event) (sel : event -> bool)
      (sels : list string) (seg : list event) (flag : bool) :
  (forall s n, sel (Count s n) = false) -> (forall s d, sel (act s d) = false) ->
  selector_calls act sels seg flag -> existsb sel seg = false.
Proof.
  intros Hcount Hact Hcalls. induction Hcalls; cbn [existsb];
    rewrite ?Hcount, ?Hact, ?IHHcalls; reflexivity.
Qed.

End CallFacts.

Section UploadFacts.
Import Text Py Paths Re Apply.
#[local] Open Scope list_scope.
Context {dom : Type} (b : browser dom).

Lemma mbind_ok {S A B : Type} (m : M S A) (k : A -> M S B) (s s' : S) (a : A) :
  m s = (s', Ok a) -> mbind m k s = k a s'.
Proof. intros H. unfold mbind. now rewrite H. Qed.

Lemma mbind_err {S A B : Type} (m : M S A) (k : A -> M S B) (s s' : S) (e : exn) :
  m s = (s', Err e) -> mbind m k s = (s', Err e).
Proof. intros H. unfold mbind. now rewrite H. Qed.

Lemma acting_run (act : dom -> dom * result unit) (ev : bool -> event) (s : session dom) :
  exists d done, acting act ev s = (Session d (calls s ++ [ev done]), Ok done)
                 /\ acted (act (page s)) done d.
Proof.
  unfold acting, acted. destruct (act (page s)) as [d r]. exists d, (is_ok r). auto.
Qed.

Lemma reading_run {A : Type} (read : dom -> result A) (ev : option A -> event)
      (s : session dom) :
  exists o, reading read ev s = (Session (page s) (calls s ++ [ev o]), Ok o)
            /\ o = heard (read (page s)).
Proof. unfold reading. eauto. Qed.

(** *** Calls that agree with the page *)

Lemma agrees_app (d d1 d2 : dom) (l1 l2 : list event) :
  agrees b d l1 d1 -> agrees b d1 l2 d2 -> agrees b d (l1 ++ l2) d2.
Proof.
  intros H1 H2. induction H1 as [|? ? ? ? ? Hcall _ IH]; [exact H2|].
  cbn [app]. econstructor; [exact Hcall|now apply IH].
Qed.

Lemma agrees_one (d d1 : dom) (e : event) : call_on b d e d1 -> agrees b d [e] d1.
Proof. intros H. econstructor; [exact H|constructor]. Qed.

(** *** The known selectors *)

Lemma try_selectors_run (kind path : string) (sels : list string) :
  forall s, exists seg flag d,
    try_selectors b kind path sels s = (Session d (calls s ++ seg), Ok flag)
    /\ selector_calls (fun sel done => Upload Known kind (BySelector sel) path done)
                      sels seg flag
    /\ agrees b (page s) seg d.
Proof.
  induction sels as [|sel rest IH]; intros s.
  - exists [], false, (page s). rewrite app_nil_r.
    split; [now destruct s|]. split; constructor.
  - cbn [try_selectors].
    destruct (reading_run (fun d => locator_count b d sel) (Count sel) s) as (n & Hread & Hn).
    rewrite (mbind_ok _ _ _ _ _ Hread).
    assert (Hcount : call_on b (page s) (Count sel n) (page s)) by now split.
    destruct (0 <? default 0 n)%nat eqn:Hpos.
    + destruct n as [n|]; [|discriminate].
      change (default 0 (Some n)) with n in Hpos. apply Nat.ltb_lt in Hpos.
      destruct (acting_run (fun d => locator_set_input_files b d sel path)
                           (Upload Known kind (BySelector sel) path)
                           (Session (page s) (calls s ++ [Count sel (Some n)])))
        as (d & done & Hact & Hdone).
      rewrite (mbind_ok _ _ _ _ _ Hact). cbn [calls page] in *. destruct done.
      * exists [Count sel (Some n); Upload Known kind (BySelector sel) path true], true, d.
        split; [unfold ret; now rewrite <- app_assoc|]. split.
        -- exact (selector_done (fun sel done => Upload Known kind (BySelector sel) path done)
                                sel n rest Hpos).
        -- econstructor; [exact Hcount|]. now apply agrees_one.
      * destruct (IH (Session d ((calls s ++ [Count sel (Some n)])
                                 ++ [Upload Known kind (BySelector sel) path false])))
          as (seg & flag & d' & Hrun & Hcalls & Hag).
        exists (Count sel (Some n) :: Upload Known kind (BySelector sel) path false :: seg),
               flag, d'.
        split; [rewrite Hrun; cbn [calls]; now rewrite <- !app_assoc|]. split.
        -- exact (selector_failed (fun sel done => Upload Known kind (BySelector sel) path done)
                                  sel n rest seg flag Hpos Hcalls).
        -- econstructor; [exact Hcount|]. econstructor; [exact Hdone|exact Hag].
    + destruct (IH (Session (page s) (calls s ++ [Count sel n])))
        as (seg & flag & d' & Hrun & Hcalls & Hag).
      exists (Count sel n :: seg), flag, d'.
      split; [rewrite Hrun; cbn [calls]; now rewrite <- app_assoc|]. split.
      * apply selector_absent; [|exact Hcalls].
        destruct n as [[|n]|]; auto. discriminate.
      * econstructor; [exact Hcount|exact Hag].
Qed.

Lemma try_upload_known_run (kind : string) (path : option string) (sels : list string)
      (s : session dom) :
  dict_get FILE_SELECTORS kind = Some sels ->
  exists seg flag d,
    _try_upload_known b kind path s = (Session d (calls s ++ seg), Ok flag)
    /\ known_calls kind path seg flag
    /\ agrees b (page s) seg d.
Proof.
  intros Hsels. unfold _try_upload_known, known_calls.
  assert (Hnone : exists seg flag d,
             ret false s = (Session d (calls s ++ seg), Ok flag)
             /\ (seg = [] /\ flag = false)
             /\ agrees b (page s) seg d).
  { exists [], false, (page s). rewrite app_nil_r.
    split; [now destruct s|]. split; [now split|constructor]. }
  destruct path as [p|]; [|exact Hnone]. destruct (nonempty p); [|exact Hnone].
  rewrite Hsels. cbn [default].
  destruct (try_selectors_run kind p sels s) as (seg & flag & d & Hrun & Hcalls & Hag).
  exists seg, flag, d. split; [exact Hrun|]. split; [|exact Hag]. exists sels. now split.
Qed.

(** *** The buttons *)

Lemma click_cues_run (cues : list string) :
  forall s, exists seg d,
    click_cues b cues s = (Session d (calls s ++ seg), Ok tt)
    /\ Forall2 (fun e c => exists done, e = Click (fst c) (snd c) done) seg
               (flat_map (fun cue => [(true, cue); (false, cue)]) cues)
    /\ agrees b (page s) seg d.
Proof.
  induction cues as [|cue rest IH]; intros s.
  - exists [], (page s). rewrite app_nil_r.
    split; [now destruct s|]. split; constructor.
  - cbn [click_cues flat_map].
    destruct (acting_run (fun d => role_click b d cue) (Click true cue) s)
      as (d1 & r1 & H1 & A1).
    rewrite (mbind_ok _ _ _ _ _ H1).
    destruct (acting_run (fun d => text_click b d cue) (Click false cue)
                         (Session d1 (calls s ++ [Click true cue r1])))
      as (d2 & r2 & H2 & A2).
    rewrite (mbind_ok _ _ _ _ _ H2). cbn [calls page] in *.
    destruct (IH (Session d2 ((calls s ++ [Click true cue r1]) ++ [Click false cue r2])))
      as (seg & d & Hrun & Hall & Hag).
    exists (Click true cue r1 :: Click false cue r2 :: seg), d.
    split; [rewrite Hrun; cbn [calls]; now rewrite <- !app_assoc|]. split.
    + cbn [app]. constructor; [now exists r1|]. constructor; [now exists r2|exact Hall].
    + econstructor; [exact A1|]. econstructor; [exact A2|exact Hag].
Qed.

(** *** The scan *)

Lemma scan_from_spec (d : dom) (n : nat) :
  forall i inputs, scan_from b d i n = Ok inputs ->
    length inputs = n
    /\ forall k info,
         inputs !! k = Some info ->
         fi_idx info = i + k
         /\ (exists o, file_attribute b d (i + k) "name" = Ok o /\ fi_name info = default "" o)
         /\ (exists o, file_attribute b d (i + k) "id" = Ok o /\ fi_id info = default "" o)
         /\ (exists o, file_attribute b d (i + k) "accept" = Ok o
                       /\ fi_accept info = default "" o).
Proof.
  induction n as [|n IH]; intros i inputs; cbn [scan_from].
  - intros [= <-]. split; [reflexivity|]. intros k info Hk. destruct k; discriminate.
  - unfold attr_or_empty.
    destruct (file_attribute b d i "name") as [name|] eqn:Hname; [|discriminate].
    destruct (file_attribute b d i "id") as [fid|] eqn:Hid; [|discriminate].
    destruct (file_attribute b d i "accept") as [accept|] eqn:Haccept; [|discriminate].
    cbn [bind]. destruct (scan_from b d (S i) n) as [rest|] eqn:Hrest; [|discriminate].
    cbn [bind]. intros [= <-]. destruct (IH (S i) rest Hrest) as [Hlen Hrest'].
    split; [cbn [length]; now rewrite Hlen|].
    intros k info Hk. destruct k as [|k].
    + injection Hk as <-. rewrite Nat.add_0_r. cbn [fi_idx fi_name fi_id fi_accept].
      eauto 10.
    + cbn in Hk. replace (i + S k) with (S i + k) by lia. now apply Hrest'.
Qed.

(** A scan that raises does so on an attribute of one of the inputs. *)
Lemma scan_from_err (d : dom) (n : nat) :
  forall i e, scan_from b d i n = Err e ->
    exists k a, i <= k < i + n
                /\ a ∈ ["name"; "id"; "accept"] /\ file_attribute b d k a = Err e.
Proof.
  induction n as [|n IH]; intros i e; cbn [scan_from]; [discriminate|].
  unfold attr_or_empty.
  destruct (file_attribute b d i "name") as [name|e1] eqn:Hname.
  2:{ intros [= <-]. exists i, "name". split; [lia|]. split; [set_solver|exact Hname]. }
  destruct (file_attribute b d i "id") as [fid|e1] eqn:Hid.
  2:{ intros [= <-]. exists i, "id". split; [lia|]. split; [set_solver|exact Hid]. }
  destruct (file_attribute b d i "accept") as [accept|e1] eqn:Haccept.
  2:{ intros [= <-]. exists i, "accept". split; [lia|]. split; [set_solver|exact Haccept]. }
  cbn [bind]. destruct (scan_from b d (S i) n) as [rest|e1] eqn:Hrest; [discriminate|].
  cbn [bind]. intros [= <-]. destruct (IH (S i) e1 Hrest) as (k & a & Hk & Ha & Herr).
  exists k, a. split; [lia|]. now split.
Qed.

Lemma scan_file_inputs_run (s : session dom) :
  (exists inputs,
      _scan_file_inputs b s = (Session (page s) (calls s ++ [Scan inputs]), Ok inputs)
      /\ scan_of b (page s) inputs)
  \/ (exists e, _scan_file_inputs b s = (s, Err e) /\ scan_raises b (page s) e).
Proof.
  unfold _scan_file_inputs, scan_raises.
  destruct (file_count b (page s)) as [n|e] eqn:Hcount; cbn [bind]; [|right; eauto].
  destruct (scan_from b (page s) 0 n) as [inputs|e] eqn:Hscan.
  - left. exists inputs. split; [reflexivity|].
    destruct (scan_from_spec _ _ _ _ Hscan) as [Hlen Hall].
    split; [now rewrite Hlen|]. intros k info Hk. exact (Hall k info Hk).
  - right. exists e. split; [reflexivity|]. right.
    destruct (scan_from_err _ _ _ _ Hscan) as (k & a & Hk & Ha & Herr).
    exists n, k, a. split; [reflexivity|]. split; [lia|]. now split.
Qed.

(** The inputs at the first two places of a scan. *)
Lemma positional_targets (inputs : list file_input) :
  (forall k info, inputs !! k = Some info -> fi_idx info = k) ->
  fi_idx <$> inputs !! 0 = (if (1 <=? length inputs)%nat then Some 0 else None)
  /\ (if (2 <=? length inputs)%nat then fi_idx <$> inputs !! 1 else None)
     = (if (2 <=? length inputs)%nat then Some 1 else None).
Proof.
  intros Hidx. destruct inputs as [|i0 [|i1 rest]]; cbn.
  - now split.
  - now rewrite (Hidx 0 i0 eq_refl).
  - now rewrite (Hidx 0 i0 eq_refl), (Hidx 1 i1 eq_refl).
Qed.

(** *** The uploads after the scan *)

Lemma upload_at_run (how : strategy) (kind : string) (path : option string)
      (before : bool) (tgt : option nat) (s : session dom) :
  exists seg after d,
    upload_at b how kind path before tgt s = (Session d (calls s ++ seg), Ok after)
    /\ upload_step how kind path before tgt seg after
    /\ agrees b (page s) seg d.
Proof.
  unfold upload_at, upload_step.
  assert (Hnone : exists seg after d,
             ret before s = (Session d (calls s ++ seg), Ok after)
             /\ (seg = [] /\ after = before)
             /\ agrees b (page s) seg d).
  { exists [], before, (page s). rewrite app_nil_r.
    split; [now destruct s|]. split; [now split|constructor]. }
  destruct path as [p|]; [|exact Hnone]. destruct tgt as [i|]; [|exact Hnone].
  destruct (nonempty p && negb before) eqn:Hgo; [|exact Hnone].
  apply andb_true_iff in Hgo as [_ Hbefore]. apply negb_true_iff in Hbefore. subst before.
  destruct (acting_run (fun d => file_set_input_files b d i p)
                       (Upload how kind (ByIndex i) p) s) as (d & done & Hact & Hdone).
  rewrite (mbind_ok _ _ _ _ _ Hact).
  exists [Upload how kind (ByIndex i) p done], done, d. split; [reflexivity|].
  split; [eauto|]. now apply agrees_one.
Qed.

(** What a step after the scan says about the uploads of its kind and of
    the other kind. *)
Lemma upload_step_facts (how : strategy) (kind other : string) (path : option string)
      (before : bool) (tgt : option nat) (seg : list event) (after : bool) :
  upload_step how kind path before tgt seg after ->
  String.eqb kind other = false ->
  stops_after_success (upload_of kind) seg = true
  /\ (before = true -> existsb (upload_of kind) seg = false)
  /\ after = before || existsb (fun e => upload_of kind e && succeeded e) seg
  /\ existsb (upload_of other) seg = false.
Proof.
  unfold upload_step. intros Hstep Hother.
  assert (Hnone : seg = [] /\ after = before ->
            stops_after_success (upload_of kind) seg = true
            /\ (before = true -> existsb (upload_of kind) seg = false)
            /\ after = before || existsb (fun e => upload_of kind e && succeeded e) seg
            /\ existsb (upload_of other) seg = false).
  { intros [-> ->]. cbn. now rewrite orb_false_r. }
  destruct path as [p|]; [|auto]. destruct tgt as [i|]; [|auto].
  destruct (nonempty p && negb before) eqn:Hgo; [|auto].
  apply andb_true_iff in Hgo as [_ Hbefore]. apply negb_true_iff in Hbefore. subst before.
  destruct Hstep as (done & -> & ->).
  cbn [stops_after_success existsb upload_of succeeded].
  rewrite String.eqb_refl, Hother.
  destruct done; cbn; repeat split; try reflexivity; discriminate.
Qed.

Lemma known_calls_facts (kind other : string) (path : option string) (seg : list event)
      (flag : bool) :
  known_calls kind path seg flag ->
  String.eqb kind other = false ->
  stops_after_success (upload_of kind) seg = true
  /\ existsb (fun e => upload_of kind e && succeeded e) seg = flag
  /\ existsb (upload_of other) seg = false.
Proof.
  unfold known_calls. intros Hknown Hother.
  assert (Hnone : seg = [] /\ flag = false ->
            stops_after_success (upload_of kind) seg = true
            /\ existsb (fun e => upload_of kind e && succeeded e) seg = flag
            /\ existsb (upload_of other) seg = false).
  { now intros [-> ->]. }
  destruct path as [p|]; [|auto]. destruct (nonempty p); [|auto].
  destruct Hknown as (sels & _ & Hcalls).
  destruct (selector_calls_settled
              (fun sel done => Upload Known kind (BySelector sel) p done)
              (upload_of kind) sels seg flag) as [H1 H2]; [|exact Hcalls|].
  { intros s d. split; [cbn [upload_of]; apply String.eqb_refl|reflexivity]. }
  split; [exact H1|]. split; [exact H2|].
  apply (selector_calls_only
           (fun sel done => Upload Known kind (BySelector sel) p done)
           (upload_of other) sels seg flag); [reflexivity| |exact Hcalls].
  intros s d. cbn [upload_of]. exact Hother.
Qed.

Lemma click_calls_no_upload (kind : string) (wanted : bool) (seg : list event) :
  click_calls wanted seg -> existsb (upload_of kind) seg = false.
Proof.
  unfold click_calls. destruct wanted; [|now intros ->].
  generalize ALL_CLICKS. intros l Hall.
  induction Hall as [|e c seg l (done & ->) _ IH]; [reflexivity|exact IH].
Qed.

(** C4. [_upload_best_effort] goes through the cascade in this order, and
    the record of its calls is made of these parts. For each kind that
    has a file, the known selectors of the kind are counted in the order
    of [FILE_SELECTORS], an upload is tried where the count is positive,
    and the first upload that returns ends the step. When a file is then
    still to be uploaded, of either kind, the five cues are clicked, each
    as a button and as a text, whatever the clicks do. The file inputs are
    scanned in every case, and the routine raises when the scan does.
    After the scan, a file that is still to be uploaded goes to the first
    scanned input whose name or id matches [resume|cv], for the cover
    letter [cover], and a file that is then still to be uploaded goes to
    input 0 for the resume and to input 1 for the cover letter, which
    needs two inputs. Every call in the record was made on the page as the
    calls before it left it, with the outcome that Playwright gave there.
    For each kind no upload is tried after one has returned, and the flags
    returned say whether one has. *)
Theorem upload_cascade_in_order :
  forall (resume_path cover_path : option string) (s : session dom),
    exists known_r known_c clicks rest ur1 uc1,
      calls (fst (_upload_best_effort b resume_path cover_path s))
      = calls s ++ known_r ++ known_c ++ clicks ++ rest
      /\ agrees b (page s) (known_r ++ known_c ++ clicks ++ rest)
                (page (fst (_upload_best_effort b resume_path cover_path s)))
      /\ known_calls "resume" resume_path known_r ur1
      /\ known_calls "cover" cover_path known_c uc1
      /\ click_calls ((truthy resume_path && negb ur1) || (truthy cover_path && negb uc1))
                     clicks
      /\ match snd (_upload_best_effort b resume_path cover_path s) with
         | Err e =>
             rest = []
             /\ scan_raises b (page (fst (_upload_best_effort b resume_path cover_path s))) e
         | Ok (ur, uc) =>
             exists inputs for_r for_c named_r named_c pos_r pos_c ur2 uc2,
               rest = Scan inputs :: named_r ++ named_c ++ pos_r ++ pos_c
               /\ first_such (fun info => isearch "resume|cv" (fi_name info)
                                          || isearch "resume|cv" (fi_id info))
                             inputs for_r
               /\ first_such (fun info => isearch "cover" (fi_name info)
                                          || isearch "cover" (fi_id info))
                             inputs for_c
               /\ upload_step Named "resume" resume_path ur1 (fi_idx <$> for_r) named_r ur2
               /\ upload_step Named "cover" cover_path uc1 (fi_idx <$> for_c) named_c uc2
               /\ upload_step Positional "resume" resume_path ur2
                              (if (1 <=? length inputs)%nat then Some 0 else None) pos_r ur
               /\ upload_step Positional "cover" cover_path uc2
                              (if (2 <=? length inputs)%nat then Some 1 else None) pos_c uc
               /\ ur = existsb (fun e => upload_of "resume" e && succeeded e)
                               (known_r ++ known_c ++ clicks ++ rest)
               /\ uc = existsb (fun e => upload_of "cover" e && succeeded e)
                               (known_r ++ known_c ++ clicks ++ rest)
         end
      /\ stops_after_success (upload_of "resume") (known_r ++ known_c ++ clicks ++ rest) = true
      /\ stops_after_success (upload_of "cover") (known_r ++ known_c ++ clicks ++ rest) = true.
Proof.
  intros rp cp s. unfold _upload_best_effort.
  destruct (try_upload_known_run "resume" rp _ s eq_refl)
    as (known_r & ur1 & d1 & H1 & Hkr & A1).
  rewrite (mbind_ok _ _ _ _ _ H1).
  destruct (try_upload_known_run "cover" cp _ (Session d1 (calls s ++ known_r)) eq_refl)
    as (known_c & uc1 & d2 & H2 & Hkc & A2).
  rewrite (mbind_ok _ _ _ _ _ H2). cbn [calls page] in *.
  set (wanted := (truthy rp && negb ur1) || (truthy cp && negb uc1)).
  assert (Hclicks : exists clicks d3,
             (if wanted then _click_possible_attach_buttons b else ret tt)
               (Session d2 ((calls s ++ known_r) ++ known_c))
             = (Session d3 (((calls s ++ known_r) ++ known_c) ++ clicks), Ok tt)
             /\ click_calls wanted clicks
             /\ agrees b d2 clicks d3).
  { unfold click_calls. destruct wanted.
    - destruct (click_cues_run BUTTON_CUES (Session d2 ((calls s ++ known_r) ++ known_c)))
        as (clicks & d3 & Hrun & Hall & Hag). exists clicks, d3. now split.
    - exists [], d2. rewrite app_nil_r. split; [reflexivity|]. split; constructor. }
  destruct Hclicks as (clicks & d3 & H3 & Hclicks & A3).
  rewrite (mbind_ok _ _ _ _ _ H3).
  assert (A123 : agrees b (page s) (known_r ++ known_c ++ clicks) d3).
  { eapply agrees_app; [exact A1|]. eapply agrees_app; [exact A2|exact A3]. }
  destruct (known_calls_facts "resume" "cover" _ _ _ Hkr eq_refl) as (Hr1 & Hr2 & Hr3).
  destruct (known_calls_facts "cover" "resume" _ _ _ Hkc eq_refl) as (Hc1 & Hc2 & Hc3).
  pose proof (click_calls_no_upload "resume" _ _ Hclicks) as Hcr.
  pose proof (click_calls_no_upload "cover" _ _ Hclicks) as Hcc.
  (* the state of both kinds after the known selectors and the buttons *)
  assert (Sr : stops_after_success (upload_of "resume") (known_r ++ known_c ++ clicks) = true
               /\ existsb (fun e => upload_of "resume" e && succeeded e)
                          (known_r ++ known_c ++ clicks) = ur1).
  { rewrite app_assoc. apply settled_other; [|exact Hcr].
    apply settled_other; [now split|exact Hc3]. }
  assert (Sc : stops_after_success (upload_of "cover") (known_r ++ known_c ++ clicks) = true
               /\ existsb (fun e => upload_of "cover" e && succeeded e)
                          (known_r ++ known_c ++ clicks) = uc1).
  { rewrite app_assoc. apply settled_other; [|exact Hcc].
    replace (known_r ++ known_c) with (([] ++ known_r) ++ known_c) by reflexivity.
    apply (settled_step _ false); [| exact Hc1 | discriminate | now rewrite Hc2].
    apply settled_other; [apply settled_nil|exact Hr3]. }
  destruct (scan_file_inputs_run (Session d3 (((calls s ++ known_r) ++ known_c) ++ clicks)))
    as [(inputs & H4 & Hscan)|(e & H4 & Hraises)].
  2:{ rewrite (mbind_err _ _ _ _ _ H4). cbn [fst snd calls page] in *.
      exists known_r, known_c, clicks, [], ur1, uc1.
      rewrite !app_nil_r, <- !app_assoc.
      split; [reflexivity|]. split; [exact A123|]. split; [exact Hkr|]. split; [exact Hkc|].
      split; [exact Hclicks|]. split; [split; [reflexivity|exact Hraises]|].
      split; [apply Sr|apply Sc]. }
  rewrite (mbind_ok _ _ _ _ _ H4). cbn [page calls] in *.
  assert (Hidx : forall k info, inputs !! k = Some info -> fi_idx info = k).
  { intros k info Hk. now destruct (proj2 Hscan k info Hk). }
  destruct (positional_targets inputs Hidx) as [Hp0 Hp1]. rewrite Hp0, Hp1.
  set (s4 := Session d3 ((((calls s ++ known_r) ++ known_c) ++ clicks) ++ [Scan inputs])).
  destruct (upload_at_run Named "resume" rp ur1 (fi_idx <$> pick inputs "resume|cv") s4)
    as (named_r & ur2 & d5 & H5 & Hnr & A5).
  rewrite (mbind_ok _ _ _ _ _ H5).
  destruct (upload_at_run Named "cover" cp uc1 (fi_idx <$> pick inputs "cover")
                          (Session d5 (calls s4 ++ named_r)))
    as (named_c & uc2 & d6 & H6 & Hnc & A6).
  rewrite (mbind_ok _ _ _ _ _ H6). cbn [calls].
  destruct (upload_at_run Positional "resume" rp ur2
                          (if (1 <=? length inputs)%nat then Some 0 else None)
                          (Session d6 ((calls s4 ++ named_r) ++ named_c)))
    as (pos_r & ur & d7 & H7 & Hpr & A7).
  rewrite (mbind_ok _ _ _ _ _ H7). cbn [calls].
  destruct (upload_at_run Positional "cover" cp uc2
                          (if (2 <=? length inputs)%nat then Some 1 else None)
                          (Session d7 (((calls s4 ++ named_r) ++ named_c) ++ pos_r)))
    as (pos_c & uc & d8 & H8 & Hpc & A8).
  rewrite (mbind_ok _ _ _ _ _ H8). unfold ret. cbn [fst snd calls page] in *.
  destruct (upload_step_facts _ _ "cover" _ _ _ _ _ Hnr eq_refl) as (Nr1 & Nr2 & Nr3 & Nr4).
  destruct (upload_step_facts _ _ "resume" _ _ _ _ _ Hnc eq_refl) as (Nc1 & Nc2 & Nc3 & Nc4).
  destruct (upload_step_facts _ _ "cover" _ _ _ _ _ Hpr eq_refl) as (Pr1 & Pr2 & Pr3 & Pr4).
  destruct (upload_step_facts _ _ "resume" _ _ _ _ _ Hpc eq_refl) as (Pc1 & Pc2 & Pc3 & Pc4).
  set (rest := Scan inputs :: named_r ++ named_c ++ pos_r ++ pos_c).
  assert (Hall : known_r ++ known_c ++ clicks ++ rest
                 = (((((known_r ++ known_c ++ clicks) ++ [Scan inputs]) ++ named_r)
                      ++ named_c) ++ pos_r) ++ pos_c).
  { unfold rest. now rewrite <- !app_assoc. }
  assert (Fr : stops_after_success (upload_of "resume") (known_r ++ known_c ++ clicks ++ rest)
               = true
               /\ existsb (fun e => upload_of "resume" e && succeeded e)
                          (known_r ++ known_c ++ clicks ++ rest) = ur).
  { rewrite Hall. apply settled_other; [|exact Pc4].
    apply (settled_step _ ur2); [|exact Pr1|exact Pr2|exact Pr3].
    apply settled_other; [|exact Nc4].
    apply (settled_step _ ur1); [|exact Nr1|exact Nr2|exact Nr3].
    apply settled_other; [exact Sr|reflexivity]. }
  assert (Fc : stops_after_success (upload_of "cover") (known_r ++ known_c ++ clicks ++ rest)
               = true
               /\ existsb (fun e => upload_of "cover" e && succeeded e)
                          (known_r ++ known_c ++ clicks ++ rest) = uc).
  { rewrite Hall. apply (settled_step _ uc2); [|exact Pc1|exact Pc2|exact Pc3].
    apply settled_other; [|exact Pr4].
    apply (settled_step _ uc1); [|exact Nc1|exact Nc2|exact Nc3].
    apply settled_other; [|exact Nr4].
    apply settled_other; [exact Sc|reflexivity]. }
  assert (Aall : agrees b (page s) (known_r ++ known_c ++ clicks ++ rest) d8).
  { rewrite Hall.
    eapply agrees_app; [|exact A8]. eapply agrees_app; [|exact A7].
    eapply agrees_app; [|exact A6]. eapply agrees_app; [|exact A5].
    eapply agrees_app; [exact A123|]. apply agrees_one. now split. }
  exists known_r, known_c, clicks, rest, ur1, uc1.
  split; [unfold rest, s4; cbn [calls]; now rewrite <- !app_assoc|].
  split; [exact Aall|].
  split; [exact Hkr|]. split; [exact Hkc|]. split; [exact Hclicks|].
  split; [|split; [apply Fr|apply Fc]].
  exists inputs, (pick inputs "resume|cv"), (pick inputs "cover"),
         named_r, named_c, pos_r, pos_c, ur2, uc2.
  split; [reflexivity|].
  split; [apply first_such_find|]. split; [apply first_such_find|].
  split; [exact Hnr|]. split; [exact Hnc|]. split; [exact Hpr|]. split; [exact Hpc|].
  split; [symmetry; apply Fr|symmetry; apply Fc].
Qed.

End UploadFacts.
(** ** apply_assist.py: filling the text fields *)

Section FillFacts.
Import Text Py Paths Re Apply.
#[local] Open Scope list_scope.
Context {dom : Type} (b : browser dom).

(** *** One field *)

Lemma try_fill_by_label_run (value : string) (patterns : list string) :
  forall s, exists seg flag d,
    _try_fill_by_label b patterns value s = (Session d (calls s ++ seg), Ok flag)
    /\ label_calls value patterns seg flag
    /\ agrees b (page s) seg d.
Proof.
  induction patterns as [|pat rest IH]; intros s.
  - exists [], false, (page s). rewrite app_nil_r.
    split; [now destruct s|]. split; constructor.
  - cbn [_try_fill_by_label].
    destruct (acting_run (fun d => label_fill b d pat value)
                         (Fill ByLabel (ByPattern pat) value) s) as (d & done & Hact & Hdone).
    rewrite (mbind_ok _ _ _ _ _ Hact). destruct done.
    + exists [Fill ByLabel (ByPattern pat) value true], true, d.
      split; [reflexivity|]. split; [constructor|now apply agrees_one].
    + destruct (IH (Session d (calls s ++ [Fill ByLabel (ByPattern pat) value false])))
        as (seg & flag & d' & Hrun & Hcalls & Hag).
      exists (Fill ByLabel (ByPattern pat) value false :: seg), flag, d'.
      split; [rewrite Hrun; cbn [calls]; now rewrite <- app_assoc|].
      split; [now constructor|]. econstructor; [exact Hdone|exact Hag].
Qed.

Lemma try_fill_by_css_run (value : string) (selectors : list string) :
  forall s, exists seg flag d,
    _try_fill_by_css b selectors value s = (Session d (calls s ++ seg), Ok flag)
    /\ selector_calls (fun sel done => Fill ByCss (BySelector sel) value done)
                      selectors seg flag
    /\ agrees b (page s) seg d.
Proof.
  induction selectors as [|sel rest IH]; intros s.
  - exists [], false, (page s). rewrite app_nil_r.
    split; [now destruct s|]. split; constructor.
  - cbn [_try_fill_by_css].
    destruct (reading_run (fun d => locator_count b d sel) (Count sel) s) as (n & Hread & Hn).
    rewrite (mbind_ok _ _ _ _ _ Hread).
    assert (Hcount : call_on b (page s) (Count sel n) (page s)) by now split.
    destruct (0 <? default 0 n)%nat eqn:Hpos.
    + destruct n as [n|]; [|discriminate].
      change (default 0 (Some n)) with n in Hpos. apply Nat.ltb_lt in Hpos.
      destruct (acting_run (fun d => locator_fill b d sel value)
                           (Fill ByCss (BySelector sel) value)
                           (Session (page s) (calls s ++ [Count sel (Some n)])))
        as (d & done & Hact & Hdone).
      rewrite (mbind_ok _ _ _ _ _ Hact). cbn [calls page] in *. destruct done.
      * exists [Count sel (Some n); Fill ByCss (BySelector sel) value true], true, d.
        split; [unfold ret; now rewrite <- app_assoc|]. split.
        -- exact (selector_done (fun sel done => Fill ByCss (BySelector sel) value done)
                                sel n rest Hpos).
        -- econstructor; [exact Hcount|]. now apply agrees_one.
      * destruct (IH (Session d ((calls s ++ [Count sel (Some n)])
                                 ++ [Fill ByCss (BySelector sel) value false])))
          as (seg & flag & d' & Hrun & Hcalls & Hag).
        exists (Count sel (Some n) :: Fill ByCss (BySelector sel) value false :: seg),
               flag, d'.
        split; [rewrite Hrun; cbn [calls]; now rewrite <- !app_assoc|]. split.
        -- exact (selector_failed (fun sel done => Fill ByCss (BySelector sel) value done)
                                  sel n rest seg flag Hpos Hcalls).
        -- econstructor; [exact Hcount|]. econstructor; [exact Hdone|exact Hag].
    + destruct (IH (Session (page s) (calls s ++ [Count sel n])))
        as (seg & flag & d' & Hrun & Hcalls & Hag).
      exists (Count sel n :: seg), flag, d'.
      split; [rewrite Hrun; cbn [calls]; now rewrite <- app_assoc|]. split.
      * apply selector_absent; [|exact Hcalls].
        destruct n as [[|n]|]; auto. discriminate.
      * econstructor; [exact Hcount|exact Hag].
Qed.

Lemma fill_field_run (key value : string) (s : session dom) :
  exists seg done d,
    _fill_field b key value s = (Session d (calls s ++ seg), Ok done)
    /\ field_calls key value seg done
    /\ agrees b (page s) seg d.
Proof.
  unfold _fill_field, field_calls. destruct (nonempty value); cbn [negb].
  2:{ exists [], false, (page s). rewrite app_nil_r.
      split; [now destruct s|]. split; [now split|constructor]. }
  destruct (try_fill_by_label_run value (default [] (dict_get LABEL_PATTERNS key)) s)
    as (labels & by_label & d1 & Hlabel & Hlabels & A1).
  rewrite (mbind_ok _ _ _ _ _ Hlabel). destruct by_label.
  - exists labels, true, d1. split; [reflexivity|]. split; [|exact A1].
    exists labels, [], true. rewrite app_nil_r. auto.
  - destruct (dict_get CSS_FALLBACKS key) as [sels|] eqn:Hsels.
    + destruct (try_fill_by_css_run value sels (Session d1 (calls s ++ labels)))
        as (css & done & d2 & Hcss & Hcalls & A2).
      exists (labels ++ css), done, d2.
      split; [rewrite Hcss; cbn [calls]; now rewrite <- app_assoc|].
      split; [|exact (agrees_app b _ _ _ _ _ A1 A2)].
      exists labels, css, false. auto.
    + exists labels, false, d1. split; [reflexivity|]. split; [|exact A1].
      exists labels, [], false. rewrite app_nil_r. auto.
Qed.

Lemma fill_keys_run (profile : list (string * string)) (keys : list string) :
  forall s, exists by_key d,
    for_each keys (fill_key b profile) s = (Session d (calls s ++ concat by_key), Ok tt)
    /\ Forall2 (fun key seg =>
                  exists done, field_calls key (default "" (dict_get profile key)) seg done)
               keys by_key
    /\ agrees b (page s) (concat by_key) d.
Proof.
  induction keys as [|key rest IH]; intros s.
  - exists [], (page s). cbn [concat]. rewrite app_nil_r.
    split; [now destruct s|]. split; constructor.
  - cbn [for_each]. unfold fill_key at 1.
    destruct (fill_field_run key (default "" (dict_get profile key)) s)
      as (seg & done & d & Hrun & Hcalls & A1).
    unfold mbind at 1. unfold mbind at 1. rewrite Hrun. unfold ret at 1.
    destruct (IH (Session d (calls s ++ seg))) as (by_key & d' & Hrest & Hall & A2).
    exists (seg :: by_key), d'.
    split; [rewrite Hrest; cbn [calls concat]; now rewrite <- app_assoc|]. split.
    + constructor; [now exists done|exact Hall].
    + cbn [concat]. exact (agrees_app b _ _ _ _ _ A1 A2).
Qed.

(** *** The last loop *)

(** What the three reads of [attributes_of] give. *)
Lemma attributes_of_read (d : dom) (i : nat) :
  attributes_read b d i (heard (attributes_of b d i)).
Proof.
  unfold attributes_of, attr_or_empty.
  destruct (text_attribute b d i "placeholder") as [o1|e] eqn:H1.
  2:{ exists "placeholder", e. split; [set_solver|exact H1]. }
  destruct (text_attribute b d i "name") as [o2|e] eqn:H2.
  2:{ exists "name", e. split; [set_solver|exact H2]. }
  destruct (text_attribute b d i "aria-label") as [o3|e] eqn:H3.
  2:{ exists "aria-label", e. split; [set_solver|exact H3]. }
  cbn [bind heard attributes_read]. rewrite H1, H2, H3. eauto 10.
Qed.

Lemma fill_if_empty_run (cues : list (string * string)) (i : nat) (s : session dom) :
  exists seg d,
    fill_if_empty b cues i s = (Session d (calls s ++ seg), Ok tt)
    /\ input_calls cues i seg
    /\ agrees b (page s) seg d.
Proof.
  unfold fill_if_empty.
  destruct (reading_run (fun d => text_value b d i) (Value i) s) as (v & Hread & Hv0).
  rewrite (mbind_ok _ _ _ _ _ Hread).
  assert (Hvalue : call_on b (page s) (Value i v) (page s)) by now split.
  destruct v as [v|].
  2:{ exists [Value i None], (page s). split; [reflexivity|].
      split; [constructor|now apply agrees_one]. }
  destruct (nonempty v) eqn:Hv.
  { exists [Value i (Some v)], (page s). split; [reflexivity|].
    split; [now constructor|now apply agrees_one]. }
  assert (v = "") as -> by (now destruct v).
  destruct (reading_run (fun d => attributes_of b d i) (Attributes i)
                        (Session (page s) (calls s ++ [Value i (Some "")])))
    as (values & Hvalues & Hread3).
  rewrite (mbind_ok _ _ _ _ _ Hvalues). cbn [calls page] in *.
  assert (Hattrs : call_on b (page s) (Attributes i values) (page s)).
  { split; [reflexivity|]. rewrite Hread3. apply attributes_of_read. }
  destruct values as [[[placeholder name] aria]|].
  2:{ exists [Value i (Some ""); Attributes i None], (page s).
      split; [unfold ret; now rewrite <- app_assoc|]. split; [constructor|].
      econstructor; [exact Hvalue|]. now apply agrees_one. }
  pose proof (first_such_find
                (fun cue => nonempty (snd cue)
                            && search (fst cue) (lower (join " " [placeholder; name; aria])))
                cues) as Hfirst.
  change (List.find _ cues) with (first_cue cues (blob_of (placeholder, name, aria))) in Hfirst.
  destruct (first_cue cues (blob_of (placeholder, name, aria))) as [cue|].
  2:{ exists [Value i (Some ""); Attributes i (Some (placeholder, name, aria))], (page s).
      split; [unfold ret; now rewrite <- app_assoc|]. split; [now constructor|].
      econstructor; [exact Hvalue|]. now apply agrees_one. }
  destruct (acting_run (fun d => text_fill b d i (snd cue))
                       (Fill Opportunistic (ByIndex i) (snd cue))
                       (Session (page s)
                                ((calls s ++ [Value i (Some "")])
                                 ++ [Attributes i (Some (placeholder, name, aria))])))
    as (d & done & Hact & Hdone).
  rewrite (mbind_ok _ _ _ _ _ Hact). cbn [calls page] in *.
  exists [Value i (Some ""); Attributes i (Some (placeholder, name, aria));
          Fill Opportunistic (ByIndex i) (snd cue) done], d.
  split; [unfold ret; now rewrite <- !app_assoc|]. split; [now constructor|].
  econstructor; [exact Hvalue|]. econstructor; [exact Hattrs|]. now apply agrees_one.
Qed.

Lemma last_loop_run (cues : list (string * string)) (idxs : list nat) :
  forall s, exists per_input d,
    for_each idxs (fill_if_empty b cues) s = (Session d (calls s ++ concat per_input), Ok tt)
    /\ Forall2 (input_calls cues) idxs per_input
    /\ agrees b (page s) (concat per_input) d.
Proof.
  induction idxs as [|i rest IH]; intros s.
  - exists [], (page s). cbn [concat]. rewrite app_nil_r.
    split; [now destruct s|]. split; constructor.
  - cbn [for_each].
    destruct (fill_if_empty_run cues i s) as (seg & d & Hrun & Hcalls & A1).
    rewrite (mbind_ok _ _ _ _ _ Hrun).
    destruct (IH (Session d (calls s ++ seg))) as (per_input & d' & Hrest & Hall & A2).
    exists (seg :: per_input), d'.
    split; [rewrite Hrest; cbn [calls concat]; now rewrite <- app_assoc|].
    split; [now constructor|]. cbn [concat]. exact (agrees_app b _ _ _ _ _ A1 A2).
Qed.

(** The cues are the seven patterns, each with the value of its key. *)
Lemma build_cues_ok (profile : list (string * string)) (keys : list (string * string)) :
  forall cues, build_cues profile keys = Ok cues ->
    Forall2 (fun cue pk => fst cue = fst pk /\ dict_get profile (snd pk) = Some (snd cue))
            cues keys.
Proof.
  induction keys as [|[pat key] rest IH]; intros cues; cbn [build_cues].
  - intros [= <-]. constructor.
  - destruct (dict_get profile key) as [v|] eqn:Hv; [|discriminate].
    destruct (build_cues profile rest) as [cues'|]; [|discriminate]. cbn [bind].
    intros [= <-]. constructor; [now split|now apply IH].
Qed.

Lemma build_cues_err (profile : list (string * string)) (keys : list (string * string)) :
  forall e, build_cues profile keys = Err e ->
    exists pat key, (pat, key) ∈ keys /\ dict_get profile key = None.
Proof.
  induction keys as [|[pat key] rest IH]; intros e; cbn [build_cues]; [discriminate|].
  destruct (dict_get profile key) as [v|] eqn:Hv.
  - destruct (build_cues profile rest) as [cues'|e'] eqn:Hrest; [discriminate|].
    intros _. destruct (IH e' eq_refl) as (pat' & key' & Hin & Hnone).
    exists pat', key'. split; [now right|exact Hnone].
  - intros _. exists pat, key. split; [left|exact Hv].
Qed.

Lemma cues_loop_run (profile : list (string * string)) (s : session dom) :
  exists last d r,
    mbind (lift (build_cues profile CUE_KEYS)) (fun cues =>
    mbind (count_texts b) (fun n =>
    for_each (seq 0 n) (fill_if_empty b cues))) s
    = (Session d (calls s ++ last), r)
    /\ agrees b (page s) last d
    /\ match r with
       | Ok _ =>
           exists cues n per_input,
             Forall2 (fun cue pk =>
                        fst cue = fst pk /\ dict_get profile (snd pk) = Some (snd cue))
                     cues CUE_KEYS
             /\ last = Texts n :: concat per_input
             /\ Forall2 (input_calls cues) (seq 0 n) per_input
       | Err e =>
           last = []
           /\ ((exists pat key, (pat, key) ∈ CUE_KEYS /\ dict_get profile key = None)
               \/ text_count b d = Err e)
       end.
Proof.
  unfold mbind at 1, lift.
  destruct (build_cues profile CUE_KEYS) as [cues|e] eqn:Hcues.
  2:{ exists [], (page s), (Err e). rewrite app_nil_r.
      split; [now destruct s|]. split; [constructor|]. split; [reflexivity|]. left.
      now apply build_cues_err with (e := e). }
  unfold mbind at 1, count_texts.
  destruct (text_count b (page s)) as [n|e] eqn:Hcount.
  2:{ exists [], (page s), (Err e). rewrite app_nil_r.
      split; [now destruct s|]. split; [constructor|]. split; [reflexivity|]. now right. }
  destruct (last_loop_run cues (seq 0 n) (Session (page s) (calls s ++ [Texts n])))
    as (per_input & d & Hrun & Hall & Hag).
  exists (Texts n :: concat per_input), d, (Ok tt).
  split; [rewrite Hrun; cbn [calls]; now rewrite <- app_assoc|].
  split; [econstructor; [split; [reflexivity|exact Hcount]|exact Hag]|].
  exists cues, n, per_input. split; [now apply build_cues_ok|]. auto.
Qed.

(** C8. For one field, [_fill_field] makes no call without a value. With
    a value it tries the label patterns of the key in order, up to the
    first fill that returns; only when no label took the value it goes
    through the CSS selectors of the key, counting each one and filling
    where the count is positive, up to the first fill that returns. It
    never raises. [_fill_all_textish] does this for the eleven keys in
    turn. After that it counts the text inputs and goes once through all
    of them in document order, whatever the fields before took: the value
    of the input is read, and when it is empty, the placeholder, name and
    aria-label are read and the input is filled with the value of the
    first of the seven cues that has a value and whose pattern is found in
    them. Every call in the record was made on the page as the calls
    before it left it, with the outcome that Playwright gave there. A
    failure of any of these calls is passed over; the routine raises only
    when the profile lacks a key of the cues or when the inputs cannot be
    counted. *)
Theorem fill_cascade :
  forall (profile : list (string * string)) (s : session dom),
    (forall key value s0,
        exists seg done s',
          _fill_field b key value s0 = (s', Ok done)
          /\ calls s' = calls s0 ++ seg
          /\ agrees b (page s0) seg (page s')
          /\ field_calls key value seg done)
    /\ exists by_key last,
        calls (fst (_fill_all_textish b profile s)) = calls s ++ concat by_key ++ last
        /\ agrees b (page s) (concat by_key ++ last)
                  (page (fst (_fill_all_textish b profile s)))
        /\ Forall2 (fun key seg =>
                      exists done,
                        field_calls key (default "" (dict_get profile key)) seg done)
                   (BASICS ++ EXTRAS) by_key
        /\ match snd (_fill_all_textish b profile s) with
           | Ok _ =>
               exists cues n per_input,
                 Forall2 (fun cue pk =>
                            fst cue = fst pk
                            /\ dict_get profile (snd pk) = Some (snd cue))
                         cues CUE_KEYS
                 /\ last = Texts n :: concat per_input
                 /\ Forall2 (input_calls cues) (seq 0 n) per_input
           | Err e =>
               last = []
               /\ ((exists pat key, (pat, key) ∈ CUE_KEYS /\ dict_get profile key = None)
                   \/ text_count b (page (fst (_fill_all_textish b profile s))) = Err e)
           end.
Proof.
  intros profile s. split.
  - intros key value s0.
    destruct (fill_field_run key value s0) as (seg & done & d & Hrun & Hcalls & Hag).
    exists seg, done, (Session d (calls s0 ++ seg)). auto.
  - destruct (fill_keys_run profile BASICS s) as (by1 & d1 & H1 & Hall1 & A1).
    destruct (fill_keys_run profile EXTRAS (Session d1 (calls s ++ concat by1)))
      as (by2 & d2 & H2 & Hall2 & A2).
    cbn [calls page] in *.
    destruct (cues_loop_run profile (Session d2 ((calls s ++ concat by1) ++ concat by2)))
      as (last & d3 & r & H3 & A3 & Hlast).
    cbn [calls page] in *.
    assert (Hrun : _fill_all_textish b profile s
                   = (Session d3 (calls s ++ concat (by1 ++ by2) ++ last), r)).
    { unfold _fill_all_textish. rewrite (mbind_ok _ _ _ _ _ H1), (mbind_ok _ _ _ _ _ H2), H3.
      now rewrite concat_app, <- !app_assoc. }
    rewrite Hrun. cbn [fst snd calls page].
    exists (by1 ++ by2), last. split; [reflexivity|]. split.
    { rewrite concat_app, <- app_assoc.
      eapply agrees_app; [exact A1|]. eapply agrees_app; [exact A2|exact A3]. }
    split; [now apply Forall2_app|]. destruct r as [[]|e]; exact Hlast.
Qed.

End FillFacts.

Section FillExamples.
Import Text Py Paths Re Apply.

Lemma upload_cascade_in_order_witness :
  exists known_r known_c clicks rest ur1 uc1,
    calls (fst (_upload_best_effort scripted (Some "/cv.pdf") (Some "/cover.pdf")
                                    (Session two_uploads [])))
    = (known_r ++ known_c ++ clicks ++ rest)%list
    /\ agrees scripted two_uploads (known_r ++ known_c ++ clicks ++ rest)%list
              (page (fst (_upload_best_effort scripted (Some "/cv.pdf") (Some "/cover.pdf")
                                              (Session two_uploads []))))
    /\ known_calls "resume" (Some "/cv.pdf") known_r ur1
    /\ known_calls "cover" (Some "/cover.pdf") known_c uc1
    /\ click_calls (negb ur1 || negb uc1) clicks.
Proof.
  destruct (upload_cascade_in_order scripted (Some "/cv.pdf") (Some "/cover.pdf")
                                    (Session two_uploads []))
    as (known_r & known_c & clicks & rest & ur1 & uc1
        & Hcalls & Hag & Hr & Hc & Hclicks & _).
  exists known_r, known_c, clicks, rest, ur1, uc1. auto.
Defined.

Lemma fill_cascade_witness :
  exists by_key last,
    calls (fst (_fill_all_textish scripted PROFILE (Session two_locations [])))
    = (concat by_key ++ last)%list
    /\ agrees scripted two_locations (concat by_key ++ last)%list
              (page (fst (_fill_all_textish scripted PROFILE (Session two_locations []))))
    /\ Forall2 (fun key seg =>
                  exists done, field_calls key (default "" (dict_get PROFILE key)) seg done)
               (BASICS ++ EXTRAS) by_key.
Proof.
  destruct (proj2 (fill_cascade scripted PROFILE (Session two_locations [])))
    as (by_key & last & Hcalls & Hag & Hkeys & _).
  exists by_key, last. auto.
Defined.

(** The city is entered through its label, and again by the last loop in
    another input that was still empty: the last loop does not look at what
    the fields before it took. *)
Lemma last_loop_fills_again :
  List.filter succeeded (calls (fst (_fill_all_textish scripted PROFILE (Session two_locations []))))
  = [ Fill ByLabel (ByPattern "where.*based|current.*location|city|location")
           "Zurich, Switzerland" true;
      Fill Opportunistic (ByIndex 1) "Zurich, Switzerland" true ]
  /\ dict_get PROFILE "city" = Some "Zurich, Switzerland".
Proof. split; vm_compute; reflexivity. Qed.

(** Both files go in through known selectors, and the file inputs are
    scanned all the same; when they cannot be counted, the routine raises
    although nothing was left to upload. *)
Lemma scan_runs_after_success :
  calls (fst (_upload_best_effort scripted (Some "/cv.pdf") (Some "/cover.pdf")
                                  (Session both_known [])))
  = [ Count "input[type='file'][name*='resume']" (Some 1);
      Upload Known "resume" (BySelector "input[type='file'][name*='resume']") "/cv.pdf" true;
      Count "input[type='file'][name*='cover']" (Some 1);
      Upload Known "cover" (BySelector "input[type='file'][name*='cover']") "/cover.pdf" true;
      Scan [FileInput 0 "resume" "" ""; FileInput 1 "cover_letter" "" ""] ]
  /\ snd (_upload_best_effort no_scan (Some "/cv.pdf") (Some "/cover.pdf")
                              (Session both_known []))
     = Err (TimeoutError "input[type='file']").
Proof. split; vm_compute; reflexivity. Qed.

(** The known selector takes the resume, the buttons are tried for the
    cover letter, the cue [resume] among them, and the cover letter goes
    to the second input. *)
Example upload_two_inputs :
  List.filter succeeded
    (calls (fst (_upload_best_effort scripted (Some "/cv.pdf") (Some "/cover.pdf")
                                     (Session two_uploads []))))
  = [ Upload Known "resume" (BySelector "input[type='file'][name*='resume']") "/cv.pdf" true;
      Scan [FileInput 0 "resume_file" "" ""; FileInput 1 "attachment" "" ""];
      Upload Positional "cover" (ByIndex 1) "/cover.pdf" true ]
  /\ Click true "resume" false
     ∈ calls (fst (_upload_best_effort scripted (Some "/cv.pdf") (Some "/cover.pdf")
                                       (Session two_uploads [])))
  /\ snd (_upload_best_effort scripted (Some "/cv.pdf") (Some "/cover.pdf")
                              (Session two_uploads []))
     = Ok (true, true).
Proof.
  split; [vm_compute; reflexivity|]. split; [|vm_compute; reflexivity].
  apply list_elem_of_In. vm_compute. tauto.
Qed.

End FillExamples.
(* ===================================================================== *)
(** ** apply_assist.py: the candidate urls *)
(* ===================================================================== *)

Section NavFacts.
Import Text Py Store Fetch Nav.

(** What the last loop keeps: [out] lists [seen] without repetition, in the
    order of first occurrence. *)
Lemma keep_new_fold (urls : list (option string)) :
  forall seen out,
    NoDup out -> (forall x, x ∈ seen <-> x ∈ out) ->
    Forall (fun u => nonempty u = true) out ->
    let out' := snd (fold_left keep_new urls (seen, out)) in
    NoDup out'
    /\ Forall (fun u => nonempty u = true) out'
    /\ length out' <= length out + length urls
    /\ (forall x, x ∈ out' <-> x ∈ out \/ (Some x ∈ urls /\ nonempty x = true))
    /\ exists more, out' = (out ++ more)%list.
Proof.
  induction urls as [|u rest IH]; intros seen out Hnd Hseen Hne; cbn [fold_left].
  - cbn [snd]. split; [exact Hnd|]. split; [exact Hne|]. split; [lia|].
    split; [|exists []; now rewrite app_nil_r].
    intros x. split; [now left|]. intros [H|[H _]]; [exact H|]. now apply elem_of_nil in H.
  - assert (Hsame : keep_new (seen, out) u = (seen, out) ->
              (forall x, Some x = u -> nonempty x = true -> x ∈ out) ->
              let out' := snd (fold_left keep_new rest (seen, out)) in
              NoDup out' /\ Forall (fun u0 => nonempty u0 = true) out'
              /\ length out' <= length out + length (u :: rest)
              /\ (forall x, x ∈ out' <-> x ∈ out \/ (Some x ∈ u :: rest /\ nonempty x = true))
              /\ exists more, out' = (out ++ more)%list).
    { intros _ Hin. destruct (IH seen out Hnd Hseen Hne) as (H1 & H2 & H3 & H4 & H5).
      split; [exact H1|]. split; [exact H2|]. split; [cbn [length]; lia|]. split; [|exact H5].
      intros x. rewrite H4. split.
      - intros [H|[H Hx]]; [now left|]. right. split; [now apply list_elem_of_further|exact Hx].
      - intros [H|[H Hx]]; [now left|]. apply elem_of_cons in H as [H|H].
        + left. now apply Hin.
        + right. now split. }
    destruct u as [s|]; cbn [keep_new fst snd].
    + destruct (nonempty s) eqn:Hs; cbn [andb].
      * destruct (bool_decide (s ∈ seen)) eqn:Hmem; cbn [negb].
        -- apply Hsame; [cbn [keep_new fst snd]; now rewrite Hs, Hmem|].
           intros x [= <-] _. apply Hseen. now apply bool_decide_eq_true in Hmem.
        -- apply bool_decide_eq_false in Hmem.
           assert (Hnot : s ∉ out) by (intros H; apply Hmem, Hseen, H).
           destruct (IH ({[ s ]} ∪ seen) (out ++ [s])%list) as (H1 & H2 & H3 & H4 & more & H5).
           ++ apply NoDup_app. split; [exact Hnd|]. split; [|apply NoDup_singleton].
              intros x Hx Hx'. apply list_elem_of_singleton in Hx'. now subst.
           ++ intros x. rewrite elem_of_union, elem_of_singleton, elem_of_app,
                list_elem_of_singleton, Hseen. tauto.
           ++ apply Forall_app. split; [exact Hne|]. now constructor.
           ++ split; [exact H1|]. split; [exact H2|].
              split; [rewrite length_app in H3; cbn [length] in *; lia|].
              split; [|exists (s :: more); now rewrite H5, <- app_assoc].
              intros x. rewrite H4, elem_of_app, list_elem_of_singleton, elem_of_cons. split.
              ** intros [[H| ->]|[H Hx]]; [now left| |right; split; [now right|exact Hx]].
                 right. split; [now left|exact Hs].
              ** intros [H|[[H|H] Hx]]; [now left; left| |right; now split].
                 injection H as ->. left. now right.
      * apply Hsame; [cbn [keep_new fst snd]; now rewrite Hs|].
        intros x [= <-] Hx. congruence.
    + apply Hsame; [reflexivity|]. intros x H. discriminate.
Qed.

Lemma greenhouse_urls_length (job_id : string) : length (greenhouse_urls job_id) <= 2.
Proof.
  unfold greenhouse_urls. destruct (String.prefix _ _); [|cbn; lia].
  destruct (unpack3 _) as [[[a o] t]|]; cbn; lia.
Qed.

Lemma candidate_urls_other (job_id : string) (url_from_db : option string) :
  String.prefix "greenhouse:" job_id = false ->
  _candidate_apply_urls job_id url_from_db
  = match url_from_db with
    | Some u => if nonempty u then [u] else []
    | None => []
    end.
Proof.
  intros Hpre. unfold _candidate_apply_urls, greenhouse_urls. rewrite Hpre.
  cbn [fmap list_fmap app fold_left].
  destruct url_from_db as [u|]; cbn [keep_new fst snd]; [|reflexivity].
  destruct (nonempty u); [|reflexivity].
  rewrite bool_decide_eq_false_2 by apply not_elem_of_empty. reflexivity.
Qed.

(** X1. [_candidate_apply_urls] returns at most three urls, none of them
    empty and no two equal. The url stored with the job is among them
    whenever it is not empty or NULL; the others are the two Greenhouse
    urls built from the job id. For a job id that does not start with
    [greenhouse:] the stored url is the only candidate. *)
Theorem candidate_apply_urls_distinct :
  forall (job_id : string) (url_from_db : option string),
    NoDup (_candidate_apply_urls job_id url_from_db)
    /\ Forall (fun u => nonempty u = true) (_candidate_apply_urls job_id url_from_db)
    /\ length (_candidate_apply_urls job_id url_from_db) <= 3
    /\ (forall u, u ∈ _candidate_apply_urls job_id url_from_db
                  <-> nonempty u = true
                      /\ (url_from_db = Some u \/ u ∈ greenhouse_urls job_id))
    /\ (String.prefix "greenhouse:" job_id = false ->
        _candidate_apply_urls job_id url_from_db
        = match url_from_db with
          | Some u => if nonempty u then [u] else []
          | None => []
          end).
Proof.
  intros job_id url. unfold _candidate_apply_urls.
  destruct (keep_new_fold ((Some <$> greenhouse_urls job_id) ++ [url])%list ∅ [])
    as (H1 & H2 & H3 & H4 & _).
  - constructor.
  - intros x. rewrite elem_of_empty, elem_of_nil. tauto.
  - constructor.
  - split; [exact H1|]. split; [exact H2|]. split.
    + rewrite length_app, length_fmap in H3. cbn [length] in H3.
      pose proof (greenhouse_urls_length job_id). lia.
    + split.
      * intros u. rewrite H4, elem_of_nil, elem_of_app, list_elem_of_singleton, list_elem_of_fmap.
        split.
        -- intros [[]|[[(y & [= <-] & Hy)|Hu] Hne]]; (split; [exact Hne|]); [now right|now left].
        -- intros [Hne [Hu|Hu]]; right; (split; [|exact Hne]); [now right|].
           left. now exists u.
      * apply candidate_urls_other.
Qed.

Lemma split_max_no_sep (sep : ascii) (m : nat) (x rest : string) :
  has_char sep x = false ->
  split_max sep (S m) (x ++ String sep rest) = x :: split_max sep m rest.
Proof.
  induction x as [|c x IH]; intros Hx.
  - change ("" ++ String sep rest) with (String sep rest).
    cbn [split_max]. now rewrite Ascii.eqb_refl.
  - cbn [has_char] in Hx. apply orb_false_iff in Hx as [Hc Hx].
    change (String c x ++ String sep rest) with (String c (x ++ String sep rest)).
    cbn [split_max]. rewrite Hc, (IH Hx). reflexivity.
Qed.

Lemma split_max_zero (sep : ascii) (s : string) : split_max sep 0 s = [s].
Proof. now destruct s. Qed.

Lemma length_append (a b : string) :
  String.length (a ++ b) = String.length a + String.length b.
Proof.
  induction a as [|c a IH]; [reflexivity|].
  change (String c a ++ b)%string with (String c (a ++ b)).
  cbn [String.length]. now rewrite IH.
Qed.

Lemma embed_not_board (org token : string) : embed_url org token <> board_url org token.
Proof.
  intros H. apply (f_equal String.length) in H. unfold embed_url, board_url in H.
  rewrite !length_append in H. cbn [String.length] in H. lia.
Qed.

Lemma greenhouse_urls_of_id (org token : string) :
  has_char ":" org = false ->
  greenhouse_urls ("greenhouse:" ++ org ++ ":" ++ token)
  = [embed_url org token; board_url org token].
Proof.
  intros Horg. unfold greenhouse_urls.
  replace (String.prefix "greenhouse:" ("greenhouse:" ++ org ++ ":" ++ token)) with true
    by (cbn; now destruct (org ++ ":" ++ token)).
  change ("greenhouse:" ++ org ++ ":" ++ token)
    with ("greenhouse" ++ String ":" (org ++ String ":" token)).
  rewrite split_max_no_sep by reflexivity.
  rewrite split_max_no_sep by exact Horg.
  rewrite split_max_zero. reflexivity.
Qed.

Lemma normalize_gh_id (w : world) (job : json) (org : string) (n : normalized) :
  normalize_gh w job org = Ok n ->
  exists jid, py_item job "id" = Ok jid
              /\ n_id n = "greenhouse:" ++ org ++ ":" ++ py_str w jid.
Proof.
  unfold normalize_gh. destruct (py_item job "id") as [jid|e]; [|discriminate].
  cbn [bind]. intros H. exists jid. split; [reflexivity|].
  repeat match type of H with
         | bind ?r _ = _ => destruct r; [cbn [bind] in H|discriminate]
         end.
  now injection H as <-.
Qed.

Lemma normalize_lever_id (w : world) (job : json) (org : string) (n : normalized) :
  normalize_lever w job org = Ok n ->
  exists jid, py_item job "id" = Ok jid
              /\ n_id n = "lever:" ++ org ++ ":" ++ py_str w jid.
Proof.
  unfold normalize_lever. intros H.
  repeat match type of H with
         | bind ?r _ = _ => destruct r eqn:?; [cbn [bind] in H|discriminate]
         end.
  injection H as <-. eexists. split; [reflexivity|reflexivity].
Qed.

(** X2. The id that [normalize_gh] gives a Greenhouse job is read back by
    [_candidate_apply_urls]: for an organisation slug without a colon the
    first two candidates are the embedded form and the board page of that
    organisation and that job, whatever the job's own id looks like; the
    stored url follows when it is not empty and differs from both. The id
    that [normalize_lever] gives has no candidate but the stored url. *)
Theorem candidate_urls_of_normalized :
  forall (w : world) (job : json) (org : string) (n : normalized) (url_from_db : option string),
    has_char ":" org = false ->
    (normalize_gh w job org = Ok n ->
     exists jid rest,
       py_item job "id" = Ok jid
       /\ _candidate_apply_urls (n_id n) url_from_db
          = embed_url org (py_str w jid) :: board_url org (py_str w jid) :: rest
       /\ (rest = [] \/ exists u, url_from_db = Some u /\ rest = [u]))
    /\ (normalize_lever w job org = Ok n ->
        forall u, u ∈ _candidate_apply_urls (n_id n) url_from_db -> url_from_db = Some u).
Proof.
  intros w job org n url Horg. split.
  - intros Hn. destruct (normalize_gh_id w job org n Hn) as (jid & Hjid & Hid).
    exists jid. rewrite Hid. unfold _candidate_apply_urls.
    rewrite (greenhouse_urls_of_id org (py_str w jid) Horg).
    set (e := embed_url org (py_str w jid)). set (b := board_url org (py_str w jid)).
    assert (He : nonempty e = true) by reflexivity.
    assert (Hb : nonempty b = true) by reflexivity.
    assert (Hbe : b <> e) by (intros H; now apply (embed_not_board org (py_str w jid))).
    assert (H1 : keep_new (∅, []) (Some e) = ({[ e ]} ∪ ∅, [e])).
    { unfold keep_new. cbn [fst snd]. rewrite He.
      rewrite (bool_decide_eq_false_2 (e ∈ (∅ : gset string))) by apply not_elem_of_empty.
      reflexivity. }
    assert (H2 : keep_new ({[ e ]} ∪ ∅, [e]) (Some b) = ({[ b ]} ∪ ({[ e ]} ∪ ∅), [e; b])).
    { unfold keep_new. cbn [fst snd]. rewrite Hb.
      rewrite (bool_decide_eq_false_2 (b ∈ ({[ e ]} ∪ ∅ : gset string))).
      - reflexivity.
      - intros [H|H]%elem_of_union; [now apply elem_of_singleton in H|].
        now apply elem_of_empty in H. }
    cbn [fmap list_fmap app fold_left]. rewrite H1, H2.
    destruct url as [u|]; cbn [keep_new fst snd];
      [|exists []; split; [exact Hjid|]; split; [reflexivity|now left]].
    destruct (nonempty u && negb (bool_decide (u ∈ ({[b]} ∪ ({[e]} ∪ ∅) : gset string))));
      cbn [snd app].
    + exists [u]. split; [exact Hjid|]. split; [reflexivity|]. right. now exists u.
    + exists []. split; [exact Hjid|]. split; [reflexivity|now left].
  - intros Hn u Hu. destruct (normalize_lever_id w job org n Hn) as (jid & _ & Hid).
    rewrite candidate_urls_other in Hu by (rewrite Hid; reflexivity).
    destruct url as [v|]; [|now apply elem_of_nil in Hu].
    destruct (nonempty v); [|now apply elem_of_nil in Hu].
    apply list_elem_of_singleton in Hu. now subst.
Qed.

Lemma candidate_urls_of_normalized_witness :
  exists jid rest,
    py_item sample_job "id" = Ok jid
    /\ _candidate_apply_urls (n_id sample_normalized) (Some "https://stripe.com/jobs/4012")
       = embed_url "stripe" (py_str eu_only jid) :: board_url "stripe" (py_str eu_only jid) :: rest
    /\ (rest = [] \/ exists u, Some "https://stripe.com/jobs/4012" = Some u /\ rest = [u]).
Proof.
  apply (proj1 (candidate_urls_of_normalized eu_only sample_job "stripe" sample_normalized
                  (Some "https://stripe.com/jobs/4012") eq_refl)).
  vm_compute. reflexivity.
Defined.

Example candidate_urls_example :
  _candidate_apply_urls "greenhouse:stripe:4012" (Some "https://stripe.com/jobs/4012")
  = [ "https://boards.greenhouse.io/embed/job_app?for=stripe&token=4012";
      "https://boards.greenhouse.io/stripe/jobs/4012";
      "https://stripe.com/jobs/4012" ]
  /\ _candidate_apply_urls "greenhouse:stripe" None = []
  /\ _candidate_apply_urls "lever:acme:7" (Some "https://jobs.lever.co/acme/7")
     = ["https://jobs.lever.co/acme/7"].
Proof. split; [|split]; vm_compute; reflexivity. Qed.

End NavFacts.

(* ===================================================================== *)
(** ** strip_html *)
(* ===================================================================== *)

Section HtmlFacts.
Import Text Html.

(** *** No tag is left *)

Lemma find_gt_sub_tags (s : string) :
  find_char ">" s = None -> forall skip, find_char ">" (sub_tags skip s) = None.
Proof.
  induction s as [|c rest IH]; intros Hs skip; [reflexivity|].
  cbn [find_char] in Hs. destruct (Ascii.eqb c ">") eqn:Hc; [discriminate|].
  destruct (find_char ">" rest) as [k|] eqn:Hrest; [discriminate|].
  cbn [sub_tags]. destruct skip as [|n]; [|now apply IH].
  rewrite Hrest.
  destruct (Ascii.eqb c "<"); cbn [find_char]; rewrite ?Hc, (IH eq_refl 0); reflexivity.
Qed.

Lemma has_tag_sub_tags (s : string) : forall skip, has_tag (sub_tags skip s) = false.
Proof.
  induction s as [|c rest IH]; intros skip; [reflexivity|].
  cbn [sub_tags]. destruct skip as [|n]; [|apply IH].
  destruct (Ascii.eqb c "<") eqn:Hc.
  - destruct (find_char ">" rest) as [[|k]|] eqn:Hrest.
    + cbn [has_tag tag_here]. rewrite Hc, (IH 0).
      destruct rest as [|d rest']; [discriminate|]. cbn [find_char] in Hrest.
      destruct (Ascii.eqb d ">") eqn:Hd; [|now destruct (find_char ">" rest')].
      cbn [sub_tags]. apply Ascii.eqb_eq in Hd. subst d. cbn [Ascii.eqb Bool.eqb andb find_char].
      reflexivity.
    + cbn [has_tag tag_here]. now rewrite (IH (S (S k))).
    + cbn [has_tag tag_here]. now rewrite Hc, (find_gt_sub_tags rest Hrest 0), (IH 0).
  - cbn [has_tag tag_here]. now rewrite Hc, (IH 0).
Qed.

Lemma find_gt_sub_ws (s : string) :
  find_char ">" s = None -> forall b, find_char ">" (sub_ws b s) = None.
Proof.
  induction s as [|c rest IH]; intros Hs b; [reflexivity|].
  cbn [find_char] in Hs. destruct (Ascii.eqb c ">") eqn:Hc; [discriminate|].
  destruct (find_char ">" rest) as [k|] eqn:Hrest; [discriminate|].
  cbn [sub_ws]. destruct (is_space c); [destruct b|]; cbn [find_char];
    rewrite ?Hc, ?(IH eq_refl); reflexivity.
Qed.

Lemma tag_here_false (c : ascii) (rest : string) :
  tag_here (String c rest) = false <-> (c = "<"%char -> gt_next_or_never rest).
Proof.
  unfold gt_next_or_never. cbn [tag_here]. split.
  - intros H ->. cbn [Ascii.eqb Bool.eqb andb] in H.
    destruct (find_char ">" rest) as [[|k]|]; [now right|discriminate|now left].
  - intros H. destruct (Ascii.eqb c "<") eqn:Hc; [|reflexivity].
    apply Ascii.eqb_eq in Hc. destruct (H Hc) as [-> | ->]; reflexivity.
Qed.

Lemma has_tag_cons (c : ascii) (rest : string) :
  has_tag (String c rest) = false
  <-> (c = "<"%char -> gt_next_or_never rest) /\ has_tag rest = false.
Proof.
  cbn [has_tag]. rewrite orb_false_iff, tag_here_false. reflexivity.
Qed.

Lemma gt_next_sub_ws (s : string) (b : bool) :
  gt_next_or_never s -> gt_next_or_never (sub_ws b s).
Proof.
  intros [H|H]; [left; now apply find_gt_sub_ws|].
  right. destruct s as [|c rest]; [discriminate|]. cbn [find_char] in H.
  destruct (Ascii.eqb c ">") eqn:Hc; [|now destruct (find_char ">" rest)].
  apply Ascii.eqb_eq in Hc. subst c. reflexivity.
Qed.

Lemma has_tag_sub_ws (s : string) :
  has_tag s = false -> forall b, has_tag (sub_ws b s) = false.
Proof.
  induction s as [|c rest IH]; intros Hs b; [reflexivity|].
  apply has_tag_cons in Hs as [Hc Hrest]. cbn [sub_ws].
  destruct (is_space c) eqn:Hsp.
  - destruct b; [now apply IH|]. apply has_tag_cons. split; [discriminate|now apply IH].
  - apply has_tag_cons. split; [|now apply IH].
    intros Hlt. now apply gt_next_sub_ws, Hc.
Qed.

Lemma has_tag_lstrip (s : string) : has_tag s = false -> has_tag (lstrip s) = false.
Proof.
  induction s as [|c rest IH]; intros Hs; [reflexivity|].
  cbn [lstrip]. destruct (is_space c); [|exact Hs].
  apply has_tag_cons in Hs as [_ Hrest]. now apply IH.
Qed.

Lemma rstrip_cons (c : ascii) (rest : string) :
  rstrip (String c rest)
  = if nonempty (rstrip rest) then String c (rstrip rest)
    else if is_space c then "" else String c "".
Proof. cbn [rstrip]. now destruct (rstrip rest). Qed.

Lemma find_rstrip (c : ascii) (s : string) :
  find_char c s = None -> find_char c (rstrip s) = None.
Proof.
  induction s as [|x rest IH]; intros Hs; [reflexivity|].
  cbn [find_char] in Hs. destruct (Ascii.eqb x c) eqn:Hx; [discriminate|].
  destruct (find_char c rest) as [k|] eqn:Hrest; [discriminate|].
  rewrite rstrip_cons. destruct (nonempty (rstrip rest)).
  - cbn [find_char]. now rewrite Hx, (IH eq_refl).
  - destruct (is_space x); [reflexivity|]. cbn [find_char]. now rewrite Hx.
Qed.

Lemma gt_next_rstrip (s : string) : gt_next_or_never s -> gt_next_or_never (rstrip s).
Proof.
  intros [H|H]; [left; now apply find_rstrip|].
  right. destruct s as [|c rest]; [discriminate|]. cbn [find_char] in H.
  destruct (Ascii.eqb c ">") eqn:Hc; [|now destruct (find_char ">" rest)].
  apply Ascii.eqb_eq in Hc. subst c. rewrite rstrip_cons.
  now destruct (nonempty (rstrip rest)).
Qed.

Lemma has_tag_rstrip (s : string) : has_tag s = false -> has_tag (rstrip s) = false.
Proof.
  induction s as [|c rest IH]; intros Hs; [reflexivity|].
  apply has_tag_cons in Hs as [Hc Hrest]. rewrite rstrip_cons.
  destruct (nonempty (rstrip rest)) eqn:Hne.
  - apply has_tag_cons. split; [|now apply IH]. intros Hlt. now apply gt_next_rstrip, Hc.
  - destruct (is_space c); [reflexivity|]. apply has_tag_cons. split; [|reflexivity].
    intros _. now left.
Qed.

(** *** White space *)

Lemma no_runs_sub_ws (s : string) :
  forall b, no_runs (sub_ws b s) = true
            /\ (b = true -> starts_black (sub_ws b s) = true).
Proof.
  induction s as [|c rest IH]; intros b; [now split|].
  cbn [sub_ws]. destruct (is_space c) eqn:Hsp.
  - destruct b; [apply IH|]. split; [|discriminate].
    cbn [no_runs]. destruct (IH true) as [-> ->]; reflexivity.
  - split; [|intros _; cbn [starts_black]; now rewrite Hsp].
    cbn [no_runs]. rewrite Hsp. apply IH.
Qed.

Lemma no_runs_lstrip (s : string) :
  no_runs s = true -> no_runs (lstrip s) = true /\ starts_black (lstrip s) = true.
Proof.
  induction s as [|c rest IH]; intros Hs; [now split|].
  cbn [lstrip]. destruct (is_space c) eqn:Hsp.
  - apply IH. cbn [no_runs] in Hs. now apply andb_true_iff in Hs as [_ Hs].
  - split; [exact Hs|]. cbn [starts_black]. now rewrite Hsp.
Qed.

Lemma starts_black_rstrip (s : string) :
  starts_black s = true -> starts_black (rstrip s) = true.
Proof.
  destruct s as [|c rest]; [reflexivity|]. cbn [starts_black]. intros Hc.
  rewrite rstrip_cons. destruct (nonempty (rstrip rest)); [exact Hc|].
  apply negb_true_iff in Hc. rewrite Hc. cbn [starts_black]. now rewrite Hc.
Qed.

Lemma single_spaced_rstrip (s : string) :
  no_runs s = true -> single_spaced (rstrip s) = true.
Proof.
  induction s as [|c rest IH]; intros Hs; [reflexivity|].
  cbn [no_runs] in Hs. apply andb_true_iff in Hs as [Hc Hrest].
  rewrite rstrip_cons. destruct (nonempty (rstrip rest)) eqn:Hne.
  - cbn [single_spaced]. rewrite (IH Hrest), andb_true_r.
    destruct (is_space c); [|reflexivity].
    apply andb_true_iff in Hc as [-> Hblack]. cbn [andb].
    apply starts_black_rstrip in Hblack.
    destruct (rstrip rest) as [|d r]; [discriminate|exact Hblack].
  - destruct (is_space c) eqn:Hsp; [reflexivity|]. cbn [single_spaced]. now rewrite Hsp.
Qed.

(** *** A clean text is left as it is *)

Lemma sub_tags_clean (s : string) : has_tag s = false -> sub_tags 0 s = s.
Proof.
  induction s as [|c rest IH]; intros Hs; [reflexivity|].
  apply has_tag_cons in Hs as [Hc Hrest]. cbn [sub_tags].
  destruct (Ascii.eqb c "<") eqn:Hlt; [|now rewrite IH].
  apply Ascii.eqb_eq in Hlt. destruct (Hc Hlt) as [-> | ->]; now rewrite IH.
Qed.

Lemma single_spaced_no_runs (s : string) : single_spaced s = true -> no_runs s = true.
Proof.
  induction s as [|c rest IH]; intros Hs; [reflexivity|].
  cbn [single_spaced] in Hs. apply andb_true_iff in Hs as [Hc Hrest].
  cbn [no_runs]. rewrite (IH Hrest), andb_true_r.
  destruct (is_space c); [|reflexivity].
  apply andb_true_iff in Hc as [-> Hnext]. now destruct rest.
Qed.

Lemma sub_ws_clean (s : string) :
  no_runs s = true -> forall b, (b = true -> starts_black s = true) -> sub_ws b s = s.
Proof.
  induction s as [|c rest IH]; intros Hs b Hb; [reflexivity|].
  cbn [no_runs] in Hs. apply andb_true_iff in Hs as [Hc Hrest]. cbn [sub_ws].
  destruct (is_space c) eqn:Hsp.
  - apply andb_true_iff in Hc as [Hc Hblack]. apply Ascii.eqb_eq in Hc. subst c.
    destruct b.
    + specialize (Hb eq_refl). cbn [starts_black] in Hb. now rewrite Hsp in Hb.
    + now rewrite (IH Hrest true).
  - now rewrite (IH Hrest false).
Qed.

Lemma lstrip_clean (s : string) : starts_black s = true -> lstrip s = s.
Proof.
  destruct s as [|c rest]; [reflexivity|]. cbn [starts_black lstrip].
  intros Hc. apply negb_true_iff in Hc. now rewrite Hc.
Qed.

Lemma rstrip_clean (s : string) : single_spaced s = true -> rstrip s = s.
Proof.
  induction s as [|c rest IH]; intros Hs; [reflexivity|].
  cbn [single_spaced] in Hs. apply andb_true_iff in Hs as [Hc Hrest].
  rewrite rstrip_cons, (IH Hrest). destruct rest as [|d r]; [|reflexivity].
  cbn [nonempty]. destruct (is_space c); [|reflexivity].
  now rewrite andb_false_r in Hc.
Qed.

Lemma strip_html_facts (s : string) :
  has_tag (strip_html s) = false
  /\ single_spaced (strip_html s) = true
  /\ starts_black (strip_html s) = true.
Proof.
  unfold strip_html. destruct (nonempty s); cbn [negb]; [|now split].
  unfold strip.
  destruct (no_runs_sub_ws (sub_tags 0 s) false) as [Hruns _].
  destruct (no_runs_lstrip _ Hruns) as [Hruns' Hblack].
  split; [|split].
  - apply has_tag_rstrip, has_tag_lstrip, has_tag_sub_ws, has_tag_sub_tags.
  - now apply single_spaced_rstrip.
  - now apply starts_black_rstrip.
Qed.

(** A tag in a text, as the pattern [<[^>]+>] reads it. *)
Lemma has_tag_complete (before body after : string) :
  body <> "" -> find_char ">" body = None ->
  has_tag (before ++ "<" ++ body ++ ">" ++ after) = true.
Proof.
  intros Hbody Hnone. induction before as [|c before IH].
  - change ("" ++ "<" ++ body ++ ">" ++ after) with (String "<" (body ++ String ">" after)).
    cbn [has_tag tag_here Ascii.eqb Bool.eqb andb].
    assert (Hfind : exists k, find_char ">" (body ++ String ">" after) = Some (S k)).
    { destruct body as [|d body]; [congruence|]. clear Hbody.
      change (String d body ++ String ">" after) with (String d (body ++ String ">" after)).
      cbn [find_char] in *. destruct (Ascii.eqb d ">"); [discriminate|].
      destruct (find_char ">" body) as [k|] eqn:Hb; [discriminate|].
      assert (Hk : exists k, find_char ">" (body ++ String ">" after) = Some k).
      { clear Hnone. induction body as [|x body IHb].
        - exists 0. reflexivity.
        - change (String x body ++ String ">" after) with (String x (body ++ String ">" after)).
          cbn [find_char] in *. destruct (Ascii.eqb x ">"); [discriminate|].
          destruct (find_char ">" body) as [j|]; [discriminate|].
          destruct (IHb eq_refl) as [k ->]. now exists (S k). }
      destruct Hk as [k ->]. now exists k. }
    destruct Hfind as [k ->]. reflexivity.
  - change (String c before ++ "<" ++ body ++ ">" ++ after)
      with (String c (before ++ "<" ++ body ++ ">" ++ after)).
    cbn [has_tag]. rewrite IH. apply orb_true_r.
Qed.

Lemma single_spaced_sound (t : string) :
  single_spaced t = true ->
  forall before c after,
    t = before ++ String c after -> is_space c = true ->
    c = " "%char /\ exists d after', after = String d after' /\ is_space d = false.
Proof.
  intros Ht before. revert t Ht.
  induction before as [|x before IH]; intros t Ht c after -> Hc.
  - change ("" ++ String c after) with (String c after) in Ht.
    cbn [single_spaced] in Ht. rewrite Hc in Ht.
    apply andb_true_iff in Ht as [Ht _]. apply andb_true_iff in Ht as [Heq Hnext].
    apply Ascii.eqb_eq in Heq. split; [exact Heq|].
    destruct after as [|d after']; [discriminate|].
    exists d, after'. split; [reflexivity|now apply negb_true_iff].
  - change (String x before ++ String c after) with (String x (before ++ String c after)) in Ht.
    cbn [single_spaced] in Ht. apply andb_true_iff in Ht as [_ Ht].
    exact (IH _ Ht c after eq_refl Hc).
Qed.

(** X3. The text that [strip_html] returns holds no tag: nowhere in it is
    a [<] followed by one or more characters other than [>] and then a
    [>]. Its white space is normalized: every white-space character is a
    plain space that stands between two characters that are not white
    space, so there is none at either end and no two in a row. *)
Theorem strip_html_clean :
  forall s : string,
    has_tag (strip_html s) = false
    /\ (forall before body after,
          strip_html s = before ++ "<" ++ body ++ ">" ++ after ->
          body = "" \/ find_char ">" body <> None)
    /\ single_spaced (strip_html s) = true
    /\ starts_black (strip_html s) = true
    /\ (forall before c after,
          strip_html s = before ++ String c after -> is_space c = true ->
          c = " "%char /\ before <> ""
          /\ exists d after', after = String d after' /\ is_space d = false).
Proof.
  intros s. destruct (strip_html_facts s) as (Htag & Hsp & Hblack).
  split; [exact Htag|]. split; [|split; [exact Hsp|split; [exact Hblack|]]].
  - intros before body after Heq.
    destruct (string_dec body "") as [Hb|Hb]; [now left|right].
    intros Hnone. rewrite Heq, (has_tag_complete before body after Hb Hnone) in Htag.
    discriminate.
  - intros before c after Heq Hc.
    destruct (single_spaced_sound _ Hsp before c after Heq Hc) as [Hplain Hnext].
    split; [exact Hplain|]. split; [|exact Hnext].
    intros ->. rewrite Heq in Hblack.
    change ("" ++ String c after) with (String c after) in Hblack.
    cbn [starts_black] in Hblack. now rewrite Hc in Hblack.
Qed.

(** X4. [strip_html] is idempotent: a text it has cleaned is returned as
    it is. *)
Theorem strip_html_idempotent :
  forall s : string, strip_html (strip_html s) = strip_html s.
Proof.
  intros s. destruct (strip_html_facts s) as (Htag & Hsp & Hblack).
  generalize dependent (strip_html s). intros t Htag Hsp Hblack.
  unfold strip_html. destruct (nonempty t) eqn:Hne; cbn [negb]; [|now destruct t].
  rewrite (sub_tags_clean t Htag).
  rewrite (sub_ws_clean t (single_spaced_no_runs t Hsp) false) by discriminate.
  unfold strip. rewrite (lstrip_clean t Hblack). now apply rstrip_clean.
Qed.

Example strip_html_example :
  strip_html "<p>Build  <b>data</b>
   pipelines</p> a<>b 1 < 2" = "Build data pipelines a<>b 1 < 2".
Proof. vm_compute. reflexivity. Qed.

End HtmlFacts.

Section ScoreJobsFacts.
Import Text Py Store Fetch Html Score ScoreJobs Writer.
#[local] Open Scope float_scope.

(** *** The score as a number *)

Lemma skill_score_in_range pr (text : string) : in_0_100 (skill_score pr text) = true.
Proof.
  rewrite skill_score_counts.
  apply score_of_counts_in_range; (etransitivity; [apply count_hits_le|cbn; lia]).
Qed.

Lemma in_range_not_nan (x : float) : in_0_100 x = true -> PrimFloat.is_nan x = false.
Proof.
  unfold in_0_100, PrimFloat.is_nan. intros H. apply andb_true_iff in H as [H _].
  rewrite FloatAxioms.leb_spec in H. rewrite FloatAxioms.eqb_spec.
  change (Prim2SF 0) with (S754_zero false) in H.
  destruct (Prim2SF x) as [s|s| |s m e]; cbn in H |- *; try discriminate; try reflexivity.
  - now destruct s.
  - unfold SFeqb. cbn [SFcompare]. rewrite Z.compare_refl, Pos.compare_cont_refl.
    now destruct s.
Qed.

Lemma score_value_in_range (x : float) :
  in_0_100 x = true -> score_value x = VReal (Prim2SF x).
Proof. intros H. unfold score_value. now rewrite (in_range_not_nan x H). Qed.

(** The 504 combinations of hit counts, looked at one by one. *)
Lemma score_table_facts :
  (let table := map (fun c => (c, score_at c)) all_counts in
   forallb (fun a =>
              Bool.eqb (snd a =? 100) (counts_le (3, 5, 6, 2)%nat (fst a))
              && Bool.eqb (snd a =? 0) (counts_le (fst a) (0, 0, 0, 0)%nat)
              && forallb (fun b => implb (counts_le (fst a) (fst b)) (snd a <=? snd b)) table)
           table) = true.
Proof. vm_compute. reflexivity. Qed.

Lemma score_table_at (a : nat * nat * nat * nat) :
  In a all_counts ->
  (score_at a =? 100) = counts_le (3, 5, 6, 2)%nat a
  /\ (score_at a =? 0) = counts_le a (0, 0, 0, 0)%nat
  /\ forall b, In b all_counts -> counts_le a b = true -> (score_at a <=? score_at b) = true.
Proof.
  intros Ha. pose proof score_table_facts as H. cbv zeta in H.
  rewrite forallb_forall in H.
  specialize (H (a, score_at a) (in_map (fun c => (c, score_at c)) _ _ Ha)).
  cbn [fst snd] in H. apply andb_true_iff in H as [H Hmono]. apply andb_true_iff in H as [H100 H0].
  apply Bool.eqb_prop in H100, H0. split; [exact H100|]. split; [exact H0|].
  intros b Hb Hle. rewrite forallb_forall in Hmono.
  specialize (Hmono (b, score_at b) (in_map (fun c => (c, score_at c)) _ _ Hb)).
  cbn [fst snd] in Hmono. now rewrite Hle in Hmono.
Qed.

Lemma skill_score_at pr (text : string) :
  skill_score pr text = score_at (counts_of pr text) /\ In (counts_of pr text) all_counts.
Proof.
  split; [apply skill_score_counts|].
  apply in_all_counts; (etransitivity; [apply count_hits_le|cbn; lia]).
Qed.

Lemma count_hits_mono pr (text1 text2 : string) (names : list string) :
  forallb (fun skill => implb (hits pr text1 skill) (hits pr text2 skill)) names = true ->
  (count_hits pr (normalize_text text1) names <= count_hits pr (normalize_text text2) names)%nat.
Proof.
  induction names as [|skill rest IH]; intros H; [cbn; lia|].
  cbn [forallb] in H. apply andb_true_iff in H as [Hs Hrest]. specialize (IH Hrest).
  cbn [count_hits]. unfold hits in Hs.
  destruct (exact_or_fuzzy_hit pr (lower skill) (normalize_text text1));
    destruct (exact_or_fuzzy_hit pr (lower skill) (normalize_text text2));
    cbn in Hs; try discriminate; lia.
Qed.

Lemma count_hits_all pr (text : string) (names : list string) :
  (length names <=? count_hits pr (normalize_text text) names)%nat
  = forallb (hits pr text) names.
Proof.
  induction names as [|skill rest IH]; [reflexivity|].
  cbn [count_hits length forallb]. unfold hits at 1.
  pose proof (count_hits_le pr (normalize_text text) rest) as Hle.
  destruct (exact_or_fuzzy_hit pr (lower skill) (normalize_text text)); cbn [andb].
  - rewrite <- IH. reflexivity.
  - apply Nat.leb_gt. cbn. lia.
Qed.

Lemma count_hits_none pr (text : string) (names : list string) :
  (count_hits pr (normalize_text text) names <=? 0)%nat
  = forallb (fun skill => negb (hits pr text skill)) names.
Proof.
  induction names as [|skill rest IH]; [reflexivity|].
  cbn [count_hits forallb]. unfold hits at 1.
  destruct (exact_or_fuzzy_hit pr (lower skill) (normalize_text text)); cbn [negb andb].
  - reflexivity.
  - exact IH.
Qed.

(** X5. A text that hits every skill another text hits never scores
    lower. *)
Theorem skill_score_monotone :
  forall (pr : string -> string -> float) (text1 text2 : string),
    forallb (fun skill => implb (hits pr text1 skill) (hits pr text2 skill)) skill_names = true ->
    (skill_score pr text1 <=? skill_score pr text2) = true.
Proof.
  intros pr text1 text2 H.
  destruct (skill_score_at pr text1) as [-> H1].
  destruct (skill_score_at pr text2) as [-> H2].
  apply (proj2 (proj2 (score_table_at _ H1)) _ H2).
  change skill_names
    with (["python"; "typescript"; "go"]
          ++ ["nlp"; "transformers"; "langchain"; "retrieval"; "llmops"]
          ++ ["postgres"; "docker"; "kubernetes"; "playwright"; "aws"; "gcp"]
          ++ ["python"; "typescript"])%list in H.
  rewrite !forallb_app in H.
  apply andb_true_iff in H as [Ha H]. apply andb_true_iff in H as [Hb H].
  apply andb_true_iff in H as [Hc Hd].
  apply (count_hits_mono pr text1 text2) in Ha, Hb, Hc, Hd.
  unfold counts_of, counts_le. cbv zeta.
  repeat (apply andb_true_iff; split); now apply Nat.leb_le.
Qed.

Lemma skill_score_monotone_witness :
  (skill_score (fun _ _ => 0) "We use Docker." <=? skill_score (fun _ _ => 0) "Python, Docker, AWS")
  = true.
Proof.
  apply (skill_score_monotone (fun _ _ => 0) "We use Docker." "Python, Docker, AWS").
  vm_compute. reflexivity.
Defined.

(** X6. The score is 100 exactly when every skill of the profile is found
    in the text, and 0 exactly when none is. *)
Theorem skill_score_extremes :
  forall (pr : string -> string -> float) (text : string),
    (skill_score pr text =? 100) = forallb (hits pr text) skill_names
    /\ (skill_score pr text =? 0)
       = forallb (fun skill => negb (hits pr text skill)) skill_names.
Proof.
  intros pr text. destruct (skill_score_at pr text) as [-> Hin].
  destruct (score_table_at _ Hin) as (H100 & H0 & _). rewrite H100, H0.
  change skill_names
    with (["python"; "typescript"; "go"]
          ++ ["nlp"; "transformers"; "langchain"; "retrieval"; "llmops"]
          ++ ["postgres"; "docker"; "kubernetes"; "playwright"; "aws"; "gcp"]
          ++ ["python"; "typescript"])%list.
  rewrite !forallb_app, <- !count_hits_all, <- !count_hits_none.
  unfold counts_of, counts_le. cbv zeta. cbn [length].
  split; now rewrite !andb_assoc.
Qed.

Example skill_score_examples :
  skill_score (fun _ _ => 0) "We use Docker." = 5.4
  /\ skill_score (fun _ _ => 0) "Python, Docker, AWS" = 23.5
  /\ skill_score (fun _ _ => 0) "" = 0.
Proof. split; [|split]; vm_compute; reflexivity. Qed.

End ScoreJobsFacts.

Section ScoreAllFacts.
Import Text Py Store Fetch Html Score ScoreJobs Writer.

(** *** The text of a job *)

Lemma strip_html_of_or_empty (c : json) :
  strip_html_of (or_else c (JStr "")) = strip_html_of c.
Proof.
  unfold or_else. destruct (truthy_json c) eqn:Hc; [reflexivity|].
  destruct c as [| | |s| |]; cbn in Hc |- *; rewrite ?Hc; try reflexivity.
  now destruct s.
Qed.

(** X7. [writer.extract_description] and
    [score_jobs.job_text_from_payload] are the same function: for every
    payload and source they return the same text or raise the same
    exception, so a cover letter is written from the text that was
    scored. *)
Theorem extract_description_is_job_text :
  forall (e : env) (payload : json) (source : string),
    extract_description e payload source = job_text_from_payload e payload source.
Proof.
  intros e payload source. unfold extract_description, job_text_from_payload.
  destruct (String.eqb source "greenhouse").
  - destruct payload as [| | | | |d]; try reflexivity. cbn [py_get bind].
    rewrite strip_html_of_or_empty.
    destruct (strip_html_of _) as [text|ex]; [|reflexivity]. cbn [bind].
    now destruct (assoc "title" d).
  - destruct (String.eqb source "lever"); [|reflexivity].
    destruct payload as [| | | | |d]; try reflexivity. cbn [py_get bind].
    destruct (or_get _ _) as [b|ex]; [|reflexivity]. cbn [bind].
    destruct (strip_html_of _) as [text|ex]; [|reflexivity]. cbn [bind].
    destruct (assoc "text" d) as [v|]; cbn [default]; unfold or_get.
    + change (Datatypes.id v) with v.
      destruct (truthy_json v); [reflexivity|]. now destruct (assoc "title" d).
    + cbn [truthy_json nonempty]. now destruct (assoc "title" d).
Qed.

(** X8. [safe_get] is plain indexing made safe: it returns what
    [payload[k1][k2]...] evaluates to when that is a string, and the
    default in every other case, be it a missing key, a value on the way
    that is no dict, or a result that is no string. *)
Theorem safe_get_is_guarded_indexing :
  forall (keys : list string) (payload : json) (dflt : string),
    safe_get payload keys dflt
    = match index_path payload keys with
      | Ok (JStr s) => s
      | _ => dflt
      end.
Proof.
  induction keys as [|k rest IH]; intros payload dflt; [reflexivity|].
  cbn [safe_get index_path]. destruct payload as [| | | | |d]; try reflexivity.
  cbn [py_item]. destruct (assoc k d) as [v|]; [|reflexivity]. cbn [bind]. apply IH.
Qed.

(** *** score_all *)

Lemma update_rows_ok (checks : table) (job_id score : value) (todo : list row) :
  forall done rows',
    update_rows checks job_id score done todo = Ok rows' ->
    rows' = (done ++ map (fun cur => if sql_eq (row_get "id" cur) job_id
                                     then <["score" := score]> cur else cur) todo)%list.
Proof.
  induction todo as [|r rest IH]; intros done rows' H; cbn [update_rows map] in *.
  - injection H as <-. now rewrite app_nil_r.
  - destruct (sql_eq (row_get "id" r) job_id).
    + destruct (violates_not_null _ _); [discriminate|].
      destruct (violates_unique _ _ _); [discriminate|].
      rewrite (IH _ _ H), <- app_assoc. reflexivity.
    + rewrite (IH _ _ H), <- app_assoc. reflexivity.
Qed.

Lemma score_constraints_none (t : table) :
  score_unconstrained t = true ->
  forall others new,
    violates_not_null (score_constraints t) new = false
    /\ violates_unique (score_constraints t) others new = false.
Proof.
  intros Hfree others new. unfold score_unconstrained in Hfree.
  rewrite forallb_forall in Hfree.
  split; apply existsb_false_intro; intros c Hc; cbn [score_constraints tbl_columns] in Hc;
    apply list_elem_of_In, filter_In in Hc as [Hc Hname]; specialize (Hfree c Hc);
    rewrite Hname in Hfree;
    cbn [negb orb] in Hfree; apply negb_true_iff in Hfree;
    apply orb_false_iff in Hfree as [Hfree Hu]; apply orb_false_iff in Hfree as [Hn Hp].
  - now rewrite Hn.
  - now rewrite Hp, Hu.
Qed.

Lemma update_rows_free (t : table) (job_id score : value) (todo : list row) :
  score_unconstrained t = true ->
  forall done, exists rows', update_rows (score_constraints t) job_id score done todo = Ok rows'.
Proof.
  intros Hfree. induction todo as [|r rest IH]; intros done; cbn [update_rows].
  - now exists done.
  - destruct (sql_eq (row_get "id" r) job_id); [|apply IH].
    destruct (score_constraints_none t Hfree (done ++ rest)%list (<["score" := score]> r))
      as [-> ->].
    apply IH.
Qed.

Lemma update_score_ok (job_id score : value) (t t' : table) :
  update_score job_id score t = Ok t' ->
  tbl_columns t' = tbl_columns t
  /\ tbl_rows t' = map (fun cur => if sql_eq (row_get "id" cur) job_id
                                   then <["score" := score]> cur else cur) (tbl_rows t).
Proof.
  unfold update_score. destruct (update_rows _ _ _ _ _) as [rows'|ex] eqn:Hrows; [|discriminate].
  cbn [bind]. intros [= <-]. apply update_rows_ok in Hrows. now subst.
Qed.

Lemma sql_eq_rescored (cur r : row) (v : value) (job_id : value) :
  sql_eq (row_get "id" (<["score" := v]> cur)) job_id = sql_eq (row_get "id" cur) job_id.
Proof. unfold row_get. now rewrite lookup_insert_ne by discriminate. Qed.

(** The loop, when it ends: every job has a text, and a row of the table
    has gone through the iterations in order. *)
Lemma score_loop_ok (e : env) (todo : list row) :
  forall t t',
    score_loop e todo t = Ok t' ->
    Forall (fun r => is_ok (row_text e r) = true) todo
    /\ tbl_columns t' = tbl_columns t
    /\ tbl_rows t' = map (fun cur => fold_left (rescore e) todo cur) (tbl_rows t).
Proof.
  induction todo as [|r rest IH]; intros t t' H; cbn [score_loop] in H.
  - injection H as <-. split; [constructor|]. split; [reflexivity|].
    cbn [fold_left]. now rewrite map_id.
  - destruct (row_text e r) as [text|ex] eqn:Htext; [|discriminate]. cbn [bind] in H.
    destruct (update_score _ _ t) as [t1|ex] eqn:Hup; [|discriminate]. cbn [bind] in H.
    destruct (IH _ _ H) as (Hall & Hcols & Hrows).
    destruct (update_score_ok _ _ _ _ Hup) as [Hcols1 Hrows1].
    split; [constructor; [now rewrite Htext|exact Hall]|].
    split; [congruence|].
    rewrite Hrows, Hrows1, map_map. apply map_ext. intros cur. cbn [fold_left].
    f_equal. unfold rescore, new_score. now rewrite Htext.
Qed.

(** On a table whose score column has no constraint the loop ends when
    every job has a text. *)
Lemma score_loop_free (e : env) (todo : list row) :
  forall t,
    score_unconstrained t = true ->
    Forall (fun r => is_ok (row_text e r) = true) todo ->
    exists t', score_loop e todo t = Ok t'.
Proof.
  induction todo as [|r rest IH]; intros t Hfree Hall; cbn [score_loop].
  - now exists t.
  - inversion Hall as [|? ? Hr Hrest]; subst.
    destruct (row_text e r) as [text|ex]; [|discriminate]. cbn [bind].
    unfold update_score.
    destruct (update_rows_free t (row_get "id" r)
                (score_value (skill_score (fuzz_partial_ratio e) text)) (tbl_rows t) Hfree [])
      as [rows' ->].
    cbn [bind]. apply IH; [exact Hfree|exact Hrest].
Qed.

(** The first job without a text ends the loop with its exception. *)
Lemma score_loop_err (e : env) (todo : list row) :
  forall t ex,
    score_unconstrained t = true ->
    score_loop e todo t = Err ex ->
    exists before r after,
      todo = (before ++ r :: after)%list
      /\ Forall (fun r => is_ok (row_text e r) = true) before
      /\ row_text e r = Err ex.
Proof.
  induction todo as [|r rest IH]; intros t ex Hfree H; cbn [score_loop] in H; [discriminate|].
  destruct (row_text e r) as [text|ex'] eqn:Htext.
  - cbn [bind] in H. unfold update_score in H.
    destruct (update_rows_free t (row_get "id" r)
                (score_value (skill_score (fuzz_partial_ratio e) text)) (tbl_rows t) Hfree [])
      as [rows' Hrows].
    rewrite Hrows in H. cbn [bind] in H.
    destruct (IH (Table (tbl_columns t) rows') ex Hfree H)
      as (before & r' & after & -> & Hall & Herr).
    exists (r :: before), r', after. split; [reflexivity|].
    split; [constructor; [now rewrite Htext|exact Hall]|exact Herr].
  - cbn [bind] in H. injection H as <-.
    exists [], r, rest. split; [reflexivity|]. split; [constructor|exact Htext].
Qed.

Lemma ensure_score_column_ok (db db1 : database) :
  ensure_score_column db = Ok db1 ->
  exists t t1,
    db !! "jobs" = Some t /\ db1 !! "jobs" = Some t1
    /\ tbl_rows t1 = tbl_rows t
    /\ (tbl_columns t1 = tbl_columns t
        \/ tbl_columns t1 = (tbl_columns t ++ [SCORE_COLUMN])%list)
    /\ (forall name, name <> "jobs" -> db1 !! name = db !! name).
Proof.
  unfold ensure_score_column, table_info, alter_table_add_column.
  destruct (db !! "jobs") as [t|] eqn:Hjobs.
  - destruct (bool_decide _).
    + intros [= <-]. exists t, t. rewrite Hjobs. repeat split; auto.
    + destruct (existsb _ _); [discriminate|]. intros [= <-].
      exists t, (Table (tbl_columns t ++ [SCORE_COLUMN]) (tbl_rows t)).
      rewrite lookup_insert_eq. repeat split; auto.
      intros name Hname. now rewrite lookup_insert_ne.
  - rewrite bool_decide_eq_false_2 by apply not_elem_of_nil. discriminate.
Qed.

Lemma sql_eq_text (i : string) (v : value) : sql_eq (VText i) v = true <-> v = VText i.
Proof.
  destruct v as [|j|x]; cbn [sql_eq]; try (split; [discriminate|discriminate]).
  rewrite String.eqb_eq. split; congruence.
Qed.

Lemma rescore_other (e : env) (cur r : row) (c : string) :
  c <> "score" -> rescore e cur r !! c = cur !! c.
Proof.
  intros Hc. unfold rescore. destruct (sql_eq _ _); [|reflexivity].
  now rewrite lookup_insert_ne.
Qed.

Lemma fold_rescore_other (e : env) (todo : list row) (c : string) :
  c <> "score" -> forall cur, fold_left (rescore e) todo cur !! c = cur !! c.
Proof.
  intros Hc. induction todo as [|r rest IH]; intros cur; [reflexivity|].
  cbn [fold_left]. now rewrite IH, rescore_other.
Qed.

Lemma fold_rescore_untouched (e : env) (todo : list row) :
  forall cur,
    Forall (fun r => sql_eq (row_get "id" cur) (row_get "id" r) = false) todo ->
    fold_left (rescore e) todo cur = cur.
Proof.
  induction todo as [|r rest IH]; intros cur Hall; [reflexivity|].
  inversion Hall as [|? ? Hr Hrest]; subst. cbn [fold_left].
  unfold rescore at 2. rewrite Hr. now apply IH.
Qed.

Lemma new_score_scored (e : env) (r cur : row) :
  is_ok (row_text e r) = true -> scored (<["score" := new_score e r]> cur).
Proof.
  intros Hok. unfold new_score. destruct (row_text e r) as [text|ex]; [|discriminate].
  exists (skill_score (fuzz_partial_ratio e) text).
  pose proof (skill_score_in_range (fuzz_partial_ratio e) text) as Hrange.
  split; [|exact Hrange]. unfold row_get. rewrite lookup_insert_eq. cbn [default].
  now apply score_value_in_range.
Qed.

Lemma fold_rescore_scored (e : env) (todo : list row) :
  Forall (fun r => is_ok (row_text e r) = true) todo ->
  forall cur,
    scored cur \/ Exists (fun r => sql_eq (row_get "id" cur) (row_get "id" r) = true) todo ->
    scored (fold_left (rescore e) todo cur).
Proof.
  induction todo as [|r rest IH]; intros Hall cur Hcur.
  - destruct Hcur as [Hcur|Hex]; [exact Hcur|inversion Hex].
  - inversion Hall as [|? ? Hr Hrest]; subst. cbn [fold_left]. apply (IH Hrest).
    unfold rescore. destruct (sql_eq (row_get "id" cur) (row_get "id" r)) eqn:Heq.
    + left. now apply new_score_scored.
    + destruct Hcur as [Hcur|Hex]; [now left|right].
      inversion Hex as [? ? Hhere|? ? Hlater]; subst; [congruence|exact Hlater].
Qed.

Lemma filter_nil_forall {A} (P : A -> Prop) `{!forall x, Decision (P x)} (l : list A) :
  length (filter P l) = 0%nat -> Forall (fun x => ~ P x) l.
Proof.
  induction l as [|x l IH]; intros Hlen; [constructor|].
  rewrite filter_cons in Hlen. destruct (decide (P x)); [discriminate|].
  constructor; [assumption|now apply IH].
Qed.

(** X9. When [score_all] returns, the stored jobs are the same rows in
    the same order, and nothing but their score has changed. Every job
    with a text id has a score between 0 and 100; when no other job has
    that id it is the [skill_score] of the job's own text. A job whose id
    is NULL is left as it was, and no other table is touched. *)
Theorem score_all_scores :
  forall (e : env) (db db' : database),
    score_all e db = (db', Ok tt) ->
    exists t t',
      db !! "jobs" = Some t /\ db' !! "jobs" = Some t'
      /\ (forall name, name <> "jobs" -> db' !! name = db !! name)
      /\ Forall2 (fun r r' =>
                    (forall c, c <> "score" -> r' !! c = r !! c)
                    /\ (forall i, row_get "id" r = VText i -> scored r')
                    /\ (forall i, row_get "id" r = VText i ->
                                  length (rows_with_id i db) = 1%nat ->
                                  exists text,
                                    row_text e r = Ok text
                                    /\ row_get "score" r'
                                       = VReal (Prim2SF (skill_score (fuzz_partial_ratio e) text)))
                    /\ (row_get "id" r = VNull -> r' = r))
                 (tbl_rows t) (tbl_rows t').
Proof.
  intros e db db' H. unfold score_all in H.
  destruct (ensure_score_column db) as [db1|ex] eqn:Hcol; [|discriminate].
  destruct (ensure_score_column_ok _ _ Hcol) as (t & t1 & Hjobs & Hjobs1 & Hrows1 & _ & Hother).
  rewrite Hjobs1 in H. destruct (negb _); [discriminate|].
  destruct (score_loop e (tbl_rows t1) t1) as [t'|ex] eqn:Hloop; [|discriminate].
  injection H as <-. exists t, t'. split; [exact Hjobs|]. split; [apply lookup_insert_eq|].
  split; [intros name Hname; rewrite lookup_insert_ne by congruence; now apply Hother|].
  destruct (score_loop_ok _ _ _ _ Hloop) as (Hall & _ & Hrows). rewrite Hrows, Hrows1.
  rewrite Hrows1 in Hall. clear Hrows Hloop.
  apply Forall2_same_length_lookup_2; [now rewrite length_map|].
  intros k r r' Hr Hr'. rewrite list_lookup_fmap, Hr in Hr'. injection Hr' as <-.
  split; [intros c Hc; now apply fold_rescore_other|]. split; [|split].
  - intros i Hid. apply (fold_rescore_scored e _ Hall). right.
    apply Exists_exists. exists r. split; [|rewrite Hid; now apply sql_eq_text].
    eapply list_elem_of_lookup_2. exact Hr.
  - intros i Hid Hone.
    assert (Hok : is_ok (row_text e r) = true).
    { rewrite Forall_forall in Hall. apply Hall. eapply list_elem_of_lookup_2. exact Hr. }
    destruct (row_text e r) as [text|ex] eqn:Htext; [|discriminate]. exists text.
    split; [reflexivity|].
    unfold rows_with_id, jobs_rows in Hone. rewrite Hjobs in Hone.
    rewrite <- (take_drop_middle _ _ _ Hr) in Hone |- *.
    rewrite filter_app, filter_cons_True, length_app in Hone by exact Hid.
    cbn [length] in Hone.
    assert (Hbefore : length (filter (fun r0 => row_get "id" r0 = VText i) (list.take k (tbl_rows t)))
                      = 0%nat) by lia.
    assert (Hafter : length (filter (fun r0 => row_get "id" r0 = VText i)
                                    (list.drop (S k) (tbl_rows t))) = 0%nat) by lia.
    apply filter_nil_forall in Hbefore, Hafter.
    assert (Hnot : forall l cur,
               row_get "id" cur = VText i ->
               Forall (fun x => row_get "id" x <> VText i) l ->
               fold_left (rescore e) l cur = cur).
    { intros l cur Hcur Hl. apply fold_rescore_untouched.
      eapply Forall_impl; [exact Hl|]. intros x Hx. cbn beta in Hx.
      rewrite Hcur. destruct (sql_eq (VText i) (row_get "id" x)) eqn:Heq; [|reflexivity].
      apply sql_eq_text in Heq. contradiction. }
    rewrite fold_left_app. cbn [fold_left]. rewrite (Hnot _ r Hid Hbefore).
    unfold rescore at 2. rewrite Hid. rewrite (proj2 (sql_eq_text i (VText i)) eq_refl).
    rewrite Hnot; [|unfold row_get; now rewrite lookup_insert_ne by discriminate|exact Hafter].
    unfold row_get. rewrite lookup_insert_eq. cbn [default]. unfold new_score. rewrite Htext.
    apply score_value_in_range, skill_score_in_range.
  - intros Hid. apply fold_rescore_untouched. apply Forall_forall. intros x _.
    now rewrite Hid.
Qed.

Lemma score_all_scores_witness :
  exists t t',
    upsert_all [job_python] fetch_db !! "jobs" = Some t
    /\ fst (score_all plain_env (upsert_all [job_python] fetch_db)) !! "jobs" = Some t'
    /\ map (row_get "score") (tbl_rows t) = [VNull]
    /\ map (row_get "score") (tbl_rows t') = [VReal (Prim2SF 18.1%float)].
Proof.
  destruct (score_all_scores plain_env (upsert_all [job_python] fetch_db)
              (fst (score_all plain_env (upsert_all [job_python] fetch_db))))
    as (t & t' & Ht & Ht' & _); [vm_compute; reflexivity|].
  exists t, t'. split; [exact Ht|]. split; [exact Ht'|].
  vm_compute in Ht, Ht'. injection Ht as <-. injection Ht' as <-.
  split; vm_compute; reflexivity.
Defined.

(** The table after [ensure_score_column], for a table of one of the two
    schemas. *)
Lemma ensure_score_column_shaped (db : database) (t : table) :
  db !! "jobs" = Some t -> schema_shaped t ->
  exists db1 t1,
    ensure_score_column db = Ok db1 /\ db1 !! "jobs" = Some t1
    /\ tbl_rows t1 = tbl_rows t
    /\ score_unconstrained t1 = true
    /\ forallb (has_column t1) ["id"; "raw_json"; "source"] = true.
Proof.
  intros Hjobs Hshape. unfold ensure_score_column, table_info, alter_table_add_column.
  rewrite Hjobs. destruct Hshape as [[Hcols|Hcols]|Hcols]; rewrite Hcols.
  - exists (<["jobs" := Table (FETCH_JOBS_COLUMNS ++ [SCORE_COLUMN]) (tbl_rows t)]> db),
      (Table (FETCH_JOBS_COLUMNS ++ [SCORE_COLUMN]) (tbl_rows t)).
    split; [reflexivity|]. split; [apply lookup_insert_eq|]. now split.
  - exists db, t. split; [reflexivity|]. split; [exact Hjobs|]. split; [reflexivity|].
    unfold score_unconstrained, has_column. rewrite Hcols. now split.
  - exists db, t. split; [reflexivity|]. split; [exact Hjobs|]. split; [reflexivity|].
    unfold score_unconstrained, has_column. rewrite Hcols. now split.
Qed.

(** X10. [score_all] writes all the scores or none: when it raises, the
    stored jobs are exactly the rows that were there before, whatever part
    of the loop had run, and no other table has changed. *)
Theorem score_all_all_or_nothing :
  forall (e : env) (db db' : database) (ex : exn),
    score_all e db = (db', Err ex) ->
    jobs_rows db' = jobs_rows db
    /\ (forall name, name <> "jobs" -> db' !! name = db !! name).
Proof.
  intros e db db' ex H. unfold score_all in H.
  destruct (ensure_score_column db) as [db1|ex1] eqn:Hcol; [|now injection H as <- _].
  destruct (ensure_score_column_ok _ _ Hcol) as (t & t1 & Hjobs & Hjobs1 & Hrows1 & _ & Hother).
  assert (Hsame : jobs_rows db1 = jobs_rows db)
    by (unfold jobs_rows; now rewrite Hjobs, Hjobs1).
  rewrite Hjobs1 in H. destruct (negb _); [now injection H as <- _|].
  destruct (score_loop e (tbl_rows t1) t1); [discriminate|]. now injection H as <- _.
Qed.

Lemma score_all_all_or_nothing_witness :
  jobs_rows (fst (score_all plain_env (upsert_all [job_python; job_list] fetch_db)))
  = jobs_rows (upsert_all [job_python; job_list] fetch_db)
  /\ (forall name, name <> "jobs" ->
                   fst (score_all plain_env (upsert_all [job_python; job_list] fetch_db)) !! name
                   = upsert_all [job_python; job_list] fetch_db !! name).
Proof.
  apply (score_all_all_or_nothing plain_env (upsert_all [job_python; job_list] fetch_db) _
           (AttributeError "object has no attribute 'get'")).
  vm_compute. reflexivity.
Defined.

(** X11. On a table of either schema [score_all] returns when every
    stored job has a text, and only then: the first job whose payload
    does not give a text ends the call with its exception, which happens
    for a Greenhouse or Lever job whose payload is no JSON object. *)
Theorem score_all_needs_every_text :
  forall (e : env) (db : database) (t : table),
    db !! "jobs" = Some t -> schema_shaped t ->
    (snd (score_all e db) = Ok tt
     <-> Forall (fun r => is_ok (row_text e r) = true) (tbl_rows t))
    /\ (forall ex, snd (score_all e db) = Err ex ->
          exists before r after,
            tbl_rows t = (before ++ r :: after)%list
            /\ Forall (fun r => is_ok (row_text e r) = true) before
            /\ row_text e r = Err ex)
    /\ (forall r payload,
          (source_of (row_get "source" r) = "greenhouse"
           \/ source_of (row_get "source" r) = "lever") ->
          payload_of e (row_get "raw_json" r) = payload ->
          (forall d, payload <> JDict d) ->
          is_ok (row_text e r) = false).
Proof.
  intros e db t Hjobs Hshape.
  destruct (ensure_score_column_shaped db t Hjobs Hshape)
    as (db1 & t1 & Hcol & Hjobs1 & Hrows1 & Hfree & Hhas).
  assert (Hrun : score_all e db
                 = match score_loop e (tbl_rows t) t1 with
                   | Ok t' => (<["jobs" := t']> db1, Ok tt)
                   | Err ex => (db1, Err ex)
                   end).
  { unfold score_all. now rewrite Hcol, Hjobs1, Hhas, Hrows1. }
  rewrite Hrun. split; [split|split].
  - destruct (score_loop e (tbl_rows t) t1) as [t'|ex] eqn:Hloop; [|discriminate].
    intros _. now destruct (score_loop_ok _ _ _ _ Hloop).
  - intros Hall. destruct (score_loop_free e _ t1 Hfree Hall) as [t' ->]. reflexivity.
  - intros ex Hex. destruct (score_loop e (tbl_rows t) t1) as [t'|ex'] eqn:Hloop; [discriminate|].
    cbn [snd] in Hex. injection Hex as ->. exact (score_loop_err _ _ _ _ Hfree Hloop).
  - intros r payload Hsource Hpayload Hnodict. unfold row_text. rewrite Hpayload.
    unfold job_text_from_payload.
    destruct Hsource as [-> | ->]; cbn [String.eqb Ascii.eqb Bool.eqb andb];
      destruct payload as [| | | | |d]; try reflexivity; now destruct (Hnodict d).
Qed.

Lemma score_all_needs_every_text_witness :
  snd (score_all plain_env (upsert_all [job_python; job_list] fetch_db)) = Ok tt
  <-> Forall (fun r => is_ok (row_text plain_env r) = true)
             (jobs_rows (upsert_all [job_python; job_list] fetch_db)).
Proof.
  apply (proj1 (score_all_needs_every_text plain_env
                  (upsert_all [job_python; job_list] fetch_db)
                  (Table FETCH_JOBS_COLUMNS
                         (jobs_rows (upsert_all [job_python; job_list] fetch_db)))
                  ltac:(vm_compute; reflexivity) ltac:(left; left; reflexivity))).
Defined.

Example score_all_bad_payload :
  snd (score_all plain_env (upsert_all [job_python; job_list] fetch_db))
  = Err (AttributeError "object has no attribute 'get'")
  /\ map (row_get "score")
         (jobs_rows (fst (score_all plain_env (upsert_all [job_python; job_list] fetch_db))))
     = [VNull; VNull]
  /\ snd (score_all plain_env (upsert_all [job_python] fetch_db)) = Ok tt.
Proof. split; [|split]; vm_compute; reflexivity. Qed.

End ScoreAllFacts.

(* ===================================================================== *)
(** ** fetch_jobs.py: more about the upsert *)
(* ===================================================================== *)

Section UpsertMoreFacts.
Import Text Py Store Convert.

(** What a successful upsert checked and did. *)
Lemma upsert_ok_full (db db' : database) (r : job_row) :
  upsert db r = Ok db' ->
  exists t, db !! "jobs" = Some t
    /\ forallb (has_column t) (map fst (insert_values r)) = true
    /\ is_key_column t "id" = true
    /\ ((exists k old,
           list_find (fun old => row_get "id" old = VText (id r)) (tbl_rows t) = Some (k, old)
           /\ violates_not_null t (updated r old) = false
           /\ violates_unique t (delete k (tbl_rows t)) (updated r old) = false
           /\ db' = <["jobs" := Table (tbl_columns t)
                                      (<[k := updated r old]> (tbl_rows t))]> db)
        \/ (list_find (fun old => row_get "id" old = VText (id r)) (tbl_rows t) = None
            /\ violates_not_null t (set_values (insert_values r) (default_row t)) = false
            /\ violates_unique t (tbl_rows t)
                               (set_values (insert_values r) (default_row t)) = false
            /\ db' = <["jobs" := Table (tbl_columns t)
                                       (tbl_rows t ++ [set_values (insert_values r) (default_row t)])]> db)).
Proof.
  unfold upsert. destruct (db !! "jobs") as [t|] eqn:Hlk; [|discriminate].
  destruct (forallb _ _) eqn:Hcols; cbn [negb]; [|discriminate].
  destruct (is_key_column t "id") eqn:Hkey; cbn [negb]; [|discriminate].
  intros H. exists t. split; [reflexivity|]. split; [exact Hcols|]. split; [exact Hkey|].
  destruct (list_find _ (tbl_rows t)) as [[k old]|] eqn:Hfind.
  - left. exists k, old. split; [reflexivity|].
    destruct (violates_not_null _ _); [discriminate|].
    destruct (violates_unique _ _ _); [discriminate|]. injection H as <-. auto.
  - right. split; [reflexivity|].
    destruct (violates_not_null _ _); [discriminate|].
    destruct (violates_unique _ _ _); [discriminate|]. injection H as <-. auto.
Qed.

(** A row that holds the incoming values is left as it is by the update. *)
Lemma updated_fixed (r : job_row) (x : row) :
  Forall (fun kv => x !! fst kv = Some (snd kv)) (update_values r) -> updated r x = x.
Proof.
  unfold updated, set_values, update_values. cbn [fold_left fst snd]. intros H.
  apply Forall_cons in H as [H1 H]. apply Forall_cons in H as [H2 H].
  apply Forall_cons in H as [H3 H]. apply Forall_cons in H as [H4 H].
  apply Forall_cons in H as [H5 H]. apply Forall_cons in H as [H6 H].
  apply Forall_cons in H as [H7 _]. cbn [fst snd] in *.
  rewrite (insert_id x _ _ H1), (insert_id x _ _ H2), (insert_id x _ _ H3),
    (insert_id x _ _ H4), (insert_id x _ _ H5), (insert_id x _ _ H6).
  exact (insert_id x _ _ H7).
Qed.

Lemma updated_lookups (r : job_row) (old : row) :
  Forall (fun kv => updated r old !! fst kv = Some (snd kv)) (update_values r).
Proof.
  unfold updated, set_values, update_values. cbn [fold_left fst snd].
  repeat constructor; cbn [fst snd]; now simplify_map_eq.
Qed.

Lemma inserted_lookups (r : job_row) (d : row) :
  Forall (fun kv => set_values (insert_values r) d !! fst kv = Some (snd kv))
         (insert_values r).
Proof.
  unfold set_values, insert_values, update_values. cbn [fold_left fst snd].
  repeat constructor; cbn [fst snd]; now simplify_map_eq.
Qed.

Lemma delete_insert_same {A} (l : list A) (k : nat) (x : A) :
  delete k (<[k := x]> l) = delete k l.
Proof.
  revert k. induction l as [|a l IH]; intros [|k]; cbn; try reflexivity.
  now rewrite IH.
Qed.

Lemma find_inserted {A} (P : A -> Prop) `{!forall x, Decision (P x)}
      (l : list A) (k : nat) (old new : A) :
  list_find P l = Some (k, old) -> P new -> list_find P (<[k := new]> l) = Some (k, new).
Proof.
  intros Hfind Hnew. apply list_find_Some in Hfind as (Hk & _ & Hbefore).
  apply list_find_Some. split; [|split; [exact Hnew|]].
  - apply list_lookup_insert_eq. eapply lookup_lt_Some. exact Hk.
  - intros j y Hj Hlt. rewrite list_lookup_insert_ne in Hj by lia. now apply (Hbefore j).
Qed.

Lemma find_appended {A} (P : A -> Prop) `{!forall x, Decision (P x)} (l : list A) (new : A) :
  list_find P l = None -> P new -> list_find P (l ++ [new]) = Some (length l, new).
Proof.
  intros Hfind Hnew. rewrite list_find_app_r by exact Hfind.
  cbn [list_find]. rewrite decide_True by exact Hnew. reflexivity.
Qed.

(** X12. The upsert is idempotent: after an upsert that succeeded, the same
    upsert again succeeds and leaves the database exactly as it is, so
    fetching postings that have not changed changes nothing. *)
Theorem upsert_idempotent :
  forall (db db1 : database) (r : job_row),
    upsert db r = Ok db1 -> upsert db1 r = Ok db1.
Proof.
  intros db db1 r Hup.
  apply upsert_ok_full in Hup as (t & Hlk & Hcols & Hkey & Hcase).
  destruct Hcase as [(k & old & Hfind & Hnn & Hu & ->)|(Hfind & Hnn & Hu & ->)];
    unfold upsert; rewrite lookup_insert_eq; unfold has_column, is_key_column in *;
    cbn [tbl_columns tbl_rows]; rewrite Hcols, Hkey; cbn [negb].
  - rewrite (find_inserted _ _ k old (updated r old) Hfind)
      by (rewrite updated_id; now apply list_find_Some in Hfind as (_ & Hid & _)).
    rewrite (updated_fixed r (updated r old)) by apply updated_lookups.
    unfold violates_not_null, violates_unique in *. cbn [tbl_columns].
    rewrite Hnn, delete_insert_same, Hu, list_insert_insert_eq, insert_insert_eq.
    reflexivity.
  - set (new := set_values (insert_values r) (default_row t)) in *.
    rewrite (find_appended _ _ new Hfind) by apply inserted_id.
    assert (Hfixed : updated r new = new).
    { apply updated_fixed. pose proof (inserted_lookups r (default_row t)) as Hall.
      unfold insert_values in Hall. now apply Forall_cons in Hall as [_ Hall]. }
    rewrite Hfixed.
    unfold violates_not_null, violates_unique in *. cbn [tbl_columns].
    rewrite Hnn, delete_middle, app_nil_r, Hu.
    replace (<[length (tbl_rows t) := new]> (tbl_rows t ++ [new])%list)
      with (tbl_rows t ++ [new])%list.
    + now rewrite insert_insert_eq.
    + rewrite insert_app_r_alt by lia. now rewrite Nat.sub_diag.
Qed.

Lemma upsert_idempotent_witness :
  upsert (upsert_all [job_a; job_b] cli_db) job_a = Ok (upsert_all [job_a; job_b] cli_db).
Proof.
  apply (upsert_idempotent (upsert_all [job_a; job_b] cli_db)).
  vm_compute. reflexivity.
Defined.

Lemma inserted_defaults (r : job_row) (d : row) (c : string) :
  c ∉ map fst (insert_values r) -> set_values (insert_values r) d !! c = d !! c.
Proof.
  unfold set_values, insert_values, update_values. cbn [fold_left fst snd map].
  intros Hnot. repeat (apply not_elem_of_cons in Hnot as [? Hnot]). now simplify_map_eq.
Qed.

(** X13. An upsert touches one row only. Every stored job with another id
    stays where it is and as it is, no other table changes, and the table
    grows by one row at most. For an id that was not stored, the new row
    is appended: it holds the eight incoming values, and every other
    column of the table holds its default, which in the schema of
    [cli.py] is a score of 0 and the status [new]. *)
Theorem upsert_touches_one_row :
  forall (db db' : database) (r : job_row),
    upsert db r = Ok db' ->
    (forall name, name <> "jobs" -> db' !! name = db !! name)
    /\ (forall k row, jobs_rows db !! k = Some row -> row_get "id" row <> VText (id r) ->
                      jobs_rows db' !! k = Some row)
    /\ length (jobs_rows db) <= length (jobs_rows db') <= S (length (jobs_rows db))
    /\ (rows_with_id (id r) db = [] ->
        exists t new,
          db !! "jobs" = Some t
          /\ jobs_rows db' = (jobs_rows db ++ [new])%list
          /\ (forall c v, (c, v) ∈ insert_values r -> row_get c new = v)
          /\ (forall c, c ∉ map fst (insert_values r) -> new !! c = default_row t !! c)
          /\ (tbl_columns t = CLI_JOBS_COLUMNS ->
              row_get "score" new = VReal (S754_zero false)
              /\ row_get "status" new = VText "new")).
Proof.
  intros db db' r Hup.
  apply upsert_ok_full in Hup as (t & Hlk & Hcols & Hkey & Hcase).
  assert (Hrows : jobs_rows db = tbl_rows t) by (unfold jobs_rows; now rewrite Hlk).
  destruct Hcase as [(k & old & Hfind & _ & _ & ->)|(Hfind & _ & _ & ->)].
  - apply list_find_Some in Hfind as (Hk & Hid & _).
    assert (Hrows' : jobs_rows (<["jobs" := Table (tbl_columns t)
                                  (<[k := updated r old]> (tbl_rows t))]> db)
                     = <[k := updated r old]> (tbl_rows t))
      by (unfold jobs_rows; now rewrite lookup_insert_eq).
    rewrite Hrows, Hrows', length_insert.
    split; [intros name Hname; now rewrite lookup_insert_ne by congruence|].
    split; [|split; [lia|]].
    + intros j row Hj Hother. rewrite list_lookup_insert_ne; [exact Hj|].
      intros ->. rewrite Hj in Hk. injection Hk as ->. contradiction.
    + intros Hnone. exfalso. unfold rows_with_id in Hnone. rewrite Hrows in Hnone.
      apply (filter_nil_not_elem_of _ _ old Hnone Hid).
      eapply list_elem_of_lookup_2. exact Hk.
  - set (new := set_values (insert_values r) (default_row t)).
    assert (Hrows' : jobs_rows (<["jobs" := Table (tbl_columns t) (tbl_rows t ++ [new])]> db)
                     = (tbl_rows t ++ [new])%list)
      by (unfold jobs_rows; now rewrite lookup_insert_eq).
    rewrite Hrows, Hrows', length_app. cbn [length].
    split; [intros name Hname; now rewrite lookup_insert_ne by congruence|].
    split; [|split; [lia|]].
    + intros j row Hj _. now apply lookup_app_l_Some.
    + intros _. exists t, new. split; [exact Hlk|]. split; [reflexivity|].
      split; [|split; [apply inserted_defaults|]].
      * intros c v Hin. pose proof (inserted_lookups r (default_row t)) as Hall.
        rewrite Forall_forall in Hall. unfold row_get. fold new in Hall.
        specialize (Hall (c, v) Hin). cbn [fst snd] in Hall. now rewrite Hall.
      * intros Hcli. unfold row_get, new.
        rewrite !inserted_defaults
          by (cbn; intros Hin; repeat (apply elem_of_cons in Hin as [[=]|Hin]); inversion Hin).
        unfold default_row. rewrite Hcli. split; reflexivity.
Qed.

Lemma upsert_touches_one_row_witness :
  exists t new,
    upsert_all [job_a] cli_db !! "jobs" = Some t
    /\ jobs_rows (or_empty (upsert (upsert_all [job_a] cli_db) job_b))
       = (jobs_rows (upsert_all [job_a] cli_db) ++ [new])%list
    /\ row_get "score" new = VReal (S754_zero false)
    /\ row_get "status" new = VText "new".
Proof.
  destruct (upsert_touches_one_row (upsert_all [job_a] cli_db)
              (or_empty (upsert (upsert_all [job_a] cli_db) job_b)) job_b)
    as (_ & _ & _ & Hnew); [vm_compute; reflexivity|].
  destruct Hnew as (t & new & Ht & Hrows & _ & _ & Hcli); [vm_compute; reflexivity|].
  exists t, new. split; [exact Ht|]. split; [exact Hrows|]. apply Hcli.
  vm_compute in Ht. now injection Ht as <-.
Defined.

Lemma upsert_then_select (db db' : database) (r : job_row) :
  upsert db r = Ok db' ->
  exists row,
    get_job db' (id r) = Ok row
    /\ row_get "id" row = VText (id r)
    /\ (forall c v, (c, v) ∈ update_values r -> row_get c row = v).
Proof.
  intros Hup.
  apply upsert_ok_full in Hup as (t & Hlk & Hcols & Hkey & Hcase).
  unfold get_job, select_one.
  destruct Hcase as [(k & old & Hfind & _ & _ & ->)|(Hfind & _ & _ & ->)];
    rewrite lookup_insert_eq; cbn [tbl_rows bind].
  - apply list_find_Some in Hfind as (Hk & Hid & Hbefore).
    rewrite insert_take_drop by (eapply lookup_lt_Some; exact Hk).
    rewrite filter_app, filter_cons_True by (now rewrite updated_id).
    rewrite (filter_none _ (list.take k (tbl_rows t))).
    + cbn [app head]. exists (updated r old). split; [reflexivity|].
      split; [now rewrite updated_id|]. apply updated_values.
    + intros x Hx. apply elem_of_take in Hx as (j & Hj & Hlt). now apply (Hbefore j x Hj).
  - apply list_find_None in Hfind. rewrite Forall_forall in Hfind.
    rewrite filter_app, (filter_none _ (tbl_rows t)) by exact Hfind.
    rewrite filter_cons_True by apply inserted_id.
    cbn [app head]. exists (set_values (insert_values r) (default_row t)).
    split; [reflexivity|]. split; [apply inserted_id|].
    intros c v Hin. pose proof (inserted_lookups r (default_row t)) as Hall.
    rewrite Forall_forall in Hall. unfold row_get.
    specialize (Hall (c, v) (list_elem_of_further _ _ _ Hin)). cbn [fst snd] in Hall.
    now rewrite Hall.
Qed.

(** X14. What [upsert] has stored is what [get_job] finds: after an upsert
    that succeeded, the job is found by its id, and the four columns that
    [get_job] selects, the source, the payload, the company and the
    title, hold the incoming values. *)
Theorem upsert_then_get_job :
  forall (db db' : database) (r : job_row),
    upsert db r = Ok db' ->
    exists row,
      get_job db' (id r) = Ok row
      /\ row_get "source" row = of_opt (source r)
      /\ row_get "raw_json" row = of_opt (raw_json r)
      /\ row_get "company" row = of_opt (company r)
      /\ row_get "title" row = of_opt (title r).
Proof.
  intros db db' r Hup.
  destruct (upsert_then_select db db' r Hup) as (row & Hget & _ & Hvals).
  exists row. split; [exact Hget|].
  repeat split; apply Hvals; unfold update_values; set_solver.
Qed.

Lemma upsert_then_get_job_witness :
  exists row,
    get_job (or_empty (upsert (upsert_all [job_a; job_b] fetch_db) job_b_moved)) (id job_b_moved)
    = Ok row
    /\ row_get "source" row = of_opt (source job_b_moved)
    /\ row_get "raw_json" row = of_opt (raw_json job_b_moved)
    /\ row_get "company" row = of_opt (company job_b_moved)
    /\ row_get "title" row = of_opt (title job_b_moved).
Proof.
  apply (upsert_then_get_job (upsert_all [job_a; job_b] fetch_db)).
  vm_compute. reflexivity.
Defined.

End UpsertMoreFacts.

(* ===================================================================== *)
(** ** convert_and_export.py: update_db *)
(* ===================================================================== *)

Section ExportFacts.
Import Text Py Store Convert Exporter.

Lemma applications_conflicts (t : table) (new old : row) (job_id : string) :
  tbl_columns t = CLI_APPLICATIONS_COLUMNS ->
  row_get "job_id" new = VText job_id ->
  conflicts t new old = bool_decide (row_get "job_id" old = VText job_id).
Proof.
  intros Hcols Hnew. unfold conflicts. rewrite Hcols. cbn [CLI_APPLICATIONS_COLUMNS existsb].
  cbn [plain col_primary_key col_unique col_name orb andb]. rewrite Hnew.
  rewrite bool_decide_eq_false_2 by discriminate. cbn [negb andb].
  now rewrite !orb_false_r.
Qed.

Lemma applications_no_defaults (t : table) (new : row) :
  tbl_columns t = CLI_APPLICATIONS_COLUMNS ->
  with_defaults t new = new /\ violates_not_null t new = false.
Proof.
  intros Hcols. unfold with_defaults, violates_not_null. rewrite Hcols. now split.
Qed.

(** What [update_db] does on the table of the schema. *)
Lemma update_db_run (today job_id resume_pdf cover_pdf : string) (db : database) (t : table) :
  db !! "applications" = Some t ->
  tbl_columns t = CLI_APPLICATIONS_COLUMNS ->
  exists new,
    update_db today job_id resume_pdf cover_pdf db
    = Ok (<["applications" :=
              Table (tbl_columns t)
                    (List.filter (fun old => negb (bool_decide (row_get "job_id" old = VText job_id)))
                                 (tbl_rows t) ++ [new])%list]> db)
    /\ new !! "job_id" = Some (VText job_id)
    /\ new !! "applied_at" = Some (VText today)
    /\ new !! "resume_path" = Some (VText resume_pdf)
    /\ new !! "cover_path" = Some (VText cover_pdf)
    /\ new !! "notes"
       = Some (coalesce (match head (filter (fun r => row_get "job_id" r = VText job_id)
                                            (tbl_rows t)) with
                         | Some r => row_get "notes" r
                         | None => VNull
                         end) (VText "converted")).
Proof.
  intros Happ Hcols. unfold update_db, select_one. rewrite Happ. cbn [bind].
  set (notes := coalesce _ _).
  set (vals := [("job_id", VText job_id); ("applied_at", VText today);
                ("resume_path", VText resume_pdf); ("cover_path", VText cover_pdf);
                ("notes", notes)]).
  set (new := set_values vals (default_row t)).
  assert (Hlk : new !! "job_id" = Some (VText job_id)
                /\ new !! "applied_at" = Some (VText today)
                /\ new !! "resume_path" = Some (VText resume_pdf)
                /\ new !! "cover_path" = Some (VText cover_pdf)
                /\ new !! "notes" = Some notes).
  { unfold new, vals, set_values. cbn [fold_left fst snd].
    repeat split; now simplify_map_eq. }
  exists new. split; [|exact Hlk].
  unfold insert_or_replace. rewrite Happ.
  replace (forallb (has_column t) (map fst vals)) with true
    by (unfold has_column; rewrite Hcols; reflexivity).
  cbn [negb]. fold new.
  destruct (applications_no_defaults t new Hcols) as [-> ->].
  do 3 f_equal. f_equal. apply filter_ext_in_iff. intros old _.
  rewrite (applications_conflicts t new old job_id Hcols); [reflexivity|].
  unfold row_get. now rewrite (proj1 Hlk).
Qed.

Lemma filter_kept_none {A} (P : A -> Prop) `{!forall x, Decision (P x)} (l : list A) :
  filter P (List.filter (fun x => negb (bool_decide (P x))) l) = [].
Proof.
  induction l as [|x l IH]; [reflexivity|]. cbn [List.filter].
  destruct (decide (P x)) as [Hx|Hx].
  - now rewrite bool_decide_eq_true_2.
  - rewrite bool_decide_eq_false_2 by exact Hx. cbn [negb].
    now rewrite filter_cons_False.
Qed.

Lemma filter_kept_others {A} (P : A -> Prop) `{!forall x, Decision (P x)} (l : list A) :
  filter (fun x => ~ P x) (List.filter (fun x => negb (bool_decide (P x))) l)
  = filter (fun x => ~ P x) l.
Proof.
  induction l as [|x l IH]; [reflexivity|]. cbn [List.filter].
  destruct (decide (P x)) as [Hx|Hx].
  - rewrite bool_decide_eq_true_2 by exact Hx. cbn [negb].
    rewrite filter_cons_False by tauto. exact IH.
  - rewrite bool_decide_eq_false_2 by exact Hx. cbn [negb].
    rewrite !filter_cons_True by exact Hx. now rewrite IH.
Qed.

(** X15. What [update_db] has stored is what [_get_md_paths_from_db]
    reads: on the applications table of the schema the call succeeds, and
    the paths then found for the job are the two PDF paths. The job has
    exactly one application row afterwards; the rows of other jobs and
    the other tables are as before. *)
Theorem update_db_then_lookup :
  forall (today job_id resume_pdf cover_pdf : string) (db : database) (t : table),
    db !! "applications" = Some t ->
    tbl_columns t = CLI_APPLICATIONS_COLUMNS ->
    exists db',
      update_db today job_id resume_pdf cover_pdf db = Ok db'
      /\ _get_md_paths_from_db job_id db'
         = Ok (as_path (VText resume_pdf), as_path (VText cover_pdf))
      /\ length (filter (fun r => row_get "job_id" r = VText job_id) (applications_rows db'))
         = 1
      /\ filter (fun r => row_get "job_id" r <> VText job_id) (applications_rows db')
         = filter (fun r => row_get "job_id" r <> VText job_id) (applications_rows db)
      /\ (forall name, name <> "applications" -> db' !! name = db !! name).
Proof.
  intros today job_id resume_pdf cover_pdf db t Happ Hcols.
  destruct (update_db_run today job_id resume_pdf cover_pdf db t Happ Hcols)
    as (new & Hrun & Hid & _ & Hres & Hcov & _).
  eexists. split; [exact Hrun|].
  assert (Hnew : row_get "job_id" new = VText job_id) by (unfold row_get; now rewrite Hid).
  unfold _get_md_paths_from_db, select_one, applications_rows.
  rewrite lookup_insert_eq, Happ. cbn [tbl_rows bind].
  rewrite !filter_app, filter_kept_none, filter_kept_others.
  rewrite filter_cons_True by exact Hnew. rewrite filter_cons_False by tauto.
  cbn [app head length]. unfold row_get. rewrite Hres, Hcov, filter_nil, app_nil_r.
  repeat split. intros name Hname. now rewrite lookup_insert_ne by congruence.
Qed.

Lemma update_db_then_lookup_witness :
  exists db',
    update_db "2024-05-02" "greenhouse:stripe:1"
              "/home/jordan/docs/greenhouse_stripe_1_resume.pdf"
              "/home/jordan/docs/greenhouse_stripe_1_cover.pdf" with_application = Ok db'
    /\ _get_md_paths_from_db "greenhouse:stripe:1" db'
       = Ok (Some "/home/jordan/docs/greenhouse_stripe_1_resume.pdf",
             Some "/home/jordan/docs/greenhouse_stripe_1_cover.pdf").
Proof.
  destruct (update_db_then_lookup "2024-05-02" "greenhouse:stripe:1"
              "/home/jordan/docs/greenhouse_stripe_1_resume.pdf"
              "/home/jordan/docs/greenhouse_stripe_1_cover.pdf" with_application
              (Table CLI_APPLICATIONS_COLUMNS [generated]) eq_refl eq_refl)
    as (db' & Hrun & Hpaths & _).
  exists db'. split; [exact Hrun|exact Hpaths].
Defined.

(** X16. [update_db] keeps the notes of the application: the new row
    takes over the notes of the row stored for the job, and gets
    ['converted'] only when there was no such row or its notes were NULL.
    The date is always replaced. *)
Theorem update_db_keeps_notes :
  forall (today job_id resume_pdf cover_pdf : string) (db : database) (t : table),
    db !! "applications" = Some t ->
    tbl_columns t = CLI_APPLICATIONS_COLUMNS ->
    exists db' new,
      update_db today job_id resume_pdf cover_pdf db = Ok db'
      /\ select_one "applications" "job_id" job_id db' = Ok (Some new)
      /\ row_get "applied_at" new = VText today
      /\ match select_one "applications" "job_id" job_id db with
         | Ok (Some old) =>
             row_get "notes" new
             = if bool_decide (row_get "notes" old = VNull)
               then VText "converted" else row_get "notes" old
         | _ => row_get "notes" new = VText "converted"
         end.
Proof.
  intros today job_id resume_pdf cover_pdf db t Happ Hcols.
  destruct (update_db_run today job_id resume_pdf cover_pdf db t Happ Hcols)
    as (new & Hrun & Hid & Hdate & _ & _ & Hnotes).
  eexists. exists new. split; [exact Hrun|].
  assert (Hnew : row_get "job_id" new = VText job_id) by (unfold row_get; now rewrite Hid).
  unfold select_one. rewrite lookup_insert_eq, Happ. cbn [tbl_rows].
  rewrite filter_app, filter_kept_none, filter_cons_True by exact Hnew.
  split; [reflexivity|]. unfold row_get at 1. rewrite Hdate. split; [reflexivity|].
  assert (Hgot : row_get "notes" new
                 = coalesce (match head (filter (fun r => row_get "job_id" r = VText job_id)
                                                (tbl_rows t)) with
                             | Some r => row_get "notes" r
                             | None => VNull
                             end) (VText "converted"))
    by (unfold row_get at 1; now rewrite Hnotes).
  rewrite Hgot. destruct (head _) as [old|]; [|reflexivity].
  destruct (row_get "notes" old) eqn:Hold; cbn [coalesce];
    [now rewrite bool_decide_eq_true_2|now rewrite bool_decide_eq_false_2
    |now rewrite bool_decide_eq_false_2].
Qed.

Lemma update_db_keeps_notes_witness :
  exists db' new,
    update_db "2024-05-02" "greenhouse:stripe:1" "/docs/r.pdf" "/docs/c.pdf" with_application
    = Ok db'
    /\ select_one "applications" "job_id" "greenhouse:stripe:1" db' = Ok (Some new)
    /\ row_get "applied_at" new = VText "2024-05-02"
    /\ row_get "notes" new = VText "generated".
Proof.
  destruct (update_db_keeps_notes "2024-05-02" "greenhouse:stripe:1" "/docs/r.pdf" "/docs/c.pdf"
              with_application (Table CLI_APPLICATIONS_COLUMNS [generated]) eq_refl eq_refl)
    as (db' & new & Hrun & Hsel & Hdate & Hnotes).
  exists db', new. split; [exact Hrun|]. split; [exact Hsel|]. split; [exact Hdate|].
  exact Hnotes.
Defined.

End ExportFacts.

(* ===================================================================== *)
(** ** convert_and_export.py: what wrapping and paging keep *)
(* ===================================================================== *)

Section PagesFacts.
Import Text Py Paths Convert Html Pages.

Lemma squeeze_app (a b : string) : squeeze (a ++ b) = squeeze a ++ squeeze b.
Proof.
  induction a as [|c a IH]; [reflexivity|].
  change (String c a ++ b) with (String c (a ++ b)). cbn [squeeze].
  destruct (is_space c); [exact IH|]. now rewrite IH.
Qed.

Lemma squeeze_lstrip (s : string) : squeeze (lstrip s) = squeeze s.
Proof.
  induction s as [|c rest IH]; [reflexivity|]. cbn [lstrip squeeze].
  destruct (is_space c) eqn:Hc; [exact IH|]. cbn [squeeze]. now rewrite Hc.
Qed.

Lemma take_drop_string (n : nat) (s : string) : take n s ++ drop n s = s.
Proof.
  revert s. induction n as [|n IH]; intros s; [reflexivity|].
  destruct s as [|c rest]; [reflexivity|]. cbn [take drop].
  change (String c (take n rest) ++ drop n rest) with (String c (take n rest ++ drop n rest)).
  now rewrite IH.
Qed.

Lemma starts_black_take (n : nat) (s : string) :
  starts_black s = true -> starts_black (take n s) = true.
Proof. destruct n, s; auto. Qed.

Lemma starts_black_lstrip (s : string) : starts_black (lstrip s) = true.
Proof.
  induction s as [|c rest IH]; [reflexivity|]. cbn [lstrip].
  destruct (is_space c) eqn:Hc; [exact IH|]. cbn [starts_black]. now rewrite Hc.
Qed.

Lemma glue_app (a b : list string) : glue (a ++ b)%list = glue a ++ glue b.
Proof.
  induction a as [|x a IH]; [reflexivity|]. cbn [app glue fold_right].
  fold (glue (a ++ b)%list). fold (glue a). rewrite IH.
  clear. induction x as [|c x IHx]; [reflexivity|].
  change (String c x ++ glue a ++ glue b) with (String c (x ++ glue a ++ glue b)).
  change ((String c x ++ glue a) ++ glue b) with (String c ((x ++ glue a) ++ glue b)).
  now rewrite IHx.
Qed.

Lemma wrap_loop_keeps_text (max_chars : nat) :
  forall fuel line chunks result,
    wrap_loop fuel max_chars line chunks = Some result ->
    exists new,
      result = (chunks ++ new)%list
      /\ squeeze (glue new) = squeeze line
      /\ Forall (fun c => starts_black c = true) (tail new)
      /\ (starts_black line = true -> Forall (fun c => starts_black c = true) new).
Proof.
  induction fuel as [|fuel IH]; intros line chunks result Hrun; [discriminate|].
  cbn [wrap_loop] in Hrun. destruct (max_chars <? String.length line)%nat.
  - set (cut := match rfind_before " " max_chars line with
                | Some i => i | None => max_chars end) in *.
    destruct (IH _ _ _ Hrun) as (new & -> & Htext & _ & Hblack).
    specialize (Hblack (starts_black_lstrip _)).
    exists (take cut line :: new). split; [now rewrite <- app_assoc|].
    split; [|split; [exact Hblack|]].
    + change (glue (take cut line :: new)) with (take cut line ++ glue new).
      rewrite squeeze_app, Htext, squeeze_lstrip, <- squeeze_app.
      now rewrite take_drop_string.
    + intros Hline. constructor; [now apply starts_black_take|exact Hblack].
  - injection Hrun as <-. exists [line]. split; [reflexivity|]. split; [|split].
    + cbn [glue fold_right]. clear. induction line as [|c l IHl]; [reflexivity|].
      change (String c l ++ "") with (String c (l ++ "")). cbn [squeeze]. now rewrite IHl.
    + constructor.
    + intros Hline. now constructor.
Qed.

(** X17. [wrap_line] loses nothing but white space: the characters of the
    chunks that are not white space are, in order, those of the line. No
    chunk after the first starts with white space. This holds for every
    width, and so for the lines that [md_to_pdf_simple] draws. *)
Theorem wrap_line_keeps_text :
  forall (fuel : nat) (line : string) (max_chars : nat) (chunks : list string),
    wrap_line fuel line max_chars = Some chunks ->
    squeeze (glue chunks) = squeeze line
    /\ Forall (fun c => starts_black c = true) (tail chunks)
    /\ squeeze (glue (wrap_line_default line)) = squeeze line.
Proof.
  intros fuel line max_chars chunks Hrun. unfold wrap_line in Hrun.
  destruct (wrap_loop_keeps_text _ _ _ _ _ Hrun) as (new & -> & Htext & Hblack & _).
  split; [exact Htext|]. split; [exact Hblack|].
  unfold wrap_line_default, wrap_line.
  destruct (wrap_loop_enough 95 ltac:(lia) (S (String.length line)) line [] ltac:(lia))
    as (more & Hmore & _).
  rewrite Hmore. cbn [default app].
  now destruct (wrap_loop_keeps_text _ _ _ _ _ Hmore) as (new' & [= <-] & Htext' & _).
Qed.

Lemma wrap_line_keeps_text_witness :
  squeeze (glue ["to be"; "or not"; "to be"]) = squeeze "to be or not to be"
  /\ Forall (fun c => starts_black c = true) (tail ["to be"; "or not"; "to be"])
  /\ squeeze (glue (wrap_line_default "to be or not to be")) = squeeze "to be or not to be".
Proof. apply (wrap_line_keeps_text 19 "to be or not to be" 7). reflexivity. Defined.

(** *** The pages *)

Lemma draw_line_state (st : list (list string) * list string * Z) (line : string) :
  page_state st -> page_state (draw_line st line).
Proof.
  destruct st as [[pages page] y]. cbn [page_state draw_line].
  intros (Hy & Hlen & Hfull & Hfirst).
  destruct (y <? 72)%Z eqn:Hlow.
  - apply Z.ltb_lt in Hlow. cbn [page_state length].
    split; [reflexivity|]. split; [lia|]. split; [|discriminate].
    apply Forall_app. split; [exact Hfull|]. constructor; [lia|constructor].
  - apply Z.ltb_ge in Hlow. cbn [page_state]. rewrite length_app. cbn [length].
    split; [lia|]. split; [lia|]. split; [exact Hfull|].
    intros Hnil. now destruct page.
Qed.

Lemma draw_line_lines (st : list (list string) * list string * Z) (line : string) :
  let '(pages, page, _) := st in
  let '(pages', page', _) := draw_line st line in
  (concat pages' ++ page' = (concat pages ++ page) ++ [line])%list.
Proof.
  destruct st as [[pages page] y]. cbn [draw_line].
  destruct (y <? 72)%Z.
  - rewrite concat_app. cbn [concat]. now rewrite app_nil_r.
  - now rewrite app_assoc.
Qed.

Lemma draw_lines_run (lines : list string) :
  forall st,
    page_state st ->
    page_state (fold_left draw_line lines st)
    /\ (let '(pages, page, _) := st in
        let '(pages', page', _) := fold_left draw_line lines st in
        concat pages' ++ page' = (concat pages ++ page) ++ lines)%list.
Proof.
  induction lines as [|line rest IH]; intros st Hst.
  - cbn [fold_left]. split; [exact Hst|]. destruct st as [[pages page] y].
    now rewrite app_nil_r.
  - cbn [fold_left]. destruct (IH _ (draw_line_state st line Hst)) as [Hstate Hlines].
    split; [exact Hstate|].
    pose proof (draw_line_lines st line) as Hone.
    destruct st as [[pages page] y]. destruct (draw_line (pages, page, y) line) as [[p1 g1] y1].
    destruct (fold_left draw_line rest (p1, g1, y1)) as [[p2 g2] y2].
    rewrite Hlines, Hone, <- app_assoc. reflexivity.
Qed.

(** X18. The pages that [md_to_pdf_simple] draws hold every line of the
    wrapped text, in order and once. No page is empty and none holds more
    than 55 lines; every page but the last holds exactly 55. *)
Theorem layout_keeps_every_line :
  forall text : string,
    concat (layout text) = drawn_lines text
    /\ Forall (fun page => 1 <= length page <= 55) (layout text)
    /\ (forall k page, layout text !! k = Some page -> S k < length (layout text) ->
                       length page = 55).
Proof.
  intros text. unfold layout. fold (drawn_lines text).
  destruct (draw_lines_run (drawn_lines text) ([], [], 720%Z)) as [Hstate Hlines].
  { cbn. repeat split; [lia|constructor]. }
  destruct (fold_left draw_line (drawn_lines text) ([], [], 720%Z)) as [[pages page] y].
  cbn [page_state concat app] in Hstate, Hlines.
  destruct Hstate as (_ & Hlen & Hfull & Hfirst).
  destruct page as [|l page].
  - rewrite (Hfirst eq_refl) in *. rewrite <- Hlines. cbn.
    split; [reflexivity|]. split; [constructor|]. intros k page Hk. discriminate.
  - split; [rewrite concat_app; cbn [concat]; now rewrite app_nil_r|]. split.
    + apply Forall_app. split.
      * eapply Forall_impl; [exact Hfull|]. intros p Hp. cbn beta in Hp. lia.
      * constructor; [cbn [length] in *; lia|constructor].
    + intros k p Hk Hlast. rewrite length_app in Hlast. cbn [length] in Hlast.
      rewrite lookup_app_l in Hk by lia. rewrite Forall_forall in Hfull.
      apply Hfull. eapply list_elem_of_lookup_2. exact Hk.
Qed.

Example layout_two_pages :
  map (fun page => length page)
      (layout (Nat.iter 56 (fun text => String "x" (String "010" text)) ""))
  = [55; 1].
Proof. vm_compute. reflexivity. Qed.

End PagesFacts.

(* ===================================================================== *)
(** ** cli.py and convert_and_export.py: the paths of a conversion *)
(* ===================================================================== *)

Section ConvertPathFacts.
Import Text Py Paths Store Convert Pages.

(** X19. The two paths that [_resolve_md_paths] returns exist. When the
    resume path stored for the job is an existing [.md] file, both paths
    are the stored ones, and the cover path is only checked for
    existence. Otherwise the resume path is the default one, and the
    cover path is the stored one if that is an existing [.md] file, else
    the default one. *)
Theorem resolve_md_paths_found :
  forall (w : world) (fs : files) (db : database) (job_id docs_dir res cov : string),
    _resolve_md_paths w fs db job_id docs_dir = Ok (res, cov) ->
    path_exists w res fs = true /\ path_exists w cov fs = true
    /\ exists r0 c0,
         _get_md_paths_from_db job_id db = Ok (r0, c0)
         /\ if usable_md w fs r0
            then r0 = Some res /\ c0 = Some cov
            else res = fst (_default_md_paths job_id docs_dir)
                 /\ if usable_md w fs c0
                    then c0 = Some cov
                    else cov = snd (_default_md_paths job_id docs_dir).
Proof.
  intros w fs db job_id docs_dir res cov. unfold _resolve_md_paths.
  destruct (_get_md_paths_from_db job_id db) as [[r0 c0]|e]; [|discriminate]. cbn [bind].
  destruct (_default_md_paths job_id docs_dir) as [rd cd]. cbn [fst snd].
  destruct (usable_md w fs r0) eqn:Hr0; cbn [negb].
  - destruct r0 as [r|]; [|discriminate]. cbn [checked_exists bind default].
    destruct (path_exists w r fs) eqn:Hr; cbn [negb]; [|discriminate].
    destruct c0 as [c|]; [|discriminate]. cbn [checked_exists bind default].
    destruct (path_exists w c fs) eqn:Hc; cbn [negb]; [|discriminate].
    intros [= <- <-]. split; [exact Hr|]. split; [exact Hc|].
    exists (Some r), (Some c). rewrite Hr0. auto.
  - cbn [checked_exists bind default].
    destruct (path_exists w rd fs) eqn:Hr; cbn [negb]; [|discriminate].
    destruct (usable_md w fs c0) eqn:Hc0.
    + destruct c0 as [c|]; [|discriminate]. cbn [checked_exists bind default].
      destruct (path_exists w c fs) eqn:Hc; cbn [negb]; [|discriminate].
      intros [= <- <-]. split; [exact Hr|]. split; [exact Hc|].
      exists r0, (Some c). rewrite Hr0, Hc0. auto.
    + cbn [checked_exists bind default].
      destruct (path_exists w cd fs) eqn:Hc; cbn [negb]; [|discriminate].
      intros [= <- <-]. split; [exact Hr|]. split; [exact Hc|].
      exists r0, c0. rewrite Hr0, Hc0. auto.
Qed.

Lemma resolve_md_paths_found_witness :
  path_exists read_only "docs/greenhouse_stripe_1_resume.md" two_docs = true
  /\ path_exists read_only "docs/greenhouse_stripe_1_cover.md" two_docs = true
  /\ exists r0 c0,
       _get_md_paths_from_db "greenhouse:stripe:1" cli_db = Ok (r0, c0)
       /\ if usable_md read_only two_docs r0
          then r0 = Some "docs/greenhouse_stripe_1_resume.md"
               /\ c0 = Some "docs/greenhouse_stripe_1_cover.md"
          else "docs/greenhouse_stripe_1_resume.md"
               = fst (_default_md_paths "greenhouse:stripe:1" "docs")
               /\ if usable_md read_only two_docs c0
                  then c0 = Some "docs/greenhouse_stripe_1_cover.md"
                  else "docs/greenhouse_stripe_1_cover.md"
                       = snd (_default_md_paths "greenhouse:stripe:1" "docs").
Proof.
  apply (resolve_md_paths_found read_only two_docs cli_db "greenhouse:stripe:1" "docs").
  vm_compute. reflexivity.
Defined.

(** X20. When [ensure_pdf_from_md] returns, the Markdown file was there,
    the PDF exists beside it under the same name with the suffix [.pdf],
    and the path returned is that place made absolute. The fallback
    renderer has run exactly when the preferred one returned False or
    raised. *)
Theorem ensure_pdf_from_md_made :
  forall (w : world) (md_path : string) (fs fs' : files) (out : string),
    ensure_pdf_from_md w md_path fs = (fs', Ok out) ->
    path_exists w md_path fs = true
    /\ exists pdf_path,
         with_suffix md_path ".pdf" = Some pdf_path
         /\ out = to_abs w pdf_path
         /\ path_exists w pdf_path fs' = true
         /\ (md_to_pdf_pretty w md_path pdf_path fs = (fs', Ok true)
             \/ exists fs1,
                  (md_to_pdf_pretty w md_path pdf_path fs = (fs1, Ok false)
                   \/ exists e, md_to_pdf_pretty w md_path pdf_path fs = (fs1, Err e))
                  /\ md_to_pdf_simple w md_path pdf_path fs1 = (fs', Ok tt)).
Proof.
  intros w md_path fs fs' out. unfold ensure_pdf_from_md.
  destruct (path_exists w md_path fs) eqn:Hmd; cbn [negb]; [|discriminate].
  destruct (with_suffix md_path ".pdf") as [pdf_path|]; [|discriminate].
  unfold mbind at 1. destruct (render_pdf w md_path pdf_path fs) as [fs2 [[]|e]] eqn:Hrender;
    [|discriminate].
  destruct (path_exists w pdf_path fs2) eqn:Hpdf; cbn [negb]; [|discriminate].
  intros [= <- <-]. split; [reflexivity|]. exists pdf_path.
  split; [reflexivity|]. split; [reflexivity|]. split; [exact Hpdf|].
  unfold render_pdf, mbind, try_except, ret in Hrender.
  destruct (md_to_pdf_pretty w md_path pdf_path fs) as [fs1 [[|]|e]] eqn:Hpretty;
    cbn [negb] in Hrender.
  - left. now injection Hrender as <-.
  - right. exists fs1. split; [now left|].
    destruct (md_to_pdf_simple w md_path pdf_path fs1) as [fs3 [[]|e]]; [|discriminate].
    now injection Hrender as <-.
  - right. exists fs1. split; [right; now exists e|].
    destruct (md_to_pdf_simple w md_path pdf_path fs1) as [fs3 [[]|e']]; [|discriminate].
    now injection Hrender as <-.
Qed.

Lemma ensure_pdf_from_md_made_witness :
  path_exists simple_only "docs/greenhouse_stripe_1_resume.md" two_docs = true
  /\ exists pdf_path,
       with_suffix "docs/greenhouse_stripe_1_resume.md" ".pdf" = Some pdf_path
       /\ "docs/greenhouse_stripe_1_resume.pdf" = to_abs simple_only pdf_path
       /\ path_exists simple_only pdf_path
                      (fst (ensure_pdf_from_md simple_only "docs/greenhouse_stripe_1_resume.md"
                                               two_docs)) = true
       /\ (md_to_pdf_pretty simple_only "docs/greenhouse_stripe_1_resume.md" pdf_path two_docs
           = (fst (ensure_pdf_from_md simple_only "docs/greenhouse_stripe_1_resume.md" two_docs),
              Ok true)
           \/ exists fs1,
                (md_to_pdf_pretty simple_only "docs/greenhouse_stripe_1_resume.md" pdf_path two_docs
                 = (fs1, Ok false)
                 \/ exists e,
                      md_to_pdf_pretty simple_only "docs/greenhouse_stripe_1_resume.md" pdf_path
                                       two_docs = (fs1, Err e))
                /\ md_to_pdf_simple simple_only "docs/greenhouse_stripe_1_resume.md" pdf_path fs1
                   = (fst (ensure_pdf_from_md simple_only "docs/greenhouse_stripe_1_resume.md"
                                              two_docs), Ok tt)).
Proof.
  apply (ensure_pdf_from_md_made simple_only "docs/greenhouse_stripe_1_resume.md" two_docs).
  vm_compute. reflexivity.
Defined.

(** *** Names that end in a known tail *)

Lemma append_assoc_string (a b c : string) : (a ++ b) ++ c = a ++ b ++ c.
Proof.
  induction a as [|x a IH]; [reflexivity|].
  change ((String x a ++ b) ++ c) with (String x ((a ++ b) ++ c)).
  change (String x a ++ b ++ c) with (String x (a ++ b ++ c)). now rewrite IH.
Qed.

Lemma append_empty_r (a : string) : a ++ "" = a.
Proof.
  induction a as [|x a IH]; [reflexivity|].
  change (String x a ++ "") with (String x (a ++ "")). now rewrite IH.
Qed.

Lemma append_inv_head (a b c : string) : a ++ b = a ++ c -> b = c.
Proof.
  induction a as [|x a IH]; [auto|].
  change (String x a ++ b) with (String x (a ++ b)).
  change (String x a ++ c) with (String x (a ++ c)). intros [= H]. now apply IH.
Qed.

Lemma has_char_app (c : ascii) (a b : string) :
  has_char c (a ++ b) = has_char c a || has_char c b.
Proof.
  induction a as [|x a IH]; [reflexivity|].
  change (String x a ++ b) with (String x (a ++ b)). cbn [has_char].
  now rewrite IH, orb_assoc.
Qed.

Lemma split_on_tail (sep : ascii) (x tail : string) :
  has_char sep tail = false ->
  exists init last_x,
    split_on sep x = (init ++ [last_x])%list
    /\ split_on sep (x ++ tail) = (init ++ [(last_x ++ tail)%string])%list.
Proof.
  intros Htail. induction x as [|c x (init & last_x & Hx & Hxt)].
  - exists [], "". split; [reflexivity|]. now apply split_on_whole.
  - change (String c x ++ tail) with (String c (x ++ tail)). cbn [split_on].
    rewrite Hx, Hxt. destruct (Ascii.eqb c sep).
    + exists ("" :: init), last_x. now split.
    + destruct init as [|a init]; cbn [app].
      * exists [], (String c last_x). now split.
      * exists (String c a :: init), last_x. now split.
Qed.

Lemma rfind_before_tail (c : ascii) (y tail : string) (i : nat) :
  rfind_before c (String.length tail) tail = Some i ->
  rfind_before c (String.length (y ++ tail)) (y ++ tail) = Some (String.length y + i).
Proof.
  intros Htail. induction y as [|x y IH]; [exact Htail|].
  change (String x y ++ tail) with (String x (y ++ tail)).
  cbn [String.length rfind_before]. now rewrite IH.
Qed.

Lemma drop_past (y tail : string) (k : nat) :
  drop (String.length y + k) (y ++ tail) = drop k tail.
Proof. induction y as [|x y IH]; [reflexivity|exact IH]. Qed.

Lemma take_past (y tail : string) (k : nat) :
  take (String.length y + k) (y ++ tail) = y ++ take k tail.
Proof.
  induction y as [|x y IH]; [reflexivity|].
  change (String x y ++ tail) with (String x (y ++ tail)).
  cbn [String.length Nat.add take]. now rewrite IH.
Qed.

(** The suffix of a name that ends in [tail], when [tail] holds a dot
    that is not its first and not its last character. *)
Lemma suffix_of_name_tail (y tail : string) (i : nat) :
  rfind_before "." (String.length tail) tail = Some (S i) ->
  S i < String.length tail - 1 ->
  suffix_of_name (y ++ tail) = drop (S i) tail.
Proof.
  intros Hdot Hmid. unfold suffix_of_name.
  rewrite (rfind_before_tail "." y tail (S i) Hdot), length_append.
  replace ((0 <? String.length y + S i)%nat
           && (String.length y + S i <? String.length y + String.length tail - 1)%nat)
    with true by (symmetry; apply andb_true_iff; split; apply Nat.ltb_lt; lia).
  apply drop_past.
Qed.

(** The last component of a path that ends in [tail]. *)
Lemma name_tail (x tail : string) :
  has_char "/" tail = false -> 2 <= String.length tail ->
  exists y, has_char "/" y = false /\ name (x ++ tail) = y ++ tail
            /\ exists before,
                 parts (x ++ tail) = (before ++ [(y ++ tail)%string])%list
                 /\ Forall component before
                 /\ forall tail', has_char "/" tail' = false -> 2 <= String.length tail' ->
                                  parts (x ++ tail') = (before ++ [(y ++ tail')%string])%list.
Proof.
  intros Htail Hlen.
  assert (Hkeep : forall y t, 2 <= String.length t -> y ++ t <> "" /\ y ++ t <> ".").
  { intros y t Ht. split; intros H; apply (f_equal String.length) in H;
      rewrite length_append in H; cbn in H; lia. }
  pose proof (split_on_no_sep "/" x) as Hno.
  assert (Hparts : forall t, has_char "/" t = false -> 2 <= String.length t ->
            exists init last_x,
              split_on "/" x = (init ++ [last_x])%list
              /\ parts (x ++ t)
                 = (filter (fun c => c <> "" /\ c <> ".") init ++ [(last_x ++ t)%string])%list).
  { intros t Ht Hlt. destruct (split_on_tail "/" x t Ht) as (init & last_x & Hx & Hxt).
    exists init, last_x. split; [exact Hx|]. unfold parts. rewrite Hxt, filter_app.
    now rewrite filter_cons_True, filter_nil by apply (Hkeep last_x t Hlt). }
  destruct (Hparts tail Htail Hlen) as (init & last_x & Hx & Hp).
  rewrite Hx in Hno. apply Forall_app in Hno as [Hinit Hlast]. inversion Hlast; subst.
  exists last_x. split; [assumption|]. split; [unfold name; rewrite Hp; apply last_last|].
  exists (filter (fun c => c <> "" /\ c <> ".") init). split; [exact Hp|]. split.
  - apply Forall_forall. intros c Hc. apply list_elem_of_filter in Hc as [[Hne Hdot] Hin].
    rewrite Forall_forall in Hinit. repeat split; auto.
  - intros t Ht Hlt. destruct (Hparts t Ht Hlt) as (init' & last' & Hx' & Hp').
    rewrite Hx in Hx'. apply app_inj_tail in Hx' as [<- <-]. exact Hp'.
Qed.

Lemma parts_render_any (anchor : bool) (l : list string) :
  Forall component l -> l <> [] -> parts (render anchor l) = l.
Proof.
  intros Hall Hne. destruct anchor; [now apply parts_render|].
  destruct l as [|x l]; [congruence|]. unfold render, parts.
  rewrite split_on_join; [|eapply Forall_impl; [exact Hall|now intros c [H _]]|discriminate].
  now apply filter_components.
Qed.

Lemma anchored_render (anchor : bool) (l : list string) :
  Forall component l -> l <> [] -> anchored (render anchor l) = anchor.
Proof.
  intros Hall Hne. destruct l as [|x l]; [congruence|]. unfold render, anchored.
  destruct anchor.
  { change ("/" ++ join "/" (x :: l)) with (String "/" (join "/" (x :: l))).
    cbn [String.prefix]. destruct (ascii_dec "/" "/"); [|congruence].
    now destruct (join "/" (x :: l)). }
  inversion Hall as [|? ? (Hslash & Hx & _) _]; subst.
  destruct x as [|c x]; [congruence|].
  assert (Hc : c <> "/"%char).
  { intros ->. cbn [has_char] in Hslash. now rewrite Ascii.eqb_refl in Hslash. }
  destruct l as [|y l]; cbn [join].
  - cbn [String.prefix]. destruct (ascii_dec "/" c); [congruence|reflexivity].
  - match goal with
    | |- String.prefix _ (String c x ++ ?r) = _ =>
        change (String c x ++ r) with (String c (x ++ r))
    end.
    cbn [String.prefix]. destruct (ascii_dec "/" c); [congruence|reflexivity].
Qed.

(** A path given by its components, whose name ends in a stem and [.md]:
    its suffix, and the path with the suffix [.pdf]. *)
Lemma with_suffix_tail (anchor : bool) (before : list string) (y stem : string) :
  Forall component before -> has_char "/" y = false ->
  has_char "/" stem = false -> has_char "." stem = false -> 1 <= String.length stem ->
  suffix (render anchor (before ++ [(y ++ stem ++ ".md")%string])%list) = ".md"
  /\ with_suffix (render anchor (before ++ [(y ++ stem ++ ".md")%string])%list) ".pdf"
     = Some (render anchor (before ++ [(y ++ stem ++ ".pdf")%string])%list)
  /\ suffix (render anchor (before ++ [(y ++ stem ++ ".pdf")%string])%list) = ".pdf"
  /\ name (render anchor (before ++ [(y ++ stem ++ ".pdf")%string])%list) = y ++ stem ++ ".pdf".
Proof.
  intros Hbefore Hy Hslash Hdot Hlen.
  assert (Htail : forall e, e = ".md" \/ e = ".pdf" ->
            rfind_before "." (String.length (stem ++ e)) (stem ++ e)
               = Some (String.length stem)
            /\ String.length stem < String.length (stem ++ e) - 1
            /\ drop (String.length stem) (stem ++ e) = e).
  { intros e He. split; [|split].
    - replace (Some (String.length stem)) with (Some (String.length stem + 0)) by (f_equal; lia).
      apply rfind_before_tail. now destruct He as [-> | ->].
    - rewrite length_append. destruct He as [-> | ->]; cbn [String.length]; lia.
    - replace (String.length stem) with (String.length stem + 0) by lia.
      now rewrite drop_past. }
  assert (Hsuffix : forall e, e = ".md" \/ e = ".pdf" -> suffix_of_name (y ++ stem ++ e) = e).
  { intros e He. destruct (Htail e He) as (Hr & Hm & Hd).
    destruct (String.length stem) as [|n] eqn:Hn; [lia|].
    rewrite (suffix_of_name_tail y (stem ++ e) n); [exact Hd|exact Hr|exact Hm]. }
  assert (Hcomp : forall e, e = ".md" \/ e = ".pdf" ->
            Forall component (before ++ [(y ++ stem ++ e)%string])%list
            /\ (before ++ [(y ++ stem ++ e)%string])%list <> []).
  { intros e He. split; [|now destruct before].
    apply Forall_app. split; [exact Hbefore|]. constructor; [|constructor].
    split; [rewrite !has_char_app, Hy, Hslash; now destruct He as [-> | ->]|].
    split; intros H; apply (f_equal String.length) in H;
      rewrite !length_append in H; destruct He as [-> | ->]; cbn in H; lia. }
  assert (Hparts : forall e, e = ".md" \/ e = ".pdf" ->
            parts (render anchor (before ++ [(y ++ stem ++ e)%string])%list)
            = (before ++ [(y ++ stem ++ e)%string])%list).
  { intros e He. destruct (Hcomp e He) as [Hc Hne]. now apply parts_render_any. }
  assert (Hstem : take (String.length (y ++ stem ++ ".md") - String.length ".md")
                       (y ++ stem ++ ".md") = y ++ stem).
  { rewrite <- append_assoc_string, length_append.
    replace (String.length (y ++ stem) + String.length ".md" - String.length ".md")
      with (String.length (y ++ stem) + 0) by lia.
    rewrite take_past. cbn [take]. apply append_empty_r. }
  split; [|split; [|split]].
  - unfold suffix, name. rewrite (Hparts ".md" (or_introl eq_refl)), last_last.
    apply Hsuffix. now left.
  - unfold with_suffix. rewrite (Hparts ".md" (or_introl eq_refl)), rev_app_distr.
    cbn [List.rev app].
    destruct (Hcomp ".md" (or_introl eq_refl)) as [Hc Hne].
    rewrite (anchored_render anchor _ Hc Hne).
    rewrite (Hsuffix ".md" (or_introl eq_refl)), Hstem, rev_involutive.
    now rewrite append_assoc_string.
  - unfold suffix, name. rewrite (Hparts ".pdf" (or_intror eq_refl)), last_last.
    apply Hsuffix. now right.
  - unfold name. now rewrite (Hparts ".pdf" (or_intror eq_refl)), last_last.
Qed.

(** X21. The default paths of a job, whatever its id and the directory,
    are Markdown files by their suffix, so [ensure_pdf_from_md] finds a
    name for each PDF; the two PDF names end in [.pdf] and differ, so the
    cover letter never overwrites the resume. *)
Theorem default_md_paths_convert :
  forall job_id docs_dir : string,
    suffix (fst (_default_md_paths job_id docs_dir)) = ".md"
    /\ suffix (snd (_default_md_paths job_id docs_dir)) = ".md"
    /\ exists resume_pdf cover_pdf,
         with_suffix (fst (_default_md_paths job_id docs_dir)) ".pdf" = Some resume_pdf
         /\ with_suffix (snd (_default_md_paths job_id docs_dir)) ".pdf" = Some cover_pdf
         /\ suffix resume_pdf = ".pdf" /\ suffix cover_pdf = ".pdf"
         /\ resume_pdf <> cover_pdf.
Proof.
  intros job_id docs_dir. unfold _default_md_paths. cbn [fst snd].
  set (base := replace_char ":" "_" job_id).
  assert (Hshape : exists anchor before y,
             Forall component before /\ has_char "/" y = false
             /\ path_join docs_dir (base ++ "_resume" ++ ".md")
                = render anchor (before ++ [(y ++ "_resume" ++ ".md")%string])%list
             /\ path_join docs_dir (base ++ "_cover" ++ ".md")
                = render anchor (before ++ [(y ++ "_cover" ++ ".md")%string])%list).
  { destruct (name_tail base ("_resume" ++ ".md") eq_refl
                        (le_n_S _ _ (le_n_S _ _ (Nat.le_0_l _))))
      as (y & Hy & _ & before & Hparts & Hbefore & Hother).
    specialize (Hother ("_cover" ++ ".md") eq_refl (le_n_S _ _ (le_n_S _ _ (Nat.le_0_l _)))).
    assert (Hanchor : forall t, String.prefix "/" t = false ->
                                anchored (base ++ t) = anchored base).
    { intros t Ht. unfold anchored. destruct base as [|c b]; [exact Ht|].
      change (String c b ++ t) with (String c (b ++ t)). cbn [String.prefix].
      destruct (ascii_dec "/" c); [|reflexivity]. destruct (b ++ t); now destruct b. }
    unfold path_join. rewrite !Hanchor, Hparts, Hother by reflexivity.
    destruct (anchored base).
    - exists true, before, y. repeat split; assumption.
    - exists (anchored docs_dir), (parts docs_dir ++ before)%list, y.
      rewrite <- !app_assoc. repeat split; try assumption.
      apply Forall_app. split; [apply parts_components|exact Hbefore]. }
  change (base ++ "_resume.md") with (base ++ "_resume" ++ ".md").
  change (base ++ "_cover.md") with (base ++ "_cover" ++ ".md").
  destruct Hshape as (anchor & before & y & Hbefore & Hy & -> & ->).
  destruct (with_suffix_tail anchor before y "_resume" Hbefore Hy eq_refl eq_refl
                             ltac:(cbn; lia)) as (Hs1 & Hw1 & Hpdf1 & Hn1).
  destruct (with_suffix_tail anchor before y "_cover" Hbefore Hy eq_refl eq_refl
                             ltac:(cbn; lia)) as (Hs2 & Hw2 & Hpdf2 & Hn2).
  split; [exact Hs1|]. split; [exact Hs2|].
  eexists. eexists. split; [exact Hw1|]. split; [exact Hw2|].
  split; [exact Hpdf1|]. split; [exact Hpdf2|].
  intros Heq. apply (f_equal name) in Heq. rewrite Hn1, Hn2 in Heq.
  apply (f_equal String.length) in Heq. rewrite !length_append in Heq.
  cbn [String.length] in Heq. lia.
Qed.

Example default_md_paths_example :
  _default_md_paths "greenhouse:stripe:1" "docs"
  = ("docs/greenhouse_stripe_1_resume.md", "docs/greenhouse_stripe_1_cover.md")
  /\ with_suffix "docs/greenhouse_stripe_1_resume.md" ".pdf"
     = Some "docs/greenhouse_stripe_1_resume.pdf"
  /\ _default_md_paths "a" "" = ("a_resume.md", "a_cover.md")
  /\ _default_md_paths "a" "docs/" = ("docs/a_resume.md", "docs/a_cover.md").
Proof. repeat split; vm_compute; reflexivity. Qed.

End ConvertPathFacts.

(* ===================================================================== *)
(** ** fetch_jobs.py: what a fetch leaves behind *)
(* ===================================================================== *)

Section BoardFacts.
Import Text Py Store Fetch Html Board.





(** The first posting of the sample board is stored, with its date as the
    text it came as; the third one never is. *)
Lemma one_board_stored :
  map (row_get "id") (jobs_rows (st_db (fst (fetch_greenhouse one_board "acme" start))))
  = [VText "greenhouse:acme:1"]
  /\ map (row_get "posted_at") (jobs_rows (st_db (fst (fetch_greenhouse one_board "acme" start))))
     = [VText "next week"].
Proof. split; vm_compute; reflexivity. Qed.

(** X23. [to_iso_utc] raises for an [int] or [float] argument only, and
    then with the exception of [float(val)] or of
    [datetime.fromtimestamp]: a text never raises, and a text that is
    neither a date nor a number comes back stripped. [None] is returned
    for [None] alone. *)
Theorem to_iso_utc_raises_only_on_numbers :
  forall (k : clock),
    (forall val, to_iso_utc k val = Ok None <-> val = JNull)
    /\ (forall val e,
          to_iso_utc k val = Err e <->
          is_number val = true
          /\ (float_of_number k val = Err e
              \/ exists x, float_of_number k val = Ok x /\ from_timestamp k x = Err e))
    /\ (forall v, exists s, to_iso_utc k (JStr v) = Ok (Some s)
                  /\ (is_ok (from_isoformat k (replace_with "Z" "+00:00" (strip v))) = false ->
                      is_ok (float_of k (strip v)) = false -> s = strip v)).
Proof.
  intros k. split; [|split].
  - intros val. split; [|now intros ->].
    destruct val as [|b|x|v|l|d]; cbn [to_iso_utc]; try discriminate; [reflexivity|..].
    + destruct (float_of_number k _); [|discriminate]. cbn [bind].
      now destruct (from_timestamp k _).
    + destruct (float_of_number k _); [|discriminate]. cbn [bind].
      now destruct (from_timestamp k _).
    + destruct (from_isoformat k _); [discriminate|]. now destruct (epoch_of_text k _).
  - intros val e. split.
    + destruct val as [|b|x|v|l|d]; cbn [to_iso_utc is_number]; try discriminate.
      * destruct (float_of_number k _) as [y|e1]; cbn [bind].
        -- destruct (from_timestamp k y) eqn:Hts; cbn [bind]; [discriminate|].
           intros [= ->]. eauto.
        -- intros [= ->]. auto.
      * destruct (float_of_number k _) as [y|e1]; cbn [bind].
        -- destruct (from_timestamp k y) eqn:Hts; cbn [bind]; [discriminate|].
           intros [= ->]. eauto.
        -- intros [= ->]. auto.
      * destruct (from_isoformat k _); [discriminate|]. now destruct (epoch_of_text k _).
    + intros (Hnum & Hcase).
      destruct val as [|b|y|v|l|d]; cbn [is_number] in Hnum; try discriminate;
        cbn [to_iso_utc]; destruct Hcase as [He|(x & Hx & Hts)];
        try (now rewrite He); rewrite Hx; cbn [bind]; now rewrite Hts.
  - intros v. cbn [to_iso_utc]. unfold epoch_of_text.
    destruct (from_isoformat k _) as [d|e1]; [exists d; split; [reflexivity|discriminate]|].
    destruct (float_of k (strip v)) as [num|e2]; cbn [bind is_ok].
    + destruct (from_timestamp k _) as [d|e3]; eexists; (split; [reflexivity|discriminate]).
    + exists (strip v). split; [reflexivity|auto].
Qed.

(** *** A fetch only adds *)




















(** With a database that is locked at the last commit the fetch of the
    sample board raises; its line is printed and no posting is stored. *)
Lemma fetch_and_store_locked :
  snd (Board.fetch_and_store locked one_board ["acme"] [] start)
  = Err (OperationalError "database is locked")
  /\ st_out (fst (Board.fetch_and_store locked one_board ["acme"] [] start))
     = ["[greenhouse] acme: timestamp out of range for platform time_t"]
  /\ jobs_rows (st_db (fst (Board.fetch_and_store locked one_board ["acme"] [] start))) = [].
Proof. split; [|split]; vm_compute; reflexivity. Qed.

End BoardFacts.

